(** * a3t: batching utilities, label dictionaries, the environment check,
      the speech frontend and the WaveNet residual block

    A shallow embedding of the Python sources
      - [src/asr/asr_utils.py]           ([make_batchset],
        [load_inputs_and_targets], [load_labeldict]),
      - [tools/check_install.py]         (requirement parsing and the
        availability loop),
      - [espnet/nets/pytorch_backend/frontends/frontend.py] ([Frontend]),
      - [espnet2/gan_tts/vits/residual_block.py] ([WaveNetResidualBlock]),
    followed by the properties proved about them.

    Conventions.  Python integers are [Z]; the quotient [a / b] of two
    integers is the float nearest to it.  Text is [string], one
    character per code point below 256.  A Python exception is a value of
    an error type and a function that may raise returns a [result].
    Dictionaries are [gmap]s, Python lists are [list]s. *)

From Stdlib Require Import ZArith List String Ascii Lia Permutation Sorted.
From Stdlib Require Import Reals Lra.
From stdpp Require Import base option list gmap strings pretty sorting.
From Equations Require Import Equations.
Import ListNotations.

Local Open Scope Z_scope.
Local Open Scope string_scope.
Local Open Scope list_scope.

(** ** Python prelude: exceptions, built-ins used by the sources *)

Module Py.

(** The built-in exceptions the modelled code can raise. *)
Inductive exn : Type :=
| IndexError
| KeyError
| ValueError
| TypeError
| ZeroDivisionError
| AssertionError
| OverflowError
| AttributeError
| ImportError
| RuntimeError.

(** Outcome of a computation that may raise an exception of type [E]. *)
Inductive result (E A : Type) : Type :=
| Ok (a : A)
| Raise (e : E).
Arguments Ok {E A} a.
Arguments Raise {E A} e.

Definition bind {E A B} (m : result E A) (k : A -> result E B) : result E B :=
  match m with
  | Ok a => k a
  | Raise e => Raise e
  end.

#[global] Instance result_ret {E} : MRet (result E) := fun _ a => Ok a.
#[global] Instance result_bind {E} : MBind (result E) :=
  fun _ _ k m => bind m k.

(** [[f(x) for x in l]] where [f] may raise: elements are evaluated from
    left to right and the first exception aborts the comprehension. *)
Fixpoint comprehension {E A B} (f : A -> result E B) (l : list A)
  : result E (list B) :=
  match l with
  | [] => Ok []
  | x :: l' =>
      y ← f x;
      ys ← comprehension f l';
      Ok (y :: ys)
  end.

(** [filter(p, l)] where the predicate may raise. *)
Fixpoint filter {E A} (p : A -> result E bool) (l : list A)
  : result E (list A) :=
  match l with
  | [] => Ok []
  | x :: l' =>
      keep ← p x;
      rest ← filter p l';
      Ok (if keep : bool then x :: rest else rest)
  end.

(** [for x in l: acc = body(acc, x)] where the body may raise. *)
Fixpoint for_each {E A S} (body : S -> A -> result E S) (acc : S) (l : list A)
  : result E S :=
  match l with
  | [] => Ok acc
  | x :: l' =>
      acc' ← body acc x;
      for_each body acc' l'
  end.

(** [enumerate(l)] *)
Definition enumerate {A} (l : list A) : list (nat * A) :=
  zip (seq 0 (length l)) l.

(** [l[i]] for a non-negative index. *)
Definition getitem {A} (l : list A) (i : nat) : result exn A :=
  match l !! i with
  | Some x => Ok x
  | None => Raise IndexError
  end.

(** [d[key]] for a key of a JSON object that may be absent. *)
Definition getkey {A} (field : option A) : result exn A :=
  match field with
  | Some x => Ok x
  | None => Raise KeyError
  end.

(** [l[start:end_]] for [0 <= start <= end_]. *)
Definition slice {A} (l : list A) (start end_ : nat) : list A :=
  take (end_ - start) (drop start l).

(** The integer nearest to [n / d], for [0 <= n] and [0 < d]; of two
    nearest integers the even one is taken. *)
Definition round_half_even (n d : Z) : Z :=
  let q := n `div` d in
  let r2 := 2 * (n `mod` d) in
  if (r2 <? d)%Z then q
  else if (d <? r2)%Z then q + 1
  else if Z.even q then q else q + 1.

(** [floor(log2(a / b))] for positive integers [a] and [b]. *)
Definition float_exponent (a b : Z) : Z :=
  if (b <=? a)%Z then Z.log2 (a `div` b)
  else - Z.log2_up ((b + a - 1) `div` a).

(** A finite float (IEEE 754 binary64): the pair [(m, e)] stands for
    [m * 2^e], with [|m| <= 2^53] and [-1074 <= e]. *)
Definition float64 : Type := Z * Z.

(** [a / b] on two integers: [ZeroDivisionError] when [b] is 0;
    otherwise the float nearest to the quotient, which has 53
    significant bits or, below [2^-1022], is a multiple of [2^-1074];
    [OverflowError] when that float would be [2^1024] or more. *)
Definition truediv (a b : Z) : result exn float64 :=
  if decide (b = 0) then Raise ZeroDivisionError else
  if decide (a = 0) then Ok (0, 0) else
  let l := float_exponent (Z.abs a) (Z.abs b) in
  let e := Z.max (l - 52) (- 1074) in
  let m := if (0 <=? e)%Z
           then round_half_even (Z.abs a) (Z.abs b * 2 ^ e)
           else round_half_even (Z.abs a * 2 ^ (- e)) (Z.abs b) in
  if (0 <=? e)%Z && (2 ^ 1024 <=? m * 2 ^ e)%Z then Raise OverflowError
  else Ok (Z.sgn a * Z.sgn b * m, e).

(** [int(x)] on a finite float: truncation towards zero. *)
Definition int_of_float (x : float64) : Z :=
  if (0 <=? x.2)%Z then x.1 * 2 ^ x.2 else x.1 `quot` 2 ^ (- x.2).

(** [int(a / b)] on integers: true division, then truncation.  It is
    the integer quotient as long as the operands are below [2^53]; beyond,
    the rounding of the division shows. *)
Definition int_div (a b : Z) : result exn Z :=
  x ← truediv a b;
  Ok (int_of_float x).

(** Insertion of [x] in front of the first element that may follow it;
    [before kx ky] tells whether an element of key [kx] may precede one
    of key [ky]. *)
Fixpoint insert_by {A} (before : Z -> Z -> bool) (key : A -> Z) (x : A)
  (l : list A) : list A :=
  match l with
  | [] => [x]
  | y :: l' =>
      if before (key x) (key y) then x :: y :: l'
      else y :: insert_by before key x l'
  end.

(** The stable sort behind [sorted]: elements with equal keys keep their
    original order, also with [reverse=True]. *)
Definition stable_sort {A} (key : A -> Z) (reverse : bool) (l : list A)
  : list A :=
  foldr (insert_by (if reverse then Z.geb else Z.leb) key) [] l.

(** [sorted(l, key=key, reverse=reverse)]: the keys are computed first,
    once per element and from left to right (a key that raises aborts
    the call), then the decorated list is sorted. *)
Definition sorted {A} (key : A -> result exn Z) (reverse : bool) (l : list A)
  : result exn (list A) :=
  decorated ← comprehension (fun x => k ← key x; Ok (k, x)) l;
  Ok (snd <$> stable_sort fst reverse decorated).

(** Storing a Python integer in an [np.int64] array. *)
Definition to_int64 (n : Z) : result exn Z :=
  if decide (- 2 ^ 63 <= n < 2 ^ 63) then Ok n else Raise OverflowError.

(** [c.isspace()] for a character below 256: TAB, LF, VT, FF, CR, the
    separators FS, GS, RS, US, the space, NEL and the no-break space. *)
Definition is_space (c : ascii) : bool :=
  let n := nat_of_ascii c in
  ((9 <=? n)%nat && (n <=? 13)%nat)
  || ((28 <=? n)%nat && (n <=? 32)%nat)
  || (n =? 133)%nat
  || (n =? 160)%nat.

Definition is_empty (s : string) : bool :=
  match s with
  | EmptyString => true
  | String _ _ => false
  end.

(** [s.split()] without a separator: the maximal runs of non-space
    characters, in order; [tok] is the run being read. *)
Fixpoint split_runs (tok : string) (s : string) : list string :=
  match s with
  | EmptyString => if is_empty tok then [] else [tok]
  | String c s' =>
      if is_space c
      then (if is_empty tok then split_runs "" s' else tok :: split_runs "" s')
      else split_runs (tok +:+ String c "") s'
  end.

Definition split (s : string) : list string := split_runs "" s.

(** [s.split(sep)] for a non-empty separator: the pieces between the
    non-overlapping occurrences of [sep] found from the left; empty
    pieces are kept.  [skip] counts the characters of a separator that
    is being stepped over. *)
Fixpoint split_sep (sep : string) (skip : nat) (tok : string) (s : string)
  : list string :=
  match s with
  | EmptyString => [tok]
  | String c s' =>
      match skip with
      | S k => split_sep sep k tok s'
      | O =>
          if String.prefix sep s
          then tok :: split_sep sep (String.length sep - 1) "" s'
          else split_sep sep O (tok +:+ String c "") s'
      end
  end.

Definition split_on (sep : string) (s : string) : list string :=
  split_sep sep O "" s.

(** [sep in s]. *)
Fixpoint contains (sep : string) (s : string) : bool :=
  String.prefix sep s
  || match s with
     | EmptyString => false
     | String _ s' => contains sep s'
     end.

(** [s.replace(c, '')] for a one-character [c]. *)
Fixpoint remove_char (c : ascii) (s : string) : string :=
  match s with
  | EmptyString => EmptyString
  | String d s' =>
      if Ascii.eqb c d then remove_char c s' else String d (remove_char c s')
  end.

Definition digit_of (c : ascii) : option Z :=
  let n := nat_of_ascii c in
  if ((48 <=? n)%nat && (n <=? 57)%nat)%bool
  then Some (Z.of_nat n - 48)
  else None.

(** The digits of an integer literal: decimal digits, with single
    underscores allowed between two digits.  [after_digit] tells whether
    the previous character was a digit. *)
Fixpoint digits (acc : Z) (after_digit : bool) (s : string) : option Z :=
  match s with
  | EmptyString => if after_digit then Some acc else None
  | String c s' =>
      match digit_of c with
      | Some d => digits (10 * acc + d) true s'
      | None =>
          if (Ascii.eqb c "_" && after_digit)%bool
          then digits acc false s'
          else None
      end
  end.

(** [int(s)] for a string without surrounding white space (the sources
    only convert tokens produced by [split]): an optional sign and the
    digits; anything else raises [ValueError]. *)
Definition int (s : string) : result exn Z :=
  let parsed :=
    match s with
    | String "-" s' => Z.opp <$> digits 0 false s'
    | String "+" s' => digits 0 false s'
    | _ => digits 0 false s
    end in
  match parsed with
  | Some n => Ok n
  | None => Raise ValueError
  end.

End Py.

Import Py.

(** ** [src/asr/asr_utils.py] *)

Module AsrUtils.

(** One entry of the ['input'] or ['output'] list of an utterance of
    data.json: a JSON object whose keys ['feat'], ['shape'] and
    ['tokenid'] may each be absent.  Shapes are array dimensions. *)
Record entry : Type := {
  feat : option string;
  shape : option (list N);
  tokenid : option string
}.

(** The value of an utterance in data.json. *)
Record utt_info : Type := {
  input : list entry;
  output : list entry
}.

(** An element of [data.items()]: the utterance id and its value. *)
Definition item : Type := string * utt_info.

(** *** Training iterator related *)

(** [int(x[1]['input'][0]['shape'][0])] *)
Definition ilen_of (x : item) : result exn Z :=
  e ← getitem (input x.2) 0;
  s ← getkey (shape e);
  n ← getitem s 0;
  Ok (Z.of_N n).

(** [int(x[1]['output'][0]['shape'][0])] *)
Definition olen_of (x : item) : result exn Z :=
  e ← getitem (output x.2) 0;
  s ← getkey (shape e);
  n ← getitem s 0;
  Ok (Z.of_N n).

(** The body of the [while] loop of [make_batchset] up to the
    computation of [end]. *)
Definition batch_end (sorted_data : list item)
  (batch_size max_length_in max_length_out : Z) (start : nat)
  : result exn nat :=
  x ← getitem sorted_data start;
  ilen ← ilen_of x;
  y ← getitem sorted_data start;
  olen ← olen_of y;
  qi ← int_div ilen max_length_in;
  qo ← int_div olen max_length_out;
  let factor := Z.max qi qo in
  q ← int_div batch_size (1 + factor);
  let b := Z.max 1 q in
  Ok (Nat.min (length sorted_data) (start + Z.to_nat b)).

Definition inspect {A} (x : A) : {y : A | x = y} := exist _ x eq_refl.

(** The [while True] loop of [make_batchset], from the value [start] and
    the batches [minibatch] collected so far.  Each round moves [start]
    forward, which is why the loop ends. *)
Equations? batch_loop (sorted_data : list item)
  (batch_size max_length_in max_length_out : Z) (start : nat)
  (minibatch : list (list item)) : result exn (list (list item))
  by wf (length sorted_data - start)%nat lt :=
  batch_loop sorted_data batch_size max_length_in max_length_out start minibatch
    with inspect (batch_end sorted_data batch_size max_length_in
                    max_length_out start) := {
    | exist _ (Raise e) _ => Raise e
    | exist _ (Ok end_) Hend with decide (end_ = length sorted_data) := {
        | left _ => Ok (minibatch ++ [slice sorted_data start end_])
        | right Hne =>
            batch_loop sorted_data batch_size max_length_in max_length_out
              end_ (minibatch ++ [slice sorted_data start end_]) } }.
Proof.
  revert Hend. unfold batch_end, getitem.
  destruct (sorted_data !! start) as [x|] eqn:Hx; [|discriminate].
  apply lookup_lt_Some in Hx. cbn.
  destruct (ilen_of x); cbn; [|discriminate].
  destruct (olen_of x); cbn; [|discriminate].
  destruct (int_div _ max_length_in); cbn; [|discriminate].
  destruct (int_div _ max_length_out); cbn; [|discriminate].
  destruct (int_div batch_size _); cbn; [|discriminate].
  intros [= <-]. lia.
Qed.

(** [make_batchset(data, batch_size, max_length_in, max_length_out,
    num_batches)]; [data] is given by [data.items()], in the iteration
    order of the dictionary.  Logging is left out. *)
Definition make_batchset (data : list item)
  (batch_size max_length_in max_length_out num_batches : Z)
  : result exn (list (list item)) :=
  sorted_data ← sorted ilen_of true data;
  minibatch ← batch_loop sorted_data batch_size max_length_in max_length_out
                0 [];
  if decide (0 < num_batches)
  then Ok (take (Z.to_nat num_batches) minibatch)
  else Ok minibatch.

(** An element of the [batch] handed to [load_inputs_and_targets]: a
    pair as [make_batchset] produces them, or a dictionary, given by its
    entries under integer keys (an utterance dictionary of data.json,
    whose keys are strings, has none); [b[1]] is the second component of
    a pair and the value under key [1] of a dictionary. *)
Inductive element : Type :=
| Pair (name : string) (info : utt_info)
| Dict (d : gmap Z utt_info).

Definition isinstance_dict (b : element) : bool :=
  match b with
  | Dict _ => true
  | Pair _ _ => false
  end.

(** [b[1]] *)
Definition second (b : element) : result exn utt_info :=
  match b with
  | Pair _ info => Ok info
  | Dict d => getkey (d !! 1)
  end.

Section LoadInputsAndTargets.

(** The rows of a feature matrix, the type of speaker embedding
    vectors and the two readers of [kaldi_io_py]; a reader that fails
    raises. *)
Variables Row Vec : Type.
Variable read_mat : string -> result exn (list Row).
Variable read_vec_flt : string -> result exn Vec.

(** [b[1]['input'][k]['feat']] *)
Definition input_feat (k : nat) (b : element) : result exn string :=
  info ← second b;
  e ← getitem (input info) k;
  getkey (feat e).

(** [b[1]['output'][0]['tokenid'].split()] *)
Definition output_tokens (b : element) : result exn (list string) :=
  info ← second b;
  e ← getitem (output info) 0;
  t ← getkey (tokenid e);
  Ok (split t).

(** [np.fromiter(map(int, tokens), dtype=np.int64)] *)
Definition token_ids (tokens : list string) : result exn (list Z) :=
  comprehension (fun t => n ← int t; to_int64 n) tokens.

(** [sorted(filter(lambda i: len(ys[i]) > 0, range(len(xs))),
           key=lambda i: -len(xs[i]))] *)
Definition nonzero_sorted (xs : list (list Row)) (ys : list (list string))
  : result exn (list nat) :=
  nonzero_idx ←
    filter (fun i => y ← getitem ys i; Ok (bool_decide (0 < length y)%nat))
      (seq 0 (length xs));
  sorted (fun i => x ← getitem xs i; Ok (- Z.of_nat (length x))) false
    nonzero_idx.

(** [load_inputs_and_targets(batch, use_speaker_embedding)].  The
    result is the pair [(xs, ys)], with the list of speaker embeddings
    as third component when they are asked for.  Logging is left
    out. *)
Definition load_inputs_and_targets (batch : list element)
  (use_speaker_embedding : bool)
  : result exn (list (list Row) * list (list Z) * option (list Vec)) :=
  b0 ← getitem batch 0;
  if negb (isinstance_dict b0) then Raise AssertionError else
  xs ← comprehension (fun b => f ← input_feat 0 b; read_mat f) batch;
  ys ← comprehension output_tokens batch;
  nonzero_sorted_idx ← nonzero_sorted xs ys;
  xs' ← comprehension (getitem xs) nonzero_sorted_idx;
  ys' ← comprehension (fun i => y ← getitem ys i; token_ids y)
          nonzero_sorted_idx;
  if use_speaker_embedding
  then
    spembs ← comprehension (fun b => f ← input_feat 1 b; read_vec_flt f)
               batch;
    spembs' ← comprehension (getitem spembs) nonzero_sorted_idx;
    Ok (xs', ys', Some spembs')
  else Ok (xs', ys', None).

End LoadInputsAndTargets.

Arguments nonzero_sorted {Row} xs ys.
Arguments load_inputs_and_targets {Row Vec} read_mat read_vec_flt batch
  use_speaker_embedding.

(** *** Language model related *)

(** The body of the loop of [load_labeldict] for one line [ln]:
    [s, i = ln.split()] and [labeldict[s] = int(i)].  Unpacking anything
    but two tokens raises [ValueError]. *)
Definition labeldict_line (labeldict : gmap string Z) (ln : string)
  : result exn (gmap string Z) :=
  match split ln with
  | [s; i] =>
      n ← int i;
      Ok (<[s := n]> labeldict)
  | _ => Raise ValueError
  end.

(** The dictionary after the [for] loop over the lines of the file. *)
Definition read_labeldict (lines : list string) : result exn (gmap string Z) :=
  for_each labeldict_line {["<blank>" := 0]} lines.

(** [load_labeldict(dict_file)]; [lines] is what
    [open(dict_file, 'r').readlines()] returns. *)
Definition load_labeldict (lines : list string) : result exn (gmap string Z) :=
  labeldict ← read_labeldict lines;
  if decide (is_Some (labeldict !! "<eos>"))
  then Ok labeldict
  else Ok (<["<eos>" := Z.of_nat (size labeldict)]> labeldict).

(** *** Padding *)

(** [max(l)] on a list of lengths; the maximum of nothing raises. *)
Definition max_of (l : list nat) : result exn nat :=
  match l with
  | [] => Raise ValueError
  | n :: l' => Ok (foldl Nat.max n l')
  end.

(** [batch_pad[i, :b.shape[0]] = b]: the first frames of row [i] are
    overwritten by the frames of [b]. *)
Definition assign_row {A} (batch_pad : list (list A)) (ib : nat * list A)
  : list (list A) :=
  alter (fun row => ib.2 ++ drop (length ib.2) row) ib.1 batch_pad.

(** [pad_ndarray_list(batch, pad_value)] on arrays that are lists of
    frames of one type [A] (a number for an array of one dimension, a row
    of [D] numbers for a matrix); [pad_value] is the frame filled with the
    padding value. *)
Definition pad_ndarray_list {A} (batch : list (list A)) (pad_value : A)
  : result exn (list (list A)) :=
  let bs := length batch in
  maxlen ← max_of (length <$> batch);
  _ ← getitem batch 0;
  let batch_pad := replicate bs (replicate maxlen pad_value) in
  Ok (foldl assign_row batch_pad (enumerate batch)).

(** *** Chainer extension related *)

Section CompareValueTrigger.

(** The values reported, the mean that [DictSummary.compute_mean] takes
    of the values added for the key, and [compare_fn]. *)
Variable V : Type.
Variable mean : list V -> V.
Variable compare_fn : V -> V -> bool.

(** The attributes of a [CompareValueTrigger] that change: [_best_value]
    and the values added to [_summary] since it was last initialised. *)
Record CompareValueTrigger : Type := {
  best_value : option V;
  summary : list V
}.

(** [CompareValueTrigger.__init__] *)
Definition trigger_init : CompareValueTrigger :=
  {| best_value := None; summary := [] |}.

(** [CompareValueTrigger.__call__(trainer)]: [observation] is the value
    of [trainer.observation] under the key, when it has one, and
    [interval] what [self._interval_trigger(trainer)] returns.  The result
    is the new state of the trigger and the value returned. *)
Definition trigger_call (self : CompareValueTrigger) (observation : option V)
  (interval : bool) : result exn (CompareValueTrigger * bool) :=
  let summary_ :=
    match observation with
    | Some v => summary self ++ [v]
    | None => summary self
    end in
  if negb interval
  then Ok ({| best_value := best_value self; summary := summary_ |}, false)
  else
    match summary_ with
    | [] => Raise KeyError
    | _ :: _ =>
        let value := mean summary_ in
        match best_value self with
        | None => Ok ({| best_value := Some value; summary := [] |}, false)
        | Some best =>
            if compare_fn best value
            then Ok ({| best_value := Some best; summary := [] |}, true)
            else Ok ({| best_value := Some value; summary := [] |}, false)
        end
    end.

(** The trigger called at each of a series of iterations; the values it
    returned are collected, the last one first. *)
Fixpoint trigger_run (self : CompareValueTrigger)
  (events : list (option V * bool)) (fired : list bool)
  : result exn (CompareValueTrigger * list bool) :=
  match events with
  | [] => Ok (self, fired)
  | (observation, interval) :: events' =>
      r ← trigger_call self observation interval;
      trigger_run r.1 events' (r.2 :: fired)
  end.

End CompareValueTrigger.

Arguments best_value {V} c.
Arguments summary {V} c.
Arguments trigger_init {V}.
Arguments trigger_call {V} mean compare_fn self observation interval.
Arguments trigger_run {V} mean compare_fn self events fired.

Section AdadeltaEpsDecay.

(** Floating-point numbers and their product. *)
Variable float : Type.
Variable fmul : float -> float -> float.

(** The optimizer of the trainer: a chainer optimizer, which has the
    attribute [eps], or a pytorch optimizer, which has [param_groups]. *)
Inductive optimizer : Type :=
| ChainerOptimizer (eps : float)
| TorchOptimizer (param_groups : list (gmap string float)).

(** The loop of the pytorch branch over the groups not yet visited
    ([todo]), after the groups in [visited] were updated.  The groups are
    updated in place: when [p["eps"]] raises, the updates already made
    stay. *)
Fixpoint decay_groups (eps_decay : float) (visited todo : list (gmap string float))
  : result (exn * optimizer) optimizer :=
  match todo with
  | [] => Ok (TorchOptimizer visited)
  | p :: todo' =>
      match p !! "eps" with
      | Some e =>
          decay_groups eps_decay (visited ++ [<["eps" := fmul e eps_decay]> p]) todo'
      | None => Raise (KeyError, TorchOptimizer (visited ++ todo))
      end
  end.

(** [_adadelta_eps_decay(trainer, eps_decay)] on the optimizer that
    [trainer.updater.get_optimizer('main')] returns.  Logging is left
    out. *)
Definition _adadelta_eps_decay (opt : optimizer) (eps_decay : float)
  : result (exn * optimizer) optimizer :=
  match opt with
  | ChainerOptimizer current_eps =>
      Ok (ChainerOptimizer (fmul current_eps eps_decay))
  | TorchOptimizer param_groups => decay_groups eps_decay [] param_groups
  end.

End AdadeltaEpsDecay.

Arguments ChainerOptimizer {float} eps.
Arguments TorchOptimizer {float} param_groups.
Arguments decay_groups {float} fmul eps_decay visited todo.
Arguments _adadelta_eps_decay {float} fmul opt eps_decay.

End AsrUtils.

(** ** [tools/check_install.py] *)

Module CheckInstall.

Inductive level : Type := INFO | WARNING.

(** A record emitted through [logging]: its level and its message. *)
Definition log_record : Type := level * string.

(** What the script reads of an imported module: [lib.__version__], when
    the module has that attribute. *)
Record py_module : Type := { version_attr : option string }.

(** The interpreter the script runs in. *)
Record environment : Type := {
  sys_version : string;
  import_module : string -> result exn py_module;
  torch_cuda_is_available : bool;
  torch_cudnn_is_available : bool;
  chainer_cuda_available : bool;
  chainer_cudnn_enabled : bool;
  torch_cuda_device_count : nat
}.

Definition MANUALLY_INSTALLED_LIBRARIES : list (string * option string) :=
  [("matplotlib", None); ("chainer_ctc", None); ("warpctc_pytorch", None)].

Definition newline : ascii := ascii_of_nat 10.

(** The body of the loop that parses the requirements. *)
Definition parse_line (line : string) : result exn (string * option string) :=
  let line := remove_char newline line in
  if contains "==" line then
    match split_on "==" line with
    | [name; version] => Ok (name, Some version)
    | _ => Raise ValueError
    end
  else if contains ">=" line then
    match split_on ">=" line with
    | [name; _] => Ok (name, None)
    | _ => Raise ValueError
    end
  else Ok (line, None).

(** The variables of the script: the records logged so far and
    [is_collect_installed_list]. *)
Record state : Type := {
  log : list log_record;
  is_collect_installed_list : list (option bool)
}.

Definition info (st : state) (msg : string) : state :=
  {| log := log st ++ [(INFO, msg)];
     is_collect_installed_list := is_collect_installed_list st |}.

Definition warn (st : state) (msg : string) : state :=
  {| log := log st ++ [(WARNING, msg)];
     is_collect_installed_list := is_collect_installed_list st |}.

(** [is_collect_installed_list[idx] = b] *)
Definition mark (st : state) (idx : nat) (b : bool) : state :=
  {| log := log st;
     is_collect_installed_list := <[idx := Some b]> (is_collect_installed_list st) |}.

(** A run of the script either goes on with a new state or stops with an
    uncaught exception, in the state reached. *)
Abbreviation run := (result (exn * state)).

(** The first [try] of the loop body: only [ImportError] is handled. *)
Definition check_installed (env : environment) (st : state) (idx : nat)
  (name : string) : run state :=
  match import_module env name with
  | Ok _ => Ok (mark (info st ("--> " +:+ name +:+ " is installed.")) idx true)
  | Raise ImportError =>
      Ok (mark (warn st ("--> " +:+ name +:+ " is not installed.")) idx false)
  | Raise e => Raise (e, st)
  end.

Definition version_not_matched (st : state) (idx : nat) (name version : string)
  : state :=
  mark (warn st ("--> " +:+ name +:+ " version is not matched. please install "
                 +:+ name +:+ "==" +:+ version +:+ ".")) idx false.

(** The second [try] of the loop body, entered when a version is
    pinned: only [AssertionError] is handled. *)
Definition check_version (env : environment) (st : state) (idx : nat)
  (name version : string) : run state :=
  match import_module env name with
  | Ok lib =>
      match version_attr lib with
      | None => Raise (AttributeError, st)
      | Some v =>
          if String.eqb v version
          then Ok (mark (info st ("--> " +:+ name +:+ " version is matched."))
                     idx true)
          else Ok (version_not_matched st idx name version)
      end
  | Raise AssertionError => Ok (version_not_matched st idx name version)
  | Raise e => Raise (e, st)
  end.

(** One round of the availability loop. *)
Definition check_library (env : environment) (st : state)
  (lib : nat * (string * option string)) : run state :=
  let '(idx, (name, version)) := lib in
  st ← check_installed env st idx name;
  match version with
  | Some v => check_version env st idx name v
  | None => Ok st
  end.

(** [sum(is_collect_installed_list)]: [True] counts for 1, [False] for 0
    and [None] cannot be added. *)
Fixpoint sum (l : list (option bool)) : result exn nat :=
  match l with
  | [] => Ok O
  | Some b :: l' => n ← sum l'; Ok ((if b then 1 else 0) + n)%nat
  | None :: _ => Raise TypeError
  end.

Definition lift {A} (st : state) (m : result exn A) : run A :=
  match m with
  | Ok a => Ok a
  | Raise e => Raise (e, st)
  end.

(** [try: assert cond; logging.info(yes) except AssertionError:
    logging.warn(no_1); ...] *)
Definition check_assert (st : state) (cond : bool) (yes : string)
  (no : list string) : state :=
  if cond then info st yes else foldl warn st no.

(** The cuda availableness check of the [else] branch. *)
Definition check_cuda (env : environment) (st : state) : run state :=
  let st := info st "cuda availableness check start." in
  _ ← lift st (import_module env "chainer");
  _ ← lift st (import_module env "torch");
  let st := check_assert st (torch_cuda_is_available env)
              "--> cuda is available in torch."
              ["--> it seems that cuda is not available in torch."] in
  let st := check_assert st (torch_cudnn_is_available env)
              "--> cudnn is available in torch."
              ["--> it seems that cudnn is not available in torch."] in
  let st := check_assert st (chainer_cuda_available env)
              "--> cuda is available in chainer."
              ["--> it seems that cuda is not available in chainer."] in
  let st := check_assert st (chainer_cudnn_enabled env)
              "--> cudnn is available in chainer."
              ["--> it seems that cudnn is not available in chainer."] in
  st ← match import_module env "cupy.cuda.nccl" with
       | Ok _ => Ok (info st "--> nccl is installed.")
       | Raise ImportError =>
           Ok (foldl warn st
                 ["--> it seems that nccl is not installed. multi-gpu is not enabled.";
                  "--> if you want to use multi-gpu, please install it and then re-setup."])
       | Raise e => Raise (e, st)
       end;
  let st := check_assert st
              (bool_decide (1 < torch_cuda_device_count env)%nat)
              ("--> multi-gpu is available (#gpus = "
               +:+ pretty (torch_cuda_device_count env) +:+ ").")
              ["--> it seems that only single gpu is available.";
               "--> maybe your machine has only one gpu."] in
  Ok (info st "cuda availableness check done.").

(** The script, from the lines of the requirements file (what
    [f.readlines()] returns) to the state it ends in. *)
Definition check_install (env : environment) (lines : list string) : run state :=
  let st := {| log := []; is_collect_installed_list := [] |} in
  let st := info st ("python version = " +:+ sys_version env) in
  parsed ← lift st (comprehension parse_line lines);
  let library_list := parsed ++ MANUALLY_INSTALLED_LIBRARIES in
  let st := info st "library availableness check start." in
  let st := info st ("# libraries to be checked = "
                     +:+ pretty (length library_list)) in
  let st := {| log := log st;
               is_collect_installed_list := replicate (length library_list) None |} in
  st ← for_each (check_library env) st (enumerate library_list);
  let st := info st "library availableness check done." in
  n ← lift st (sum (is_collect_installed_list st));
  let st := info st (pretty n +:+ " / " +:+ pretty (length library_list)
                     +:+ " libraries are correctly installed.") in
  n' ← lift st (sum (is_collect_installed_list st));
  if decide (length library_list <> n')
  then Ok (info st "please try to setup again and then re-run this script.")
  else check_cuda env st.

End CheckInstall.

(** ** [espnet/nets/pytorch_backend/frontends/frontend.py] *)

Module Frontend.

(** The [ilens] argument: a LongTensor, a numpy array or a list of
    integers. *)
Inductive lengths : Type :=
| LongTensor (l : list Z)
| NdArray (l : list Z)
| PyList (l : list Z).

Definition values (ilens : lengths) : list Z :=
  match ilens with
  | LongTensor l | NdArray l | PyList l => l
  end.

Definition is_tensor (ilens : lengths) : bool :=
  match ilens with
  | LongTensor _ => true
  | _ => false
  end.

(** [torch.from_numpy(numpy.asarray(ilens)).to(x.device)] *)
Definition from_numpy (ilens : lengths) : lengths :=
  LongTensor (values ilens).

Section Forward.

(** Complex tensors, with their shape; floating-point numbers; the
    two stage modules of the sibling files [dnn_wpe.py] and
    [dnn_beamformer.py], their constructors and their [forward], which
    may raise an exception of its own. *)
Variable ComplexTensor : Type.
Variable shape : ComplexTensor -> list nat.
Variable float : Type.
Variables DNN_WPE_module DNN_MVDR_module StageError : Type.

Record wpe_options : Type := {
  wtype : string;
  widim : Z;
  wunits : Z;
  wprojs : Z;
  wlayers : Z;
  taps : Z;
  delay : Z;
  w_dropout_rate : float;
  iterations : Z;
  use_dnn_mask : bool
}.

Record beamformer_options : Type := {
  btype : string;
  bidim : Z;
  bunits : Z;
  bprojs : Z;
  blayers : Z;
  b_dropout_rate : float;
  badim : Z;
  ref_channel : option Z
}.

Variable DNN_WPE : wpe_options -> DNN_WPE_module.
Variable DNN_MVDR : beamformer_options -> DNN_MVDR_module.
Variable wpe_forward :
  DNN_WPE_module -> ComplexTensor -> lengths ->
  result StageError (ComplexTensor * lengths).
Variable beamformer_forward :
  DNN_MVDR_module -> ComplexTensor -> lengths ->
  result StageError (ComplexTensor * lengths).

(** What [forward] can raise. *)
Inductive error : Type :=
| LenOfZeroDim                    (* len() of a 0-d tensor: TypeError *)
| LengthMismatch (n m : nat)      (* the assert on len(x) and len(ilens) *)
| InputDim (d : nat)              (* ValueError: Input dim must be 3 or 4 *)
| NotCallable                     (* calling a stage that is None *)
| Stage (e : StageError).         (* raised inside a stage *)

(** The attributes of a [Frontend]; [training] is the flag that
    [train()] and [eval()] of [nn.Module] set. *)
Record Frontend : Type := {
  use_beamformer : bool;
  use_wpe : bool;
  use_dnn_mask_for_wpe : bool;
  wpe : option DNN_WPE_module;
  beamformer : option DNN_MVDR_module;
  training : bool
}.

(** [Frontend.__init__]; a new module is in training mode. *)
Definition init (idim : Z)
  (use_wpe_ : bool) (wtype_ : string) (wlayers_ wunits_ wprojs_ : Z)
  (wdropout_rate : float) (taps_ delay_ : Z) (use_dnn_mask_for_wpe_ : bool)
  (use_beamformer_ : bool) (btype_ : string) (blayers_ bunits_ bprojs_ badim_ : Z)
  (ref_channel_ : option Z) (bdropout_rate : float) : Frontend :=
  {| use_beamformer := use_beamformer_;
     use_wpe := use_wpe_;
     use_dnn_mask_for_wpe := use_dnn_mask_for_wpe_;
     wpe :=
       if use_wpe_ then
         let iterations_ := if use_dnn_mask_for_wpe_ then 1 else 2 in
         Some (DNN_WPE {| wtype := wtype_; widim := idim; wunits := wunits_;
                          wprojs := wprojs_; wlayers := wlayers_;
                          taps := taps_; delay := delay_;
                          w_dropout_rate := wdropout_rate;
                          iterations := iterations_;
                          use_dnn_mask := use_dnn_mask_for_wpe_ |})
       else None;
     beamformer :=
       if use_beamformer_ then
         Some (DNN_MVDR {| btype := btype_; bidim := idim; bunits := bunits_;
                           bprojs := bprojs_; blayers := blayers_;
                           b_dropout_rate := bdropout_rate; badim := badim_;
                           ref_channel := ref_channel_ |})
       else None;
     training := true |}.

(** [self.train(mode)] *)
Definition train (self : Frontend) (mode : bool) : Frontend :=
  {| use_beamformer := use_beamformer self;
     use_wpe := use_wpe self;
     use_dnn_mask_for_wpe := use_dnn_mask_for_wpe self;
     wpe := wpe self;
     beamformer := beamformer self;
     training := mode |}.

(** [x.dim()] *)
Definition dim (x : ComplexTensor) : nat := length (shape x).

(** [len(x)] *)
Definition len (x : ComplexTensor) : result error nat :=
  match shape x with
  | [] => Raise LenOfZeroDim
  | n :: _ => Ok n
  end.

(** [numpy.random.shuffle] on a list of two elements: they are
    exchanged or not, according to the draw of the generator. *)
Definition shuffle {A} (swapped : bool) (l : list A) : list A :=
  match l with
  | [a; b] => if swapped then [b; a] else [a; b]
  | _ => l
  end.

(** [self.wpe(h, ilens)] and [self.beamformer(h, ilens)] *)
Definition call_wpe (self : Frontend) (h : ComplexTensor) (ilens : lengths)
  : result error (ComplexTensor * lengths) :=
  match wpe self with
  | None => Raise NotCallable
  | Some m =>
      match wpe_forward m h ilens with
      | Ok r => Ok r
      | Raise e => Raise (Stage e)
      end
  end.

Definition call_beamformer (self : Frontend) (h : ComplexTensor)
  (ilens : lengths) : result error (ComplexTensor * lengths) :=
  match beamformer self with
  | None => Raise NotCallable
  | Some m =>
      match beamformer_forward m h ilens with
      | Ok r => Ok r
      | Raise e => Raise (Stage e)
      end
  end.

(** [Frontend.forward(x, ilens)]; [swapped] is the draw that
    [numpy.random.shuffle] uses when it is called. *)
Definition forward (self : Frontend) (swapped : bool) (x : ComplexTensor)
  (ilens : lengths) : result error (ComplexTensor * lengths) :=
  n ← len x;
  if negb (n =? length (values ilens))%nat
  then Raise (LengthMismatch n (length (values ilens))) else
  if negb ((dim x =? 3)%nat || (dim x =? 4)%nat)
  then Raise (InputDim (dim x)) else
  let ilens := if is_tensor ilens then ilens else from_numpy ilens in
  let h := x in
  if (dim h =? 4)%nat then
    let '(use_wpe_, use_beamformer_) :=
      if training self && use_beamformer self
         && use_wpe self && use_dnn_mask_for_wpe self
      then
        match shuffle swapped [true; false] with
        | [a; b] => (a, b)
        | _ => (false, false)
        end
      else (use_wpe self, use_beamformer self) in
    '(h, ilens) ← (if use_wpe_ : bool then call_wpe self h ilens
                   else Ok (h, ilens));
    '(h, ilens) ← (if use_beamformer_ : bool then call_beamformer self h ilens
                   else Ok (h, ilens));
    Ok (h, ilens)
  else Ok (h, ilens).

End Forward.

Arguments use_beamformer {DNN_WPE_module DNN_MVDR_module} f.
Arguments use_wpe {DNN_WPE_module DNN_MVDR_module} f.
Arguments use_dnn_mask_for_wpe {DNN_WPE_module DNN_MVDR_module} f.
Arguments wpe {DNN_WPE_module DNN_MVDR_module} f.
Arguments beamformer {DNN_WPE_module DNN_MVDR_module} f.
Arguments training {DNN_WPE_module DNN_MVDR_module} f.
Arguments train {DNN_WPE_module DNN_MVDR_module} self mode.
Arguments LenOfZeroDim {StageError}.
Arguments LengthMismatch {StageError} n m.
Arguments InputDim {StageError} d.
Arguments NotCallable {StageError}.
Arguments Stage {StageError} e.
Arguments dim {ComplexTensor} shape x.
Arguments len {ComplexTensor} shape {StageError} x.
Arguments call_wpe {ComplexTensor DNN_WPE_module DNN_MVDR_module StageError}
  wpe_forward self h ilens.
Arguments call_beamformer {ComplexTensor DNN_WPE_module DNN_MVDR_module StageError}
  beamformer_forward self h ilens.
Arguments forward {ComplexTensor} shape {DNN_WPE_module DNN_MVDR_module StageError}
  wpe_forward beamformer_forward self swapped x ilens.

End Frontend.

(** ** [espnet2/gan_tts/vits/residual_block.py] *)

Module ResidualBlock.

(** A [torch.nn.Conv1d] (stride 1, one group): its hyper-parameters and
    its weights, of a type [W] that the tensor framework fixes. *)
Record Conv1d (W : Type) : Type := {
  in_channels : Z;
  out_channels : Z;
  kernel_size : Z;
  padding : Z;
  dilation : Z;
  bias : bool;
  weight : W
}.
Arguments in_channels {W} _.
Arguments out_channels {W} _.
Arguments kernel_size {W} _.
Arguments padding {W} _.
Arguments dilation {W} _.
Arguments bias {W} _.
Arguments weight {W} _.

(** [Conv1d1x1(in_channels, out_channels, bias)] *)
Definition Conv1d1x1 {W} (in_channels_ out_channels_ : Z) (bias_ : bool)
  (w : W) : Conv1d W :=
  {| in_channels := in_channels_; out_channels := out_channels_;
     kernel_size := 1; padding := 0; dilation := 1; bias := bias_;
     weight := w |}.

(** The operations of the tensor framework that [forward] calls, on
    tensors [T] and floating-point scalars [S]; the ones that check
    shapes may raise. *)
Class Torch (T S W : Type) : Type := {
  (* F.dropout(x, p, training), for the draw the instance stands for *)
  F_dropout : T -> S -> bool -> T;
  (* conv(x) *)
  conv_forward : Conv1d W -> T -> result exn T;
  (* x.size(dim) *)
  size : T -> nat -> result exn Z;
  (* x.split(n, dim) *)
  tensor_split : T -> Z -> nat -> result exn (list T);
  (* x + y and x * y, with broadcasting *)
  add : T -> T -> result exn T;
  mul : T -> T -> result exn T;
  tanh : T -> T;
  sigmoid : T -> T;
  (* x * s for a Python float s *)
  mul_scalar : T -> S -> T;
  (* math.sqrt(0.5) *)
  sqrt_half : S;
  (* p == 0.0 *)
  is_zero : S -> bool;
  (* outside training mode, and for the rate 0, dropout returns its input *)
  F_dropout_id :
    forall x p training_,
      training_ = false \/ is_zero p = true -> F_dropout x p training_ = x
}.

Section Block.

Context {T S W : Type} `{Torch T S W}.

(** The attributes of a [WaveNetResidualBlock]; [conv1x1_skip] is only
    set when [skip_channels > 0]. *)
Record WaveNetResidualBlock : Type := {
  dropout_rate : S;
  skip_channels : Z;
  use_causal_conv : bool;
  conv : Conv1d W;
  conv1x1_aux : option (Conv1d W);
  conv1x1_glo : option (Conv1d W);
  conv1x1_out : Conv1d W;
  conv1x1_skip : option (Conv1d W);
  training : bool
}.

(** [WaveNetResidualBlock.__init__]; the weights that the layers are
    initialised with are given by [w_conv] ... [w_skip].  A new module
    is in training mode. *)
Definition init (kernel_size_ residual_channels gate_channels
  skip_channels_ aux_channels global_channels : Z) (dropout_rate_ : S)
  (dilation_ : Z) (bias_ : bool) (use_causal_conv_ : bool)
  (w_conv w_aux w_glo w_out w_skip : W)
  : result exn WaveNetResidualBlock :=
  padding_ ←
    (if use_causal_conv_
     then Ok ((kernel_size_ - 1) * dilation_)
     else if ((kernel_size_ - 1) `mod` 2 =? 0)%Z
          then Ok ((kernel_size_ - 1) `div` 2 * dilation_)
          else Raise AssertionError);
  let gate_out_channels := gate_channels `div` 2 in
  Ok {| dropout_rate := dropout_rate_;
        skip_channels := skip_channels_;
        use_causal_conv := use_causal_conv_;
        conv := {| in_channels := residual_channels;
                   out_channels := gate_channels;
                   kernel_size := kernel_size_;
                   padding := padding_;
                   dilation := dilation_;
                   bias := bias_;
                   weight := w_conv |};
        conv1x1_aux :=
          if (0 <? aux_channels)%Z
          then Some (Conv1d1x1 aux_channels gate_channels false w_aux)
          else None;
        conv1x1_glo :=
          if (0 <? global_channels)%Z
          then Some (Conv1d1x1 global_channels gate_channels false w_glo)
          else None;
        conv1x1_out := Conv1d1x1 gate_out_channels residual_channels bias_ w_out;
        conv1x1_skip :=
          if (0 <? skip_channels_)%Z
          then Some (Conv1d1x1 gate_out_channels skip_channels_ bias_ w_skip)
          else None;
        training := true |}.

(** [self.eval()] *)
Definition eval (self : WaveNetResidualBlock) : WaveNetResidualBlock :=
  {| dropout_rate := dropout_rate self;
     skip_channels := skip_channels self;
     use_causal_conv := use_causal_conv self;
     conv := conv self;
     conv1x1_aux := conv1x1_aux self;
     conv1x1_glo := conv1x1_glo self;
     conv1x1_out := conv1x1_out self;
     conv1x1_skip := conv1x1_skip self;
     training := false |}.

(** [a, b = l] *)
Definition unpack2 (l : list T) : result exn (T * T) :=
  match l with
  | [a; b] => Ok (a, b)
  | _ => Raise ValueError
  end.

(** [x.split(x.size(splitdim) // 2, dim=splitdim)] with [splitdim = 1],
    unpacked into two tensors. *)
Definition halves (x : T) : result exn (T * T) :=
  n ← size x 1;
  l ← tensor_split x (n `div` 2) 1;
  unpack2 l.

(** Calling a layer that may be [None] or unset. *)
Definition call (missing : exn) (layer : option (Conv1d W)) (x : T)
  : result exn T :=
  match layer with
  | Some m => conv_forward m x
  | None => Raise missing
  end.

(** One conditioning step: [if c is not None: c = layer(c); ca, cb =
    c.split(...); xa, xb = xa + ca, xb + cb]. *)
Definition conditioning (layer : option (Conv1d W)) (c : option T)
  (xab : T * T) : result exn (T * T) :=
  match c with
  | None => Ok xab
  | Some c =>
      c ← call TypeError layer c;
      '(ca, cb) ← halves c;
      xa ← add xab.1 ca;
      xb ← add xab.2 cb;
      Ok (xa, xb)
  end.

(** The skip connection: [s = None; if self.skip_channels > 0: s =
    self.conv1x1_skip(x)]. *)
Definition skip_connection (self : WaveNetResidualBlock) (x : T)
  : result exn (option T) :=
  if (0 <? skip_channels self)%Z
  then s ← call AttributeError (conv1x1_skip self) x; Ok (Some s)
  else Ok None.

(** [WaveNetResidualBlock.forward(x, c, g)] *)
Definition forward (self : WaveNetResidualBlock) (x : T) (c g : option T)
  : result exn (T * option T) :=
  let residual := x in
  let x := F_dropout x (dropout_rate self) (training self) in
  x ← conv_forward (conv self) x;
  xab ← halves x;
  xab ← conditioning (conv1x1_aux self) c xab;
  xab ← conditioning (conv1x1_glo self) g xab;
  x ← mul (tanh xab.1) (sigmoid xab.2);
  s ← skip_connection self x;
  o ← conv_forward (conv1x1_out self) x;
  r ← add o residual;
  Ok (mul_scalar r sqrt_half, s).

(** The gated activation unit as the specification words it: the
    dilated convolution of [u], split channel-wise into two halves;
    the projected local and global conditioning, when given, split
    likewise and added half to half; the tanh gate times the sigmoid
    gate. *)
Definition gated_activation_spec (self : WaveNetResidualBlock) (u : T)
  (c g : option T) : result exn T :=
  y ← conv_forward (conv self) u;
  '(xa, xb) ← halves y;
  '(xa, xb) ←
    match c with
    | Some c =>
        pc ← call TypeError (conv1x1_aux self) c;
        '(ca, cb) ← halves pc;
        xa' ← add xa ca; xb' ← add xb cb; Ok (xa', xb')
    | None => Ok (xa, xb)
    end;
  '(xa, xb) ←
    match g with
    | Some g =>
        pg ← call TypeError (conv1x1_glo self) g;
        '(ga, gb) ← halves pg;
        xa' ← add xa ga; xb' ← add xb gb; Ok (xa', xb')
    | None => Ok (xa, xb)
    end;
  mul (tanh xa) (sigmoid xb).

(** The block as the specification words it, on the convolution input
    [u] and the residual input [x]: the residual output is
    [(conv1x1_out(gated) + x) * sqrt(0.5)]; the skip output is the
    projection of the gated value when [skip_channels > 0]. *)
Definition residual_block_spec (self : WaveNetResidualBlock) (u x : T)
  (c g : option T) : result exn (T * option T) :=
  z ← gated_activation_spec self u c g;
  s ← skip_connection self z;
  o ← conv_forward (conv1x1_out self) z;
  r ← add o x;
  Ok (mul_scalar r sqrt_half, s).

End Block.

Arguments WaveNetResidualBlock S W : clear implicits.
Arguments dropout_rate {S W} w.
Arguments skip_channels {S W} w.
Arguments use_causal_conv {S W} w.
Arguments conv {S W} w.
Arguments conv1x1_aux {S W} w.
Arguments conv1x1_glo {S W} w.
Arguments conv1x1_out {S W} w.
Arguments conv1x1_skip {S W} w.
Arguments training {S W} w.

Section HiFiGAN.

Context {T S W : Type} `{Torch T S W}.

(** A [torch.nn.Sequential] of an activation module and a convolution. *)
Record activated_conv : Type := {
  activation : T -> T;
  layer : Conv1d W
}.

(** The attributes of a [HiFiGANResidualBlock]; [convs2] is only set with
    [use_additional_convs]. *)
Record HiFiGANResidualBlock : Type := {
  use_additional_convs : bool;
  convs1 : list activated_conv;
  convs2 : option (list activated_conv)
}.

(** [HiFiGANResidualBlock.__init__]; [nonlinear_activation] is the module
    that [getattr(torch.nn, nonlinear_activation)] builds from
    [nonlinear_activation_params], and [w1 idx] and [w2 idx] are the
    weights that the convolutions of position [idx] are initialised
    with. *)
Definition hifigan_init (kernel_size_ channels : Z) (dilations : list Z)
  (bias_ : bool) (use_additional_convs_ : bool)
  (nonlinear_activation : T -> T) (w1 w2 : nat -> W)
  : result exn HiFiGANResidualBlock :=
  if negb (kernel_size_ `mod` 2 =? 1)%Z then Raise AssertionError else
  Ok {| use_additional_convs := use_additional_convs_;
        convs1 :=
          imap (fun idx dilation_ =>
                  {| activation := nonlinear_activation;
                     layer := {| in_channels := channels;
                                 out_channels := channels;
                                 kernel_size := kernel_size_;
                                 padding := (kernel_size_ - 1) `div` 2 * dilation_;
                                 dilation := dilation_;
                                 bias := bias_;
                                 weight := w1 idx |} |}) dilations;
        convs2 :=
          if use_additional_convs_
          then Some (imap (fun idx (_ : Z) =>
                             {| activation := nonlinear_activation;
                                layer := {| in_channels := channels;
                                            out_channels := channels;
                                            kernel_size := kernel_size_;
                                            padding := (kernel_size_ - 1) `div` 2;
                                            dilation := 1;
                                            bias := bias_;
                                            weight := w2 idx |} |}) dilations)
          else None |}.

(** [seq(x)] for a [Sequential] of an activation and a convolution. *)
Definition activated_forward (m : activated_conv) (x : T) : result exn T :=
  conv_forward (layer m) (activation m x).

(** The body of the loop of [HiFiGANResidualBlock.forward]. *)
Definition hifigan_layer (self : HiFiGANResidualBlock) (x : T) (idx : nat)
  : result exn T :=
  m1 ← getitem (convs1 self) idx;
  xt ← activated_forward m1 x;
  xt ← (if use_additional_convs self
        then
          ms ← (match convs2 self with
                | Some ms => Ok ms
                | None => Raise AttributeError
                end);
          m2 ← getitem ms idx;
          activated_forward m2 xt
        else Ok xt);
  add xt x.

(** [HiFiGANResidualBlock.forward(x)] *)
Definition hifigan_forward (self : HiFiGANResidualBlock) (x : T)
  : result exn T :=
  for_each (hifigan_layer self) x (seq 0 (length (convs1 self))).

End HiFiGAN.

Arguments activated_conv T W : clear implicits.
Arguments HiFiGANResidualBlock T W : clear implicits.
Arguments activation {T W} a.
Arguments layer {T W} a.
Arguments use_additional_convs {T W} h.
Arguments convs1 {T W} h.
Arguments convs2 {T W} h.

End ResidualBlock.

(** *** Two interpretations of the tensor framework *)

(** Tensors seen through their shape only, with the shape rules that the
    framework documents: what a stride-1 convolution, [split] and a
    broadcasting operation do to shapes, and when they reject them. *)
Module Shapes.

Import ResidualBlock.

Definition conv_shape (c : Conv1d unit) (x : list nat) : result exn (list nat) :=
  match x with
  | [b; ch; l] =>
      let l_out :=
        Z.of_nat l + 2 * padding c - dilation c * (kernel_size c - 1) in
      if (Z.of_nat ch =? in_channels c)%Z && (0 <? out_channels c)%Z
         && (0 <? kernel_size c)%Z && (0 <=? padding c)%Z && (0 <? dilation c)%Z
         && (0 <? l_out)%Z
      then Ok [b; Z.to_nat (out_channels c); Z.to_nat l_out]
      else Raise RuntimeError
  | _ => Raise RuntimeError
  end.

(** Broadcasting of two shapes given from their last dimension on. *)
Fixpoint broadcast_rev (a b : list nat) : result exn (list nat) :=
  match a, b with
  | [], l | l, [] => Ok l
  | m :: a', n :: b' =>
      r ← broadcast_rev a' b';
      if (m =? n)%nat then Ok (m :: r)
      else if (m =? 1)%nat then Ok (n :: r)
      else if (n =? 1)%nat then Ok (m :: r)
      else Raise RuntimeError
  end.

Definition broadcast (a b : list nat) : result exn (list nat) :=
  r ← broadcast_rev (rev a) (rev b);
  Ok (rev r).

(** The sizes of the chunks of a dimension of size [d] cut every [n]. *)
Fixpoint chunk_sizes (fuel d n : nat) : list nat :=
  match fuel with
  | O => []
  | S fuel' =>
      if (d <=? n)%nat then [d] else n :: chunk_sizes fuel' (d - n) n
  end.

Definition split_shape (x : list nat) (n : Z) (dim : nat)
  : result exn (list (list nat)) :=
  match x !! dim with
  | None => Raise IndexError
  | Some d =>
      if (n <? 0)%Z then Raise RuntimeError
      else if (n =? 0)%Z
           then (if (d =? 0)%nat then Ok [x] else Raise RuntimeError)
           else Ok ((fun k => <[dim := k]> x)
                      <$> chunk_sizes (S d) d (Z.to_nat n))
  end.

#[export] Program Instance torch : Torch (list nat) unit unit := {|
  F_dropout x _ _ := x;
  conv_forward := conv_shape;
  size x dim := n ← getitem x dim; Ok (Z.of_nat n);
  tensor_split := split_shape;
  add := broadcast;
  mul := broadcast;
  tanh x := x;
  sigmoid x := x;
  mul_scalar x _ := x;
  sqrt_half := tt;
  is_zero _ := true
|}.

End Shapes.

(** Real-valued tensors of shape (1, C, 1), given by their C channel
    values, with the exact real functions in place of the floating-point
    ones.  A convolution is interpreted when it keeps the length ([2 *
    padding = dilation * (kernel_size - 1)]): its single output frame then
    only sees the centre taps, so the weights are those taps, one row per
    output channel, and the bias vector. *)
Module Pointwise.

Import ResidualBlock.

Definition weights : Type := list (list R) * list R.

Definition dot (r x : list R) : R := foldr Rplus 0%R (zip_with Rmult r x).

Definition conv_point (c : Conv1d weights) (x : list R) : result exn (list R) :=
  if (Z.of_nat (length x) =? in_channels c)%Z
     && (2 * padding c =? dilation c * (kernel_size c - 1))%Z
  then Ok (zip_with (fun r b => (dot r x + (if bias c then b else 0))%R)
             (weight c).1 (weight c).2)
  else Raise RuntimeError.

Fixpoint chunks (fuel n : nat) (x : list R) : list (list R) :=
  match fuel with
  | O => []
  | S fuel' =>
      if (length x <=? n)%nat then [x]
      else take n x :: chunks fuel' n (drop n x)
  end.

Definition split_point (x : list R) (n : Z) (dim : nat)
  : result exn (list (list R)) :=
  match dim with
  | 1%nat =>
      if (n <? 0)%Z then Raise RuntimeError
      else if (n =? 0)%Z
           then (if (length x =? 0)%nat then Ok [x] else Raise RuntimeError)
           else Ok (chunks (S (length x)) (Z.to_nat n) x)
  | _ => Raise RuntimeError
  end.

Definition pointwise (f : R -> R -> R) (x y : list R) : result exn (list R) :=
  if (length x =? length y)%nat then Ok (zip_with f x y)
  else match x, y with
       | [a], _ => Ok (f a <$> y)
       | _, [b] => Ok ((fun a => f a b) <$> x)
       | _, _ => Raise RuntimeError
       end.

Definition sigmoid_R (a : R) : R := (1 / (1 + exp (- a)))%R.

(** Dropout for the draw in which every element is dropped. *)
Definition dropout_all (x : list R) (p : R) (training_ : bool) : list R :=
  if training_
  then (if Rlt_dec 0 p then (fun _ => 0%R) <$> x else x)
  else x.

#[export] Program Instance torch : Torch (list R) R weights := {|
  F_dropout := dropout_all;
  conv_forward := conv_point;
  size x dim :=
    match dim with
    | 1%nat => Ok (Z.of_nat (length x))
    | 0%nat | 2%nat => Ok 1
    | _ => Raise IndexError
    end;
  tensor_split := split_point;
  add := pointwise Rplus;
  mul := pointwise Rmult;
  tanh x := Rtrigo_def.tanh <$> x;
  sigmoid x := sigmoid_R <$> x;
  mul_scalar x s := (fun a => (a * s)%R) <$> x;
  sqrt_half := sqrt (1 / 2);
  is_zero p := if Req_dec_T p 0 then true else false
|}.
Next Obligation.
  destruct H as [-> | Hp]; [reflexivity|].
  unfold dropout_all. destruct training_; [|reflexivity].
  destruct (Req_dec_T p 0) as [-> |]; [|discriminate].
  destruct (Rlt_dec 0 0) as [Hlt|]; [|reflexivity].
  by apply Rlt_irrefl in Hlt.
Qed.

End Pointwise.

(** ** Vocabulary of the properties of [make_batchset] *)

Module BatchSpec.

Import AsrUtils.

(** An utterance whose input and output lengths can be read. *)
Definition has_lengths (x : item) : Prop :=
  exists ilen olen, ilen_of x = Ok ilen /\ olen_of x = Ok olen.

(** An utterance whose lengths are below [2^53], the integers among
    which the division of floats is exact. *)
Definition short (x : item) : Prop :=
  forall k, ilen_of x = Ok k \/ olen_of x = Ok k -> k < 2 ^ 53.

(** [x] has an input at least as long as the one of [y]. *)
Definition ilen_ge (x y : item) : Prop :=
  exists kx ky, ilen_of x = Ok kx /\ ilen_of y = Ok ky /\ ky <= kx.


End BatchSpec.

(** ** Vocabulary of the properties of [load_inputs_and_targets] *)

Module LoadSpec.

Import AsrUtils.

Section Loadable.

Variables Row Vec : Type.
Variable read_mat : string -> result exn (list Row).
Variable read_vec_flt : string -> result exn Vec.

(** A sample that can be loaded: its feature matrix can be read, its
    token ids are integers that fit [np.int64], and its speaker embedding
    can be read when it is asked for. *)
Definition loadable (use_speaker_embedding : bool) (b : element) : Prop :=
  (exists f x, input_feat 0 b = Ok f /\ read_mat f = Ok x)
  /\ (exists tokens ids, output_tokens b = Ok tokens /\ token_ids tokens = Ok ids)
  /\ (use_speaker_embedding = true ->
      exists f v, input_feat 1 b = Ok f /\ read_vec_flt f = Ok v).

(** The positions of [batch] whose sample has at least one token, given
    the token lists [ys] of all samples. *)
Definition nonzero (ys : list (list string)) (i : nat) : bool :=
  match ys !! i with
  | Some y => bool_decide (0 < length y)%nat
  | None => false
  end.

(** [picked idx all_ out]: [out] lists the entries of [all_] at the
    positions [idx], in that order. *)
Definition picked {A} (idx : list nat) (all_ out : list A) : Prop :=
  Forall2 (fun i x => all_ !! i = Some x) idx out.

End Loadable.

Arguments loadable {Row Vec} read_mat read_vec_flt use_speaker_embedding b.

End LoadSpec.

(** ** Sample inputs *)

Module Samples.

Import AsrUtils.

(** An utterance of data.json with one input and one output. *)
Definition utterance (name path : string) (frames dims : N) (ids : string)
  (tokens vocabulary : N) : item :=
  (name,
   {| input := [{| feat := Some path; shape := Some [frames; dims];
                   tokenid := None |}];
      output := [{| feat := None; shape := Some [tokens; vocabulary];
                    tokenid := Some ids |}] |}).

Definition utt1 : item := utterance "utt1" "feats.ark:11" 1000 83 "5 7 9" 3 52.
Definition utt2 : item := utterance "utt2" "feats.ark:22" 300 83 "4 2" 2 52.
Definition utt3 : item := utterance "utt3" "feats.ark:33" 1700 83 "8 8 1 3" 4 52.

Definition data : list item := [utt1; utt2; utt3].



(** A feature archive with three matrices of one column, of 2, 5 and 3
    frames; reading anything else fails. *)
Definition read_mat (path : string) : result exn (list (list Z)) :=
  if String.eqb path "feats.ark:a" then Ok [[11]; [12]]
  else if String.eqb path "feats.ark:b" then Ok [[21]; [22]; [23]; [24]; [25]]
  else if String.eqb path "feats.ark:c" then Ok [[31]; [32]; [33]]
  else Raise KeyError.

(** No speaker embedding can be read. *)
Definition read_vec_flt (path : string) : result exn (list Z) := Raise KeyError.

(** A batch of three dictionaries; the second sample has no token. *)
Definition batch : list element :=
  [Dict {[1 := (utterance "a" "feats.ark:a" 2 1 "5 7" 2 52).2]};
   Dict {[1 := (utterance "b" "feats.ark:b" 5 1 "" 0 52).2]};
   Dict {[1 := (utterance "c" "feats.ark:c" 3 1 "4" 1 52).2]}].

(** An interpreter in which every module but [foo] can be imported, at
    version 1.0, and without accelerator. *)
Definition env : CheckInstall.environment :=
  {| CheckInstall.sys_version := "3.7.3";
     CheckInstall.import_module name :=
       if String.eqb name "foo" then Raise ImportError
       else Ok {| CheckInstall.version_attr := Some "1.0" |};
     CheckInstall.torch_cuda_is_available := false;
     CheckInstall.torch_cudnn_is_available := false;
     CheckInstall.chainer_cuda_available := false;
     CheckInstall.chainer_cudnn_enabled := false;
     CheckInstall.torch_cuda_device_count := 0 |}.

(** A frontend on tensors that are given by their shape: dereverberation
    keeps the shape (B, T, C, F) and beamforming removes the channels. *)
Definition wpe_forward (_ : unit) (h : list nat) (ilens : Frontend.lengths)
  : result unit (list nat * Frontend.lengths) :=
  match h with
  | [_; _; _; _] => Ok (h, ilens)
  | _ => Raise tt
  end.

Definition beamformer_forward (_ : unit) (h : list nat) (ilens : Frontend.lengths)
  : result unit (list nat * Frontend.lengths) :=
  match h with
  | [b; t; _; f] => Ok ([b; t; f], ilens)
  | _ => Raise tt
  end.

(** The same stages on tensors that are given by their shape and by the
    list of the stages that they went through. *)
Definition traced : Type := list nat * list string.

Definition traced_wpe_forward (_ : unit) (h : traced)
  (ilens : Frontend.lengths) : result unit (traced * Frontend.lengths) :=
  match h.1 with
  | [_; _; _; _] => Ok ((h.1, h.2 ++ ["wpe"]), ilens)
  | _ => Raise tt
  end.

Definition traced_beamformer_forward (_ : unit) (h : traced)
  (ilens : Frontend.lengths) : result unit (traced * Frontend.lengths) :=
  match h.1 with
  | [b; t; _; f] => Ok (([b; t; f], h.2 ++ ["beamformer"]), ilens)
  | _ => Raise tt
  end.

(** [Frontend(idim=257, use_wpe=True, use_beamformer=True)], the other
    options at their default value. *)
Definition frontend : Frontend.Frontend unit unit :=
  Frontend.init unit unit unit (fun _ => tt) (fun _ => tt)
    257 true "blstmp" 3 300 320 tt 5 3 true
    true "blstmp" 3 300 320 320 None tt.

(** [WaveNetResidualBlock(residual_channels=1, gate_channels=2,
    skip_channels=1, aux_channels=-1, dropout_rate=0.5)] on real-valued
    tensors of shape (1, C, 1): the centre taps of the dilated convolution
    are 1 and 0, those of the two output projections are 1, and the biases
    are 0 as [reset_parameters] leaves them. *)
Definition gated_block
  : result exn (ResidualBlock.WaveNetResidualBlock R Pointwise.weights) :=
  ResidualBlock.init 3 1 2 1 (-1) (-1) (1 / 2)%R 1 true false
    ([[1%R]; [0%R]], [0%R; 0%R]) ([], []) ([], [])
    ([[1%R]], [0%R]) ([[1%R]], [0%R]).

(** [WaveNetResidualBlock(use_causal_conv=True)] and
    [WaveNetResidualBlock()], the other options at their default value, on
    tensors given by their shape. *)
Definition causal_block : result exn (ResidualBlock.WaveNetResidualBlock unit unit) :=
  ResidualBlock.init 3 64 128 64 80 (-1) tt 1 true true tt tt tt tt tt.

Definition default_block : result exn (ResidualBlock.WaveNetResidualBlock unit unit) :=
  ResidualBlock.init 3 64 128 64 80 (-1) tt 1 true false tt tt tt tt tt.

(** Integer values in place of floats: the mean of a summary, rounded
    down, and the comparison that tells that the value has dropped. *)
Definition mean (l : list Z) : Z := foldr Z.add 0 l `div` Z.of_nat (length l).

Definition dropped (best_value current_value : Z) : bool :=
  (current_value <? best_value)%Z.

(** Two groups of parameters of a pytorch optimizer, and a third one
    without [eps]. *)
Definition group1 : gmap string Z := <["eps" := 8]> {["rho" := 95]}.
Definition group2 : gmap string Z := <["eps" := 4]> {["rho" := 90]}.
Definition group3 : gmap string Z := {["rho" := 90]}.

(** [HiFiGANResidualBlock(channels=512)] with the default kernel size 3 and
    dilations [1, 3, 5], on tensors given by their shape. *)
Definition hifigan_block
  : result exn (ResidualBlock.HiFiGANResidualBlock (list nat) unit) :=
  ResidualBlock.hifigan_init 3 512 [1; 3; 5] true true (fun x => x)
    (fun _ => tt) (fun _ => tt).

End Samples.

(** * Properties *)

(** ** The error monad *)

Lemma bind_Ok {E A B} (m : result E A) (k : A -> result E B) (b : B) :
  m ≫= k = Ok b -> exists a, m = Ok a /\ k a = Ok b.
Proof. destruct m as [a|e]; [eauto | discriminate]. Qed.

(** Inversion of a chain of binds that ends in [Ok]. *)
Ltac inv_bind H :=
  repeat match type of H with
    | _ ≫= _ = Ok _ =>
        let a := fresh "a" in
        let Ha := fresh "Ha" in
        apply bind_Ok in H as (a & Ha & H)
    end.

(** The same for every such chain among the hypotheses. *)
Ltac inv_binds :=
  repeat match goal with
    | H : _ ≫= _ = Ok _ |- _ =>
        let a := fresh "a" in
        let Ha := fresh "Ha" in
        apply bind_Ok in H as (a & Ha & H)
    end.

Lemma Ok_inj {E A} (a b : A) : @Ok E A a = Ok b -> a = b.
Proof. by injection 1. Qed.

(** Inversion of the binds and of the equations between results. *)
Ltac inv_res :=
  inv_binds;
  repeat match goal with
    | H : Ok _ = Ok _ |- _ => apply Ok_inj in H
    | H : Raise _ = Ok _ |- _ => discriminate H
    | H : (_, _) = (_, _) |- _ => injection H as ? ?
    end;
  subst.

(** ** Division: [int(a / b)] *)

Section Division.

Lemma round_half_even_bounds (n d : Z) :
  0 < d -> 2 * n - d <= 2 * d * round_half_even n d <= 2 * n + d.
Proof.
  intros Hd. unfold round_half_even.
  pose proof (Z.div_mod n d) as Hn. pose proof (Z.mod_pos_bound n d Hd) as Hr.
  set (q := n `div` d) in *. set (r := n `mod` d) in *.
  destruct (2 * r <? d)%Z eqn:H1; [lia|].
  destruct (d <? 2 * r)%Z eqn:H2; [lia|].
  destruct (Z.even q); lia.
Qed.

(** Rounding a quotient scaled by [K] and cutting the [K] off again gives
    the integer quotient, when the scaled quotient has enough digits. *)
Lemma trunc_round (a b K : Z) :
  0 <= a -> 0 < b -> 0 < K -> b < 2 * K ->
  round_half_even (a * K) b `div` K = a `div` b.
Proof.
  intros Ha Hb HK HbK.
  pose proof (round_half_even_bounds (a * K) b Hb) as Hm.
  set (m := round_half_even (a * K) b) in *.
  pose proof (Z.div_mod a b) as Hn. pose proof (Z.mod_pos_bound a b Hb) as Hr.
  set (q := a `div` b) in *. set (r := a `mod` b) in *.
  assert (Hlo : q * K <= m).
  { apply Z.lt_succ_r. apply (Z.mul_lt_mono_pos_l (2 * b)); [lia|]. nia. }
  assert (Hhi : m < (q + 1) * K).
  { apply (Z.mul_lt_mono_pos_l (2 * b)); [lia|].
    assert (r * K <= (b - 1) * K) by nia. nia. }
  symmetry. apply (Z.div_unique m K q (m - K * q)); lia.
Qed.

Lemma float_exponent_ge (a b : Z) :
  0 < b -> b <= a -> a < 2 ^ 53 ->
  0 <= float_exponent a b <= 52
  /\ b < 2 * 2 ^ (52 - float_exponent a b).
Proof.
  intros Hb Hba Ha. unfold float_exponent.
  replace (b <=? a)%Z with true by lia.
  assert (Hq : 1 <= a `div` b) by (apply Z.div_le_lower_bound; lia).
  assert (Hq' : a `div` b < 2 ^ 53).
  { apply Z.le_lt_trans with a; [|done]. apply Z.div_le_upper_bound; nia. }
  pose proof (Z.log2_nonneg (a `div` b)) as Hl0.
  assert (Hl : Z.log2 (a `div` b) < 53) by (apply Z.log2_lt_pow2; lia).
  destruct (Z.log2_spec (a `div` b)) as [Hlo _]; [lia|].
  set (l := Z.log2 (a `div` b)) in *.
  split; [lia|].
  assert (Hmul : 2 ^ l * b <= a).
  { pose proof (Z.mul_div_le a b Hb). nia. }
  assert (Hpow : 2 ^ l * (2 * 2 ^ (52 - l)) = 2 ^ 53).
  { rewrite <- (Z.pow_succ_r 2 (52 - l)) by lia.
    rewrite <- Z.pow_add_r by lia. f_equal. lia. }
  assert (0 < 2 ^ l) by (apply Z.pow_pos_nonneg; lia).
  nia.
Qed.

Lemma float_exponent_lt (a b : Z) :
  0 < a -> a < b -> b <= 2 ^ 53 ->
  - 53 <= float_exponent a b <= - 1.
Proof.
  intros Ha Hab Hb. unfold float_exponent.
  replace (b <=? a)%Z with false by lia.
  assert (Hc : 2 <= (b + a - 1) `div` a) by (apply Z.div_le_lower_bound; lia).
  assert (Hc' : (b + a - 1) `div` a <= 2 ^ 53).
  { apply Z.le_trans with b; [|done]. apply Z.div_le_upper_bound; nia. }
  pose proof (Z.log2_up_pos ((b + a - 1) `div` a)).
  pose proof (Z.log2_up_le_mono _ _ Hc') as Hle.
  rewrite Z.log2_up_pow2 in Hle by lia. lia.
Qed.

(** Below [2^53] the division of floats does not show: [int(a / b)] is
    the integer quotient [a // b] of a non-negative [a] by a positive
    [b]. *)
Lemma int_div_exact (a b : Z) :
  0 <= a < 2 ^ 53 -> 0 < b <= 2 ^ 53 -> int_div a b = Ok (a `div` b).
Proof.
  intros Ha Hb. unfold int_div, truediv.
  destruct (decide (b = 0)); [lia|].
  destruct (decide (a = 0)) as [->|Ha0].
  { cbn. by rewrite Z.div_0_l by lia. }
  rewrite (Z.abs_eq a), (Z.abs_eq b) by lia.
  rewrite (Z.sgn_pos a), (Z.sgn_pos b) by lia.
  assert (Hl : - 53 <= float_exponent a b <= 52
               /\ b < 2 * 2 ^ (52 - float_exponent a b)).
  { destruct (decide (b <= a)) as [Hba|Hab].
    - destruct (float_exponent_ge a b) as [? ?]; [lia..|]. split; [lia|done].
    - pose proof (float_exponent_lt a b) as Hlt. split; [lia|].
      apply Z.le_lt_trans with (2 ^ 53); [lia|].
      rewrite <- (Z.pow_succ_r 2) by lia. apply Z.pow_lt_mono_r; lia. }
  destruct Hl as [Hl HbK]. set (l := float_exponent a b) in *.
  rewrite Z.max_l by lia.
  destruct (decide (l = 52)) as [->|Hne].
  - change (52 - 52) with 0 in *. change (2 ^ 0) with 1 in *.
    assert (b = 1) as -> by lia.
    pose proof (round_half_even_bounds a 1) as Hm.
    cbn [Z.leb Z.compare andb]. rewrite !Z.mul_1_l, !Z.mul_1_r.
    set (m := round_half_even a 1) in *.
    assert (m = a) as -> by lia.
    replace (2 ^ 1024 <=? a)%Z with false by lia.
    cbn. by rewrite Z.mul_1_r, Z.div_1_r.
  - replace (0 <=? l - 52)%Z with false by lia. cbn [andb].
    replace (- (l - 52)) with (52 - l) by lia.
    assert (HK : 0 < 2 ^ (52 - l)) by (apply Z.pow_pos_nonneg; lia).
    pose proof (round_half_even_bounds (a * 2 ^ (52 - l)) b) as Hm.
    pose proof (trunc_round a b (2 ^ (52 - l))) as Heq.
    set (m := round_half_even (a * 2 ^ (52 - l)) b) in *.
    assert (0 <= m) by nia.
    cbn [mbind result_bind bind]. unfold int_of_float. cbn [fst snd].
    replace (0 <=? l - 52)%Z with false by lia.
    replace (- (l - 52)) with (52 - l) by lia.
    rewrite !Z.mul_1_l, Z.quot_div_nonneg by lia.
    rewrite Heq by lia. reflexivity.
Qed.

(** A division that returns had a divisor other than 0. *)
Lemma int_div_nonzero (a b q : Z) : int_div a b = Ok q -> b <> 0.
Proof.
  unfold int_div, truediv. by destruct (decide (b = 0)).
Qed.

(** Beyond [2^53] it shows: [int((2**53 + 1) / 1)] is [2**53],
    [int((2**60 - 1) / 2**60)] is 1, and [int(10**400 / 3)] raises,
    whereas [int(10**400 / 10**399)] is 10. *)
Example int_div_rounds :
  int_div (2 ^ 53 + 1) 1 = Ok (2 ^ 53)
  /\ int_div (2 ^ 60 - 1) (2 ^ 60) = Ok 1
  /\ int_div (10 ^ 400) 3 = Raise OverflowError
  /\ int_div (10 ^ 400) (10 ^ 399) = Ok 10
  /\ int_div (- 7) 2 = Ok (- 3)
  /\ int_div 7 0 = Raise ZeroDivisionError.
Proof. repeat split; vm_compute; reflexivity. Qed.

End Division.

(** ** [load_labeldict] *)

Section LabelDict.

Import AsrUtils.

(** A line that does not define symbol [s] leaves its entry alone. *)
Lemma labeldict_line_other (s : string) (d d' : gmap string Z) (ln : string) :
  labeldict_line d ln = Ok d' ->
  head (split ln) <> Some s ->
  d' !! s = d !! s.
Proof.
  unfold labeldict_line.
  destruct (split ln) as [|t [|i [|? ?]]]; try discriminate.
  intros H Hs. inv_bind H. injection H as <-.
  apply lookup_insert_ne. intros ->. by apply Hs.
Qed.

Lemma read_labeldict_other (s : string) (lines : list string) :
  forall d0 d : gmap string Z,
  for_each labeldict_line d0 lines = Ok d ->
  Forall (fun ln => head (split ln) <> Some s) lines ->
  d !! s = d0 !! s.
Proof.
  induction lines as [|ln lines IH]; intros d0 d H Hall.
  - by injection H as <-.
  - cbn in H. inv_bind H. inversion_clear Hall as [|? ? Hln Hrest].
    rewrite (IH _ _ H Hrest). eauto using labeldict_line_other.
Qed.

Example load_labeldict_ex :
  load_labeldict ["a 1" ; "b 2"]
  = Ok (<["<eos>" := 3]> (<["b" := 2]> (<["a" := 1]> {["<blank>" := 0]}))).
Proof. vm_compute. reflexivity. Qed.

(** What the code does guarantee: a file that [load_labeldict] accepts
    and that has no line for '<blank>' yields a dictionary that maps
    '<blank>' to 0; if it has no line for '<eos>', then '<eos>' is mapped
    to the number of entries the dictionary holds once the file is read,
    '<blank>' included, and nothing else is changed. *)
Theorem load_labeldict_blank_eos (lines : list string) (d : gmap string Z) :
  load_labeldict lines = Ok d ->
  (Forall (fun ln => head (split ln) <> Some "<blank>") lines ->
   d !! "<blank>" = Some 0)
  /\ (Forall (fun ln => head (split ln) <> Some "<eos>") lines ->
      exists d0 : gmap string Z,
        read_labeldict lines = Ok d0
        /\ d0 !! "<eos>" = None
        /\ d = <["<eos>" := Z.of_nat (size d0)]> d0
        /\ d !! "<eos>" = Some (Z.of_nat (size d0))).
Proof.
  unfold load_labeldict. intros H. inv_bind H. rename a into d0.
  split.
  - intros Hall.
    assert (d0 !! "<blank>" = Some 0) as Hb.
    { unfold read_labeldict in Ha.
      rewrite (read_labeldict_other _ _ _ _ Ha Hall).
      apply lookup_singleton_eq. }
    destruct (decide (is_Some (d0 !! "<eos>"))); injection H as <-; [done|].
    by rewrite lookup_insert_ne.
  - intros Hall. exists d0.
    assert (d0 !! "<eos>" = None) as He.
    { unfold read_labeldict in Ha.
      rewrite (read_labeldict_other _ _ _ _ Ha Hall).
      by apply lookup_singleton_ne. }
    destruct (decide (is_Some (d0 !! "<eos>"))) as [[? Hs]|_].
    { congruence. }
    injection H as <-. repeat split; auto. apply lookup_insert_eq.
Qed.

(** The theorem at a two-line file. *)
Lemma load_labeldict_blank_eos_witness :
  let d := <["<eos>" := 3]> (<["b" := 2]> (<["a" := 1]> {["<blank>" := 0]})) in
  d !! "<blank>" = Some 0
  /\ exists d0 : gmap string Z,
       read_labeldict ["a 1"; "b 2"] = Ok d0
       /\ d0 !! "<eos>" = None
       /\ d = <["<eos>" := Z.of_nat (size d0)]> d0
       /\ d !! "<eos>" = Some (Z.of_nat (size d0)).
Proof.
  intros d.
  assert (load_labeldict ["a 1"; "b 2"] = Ok d) as H by (vm_compute; reflexivity).
  destruct (load_labeldict_blank_eos _ _ H) as [Hb He].
  split.
  - apply Hb. repeat constructor; vm_compute; discriminate.
  - apply He. repeat constructor; vm_compute; discriminate.
Defined.

(** C1 fails on the code: the dictionary starts as [{'<blank>': 0}],
    with the comment that the id of '<blank>' is 0, but every line of the
    file is stored without a look at its symbol, so that on the one-line
    file ['<blank> 5'] the reserved id is lost: '<blank>' is returned with
    id 5. *)
Lemma load_labeldict_blank_overridden :
  exists d : gmap string Z,
    load_labeldict ["<blank> 5"] = Ok d
    /\ d !! "<blank>" = Some 5
    /\ d !! "<blank>" <> Some 0.
Proof.
  eexists. split; [vm_compute; reflexivity|].
  split; [vm_compute; reflexivity | vm_compute; discriminate].
Qed.

End LabelDict.

(** ** [sorted] *)

Section StableSort.

Context {A : Type} (key : A -> Z) (before : Z -> Z -> bool).

(** The order that [before] decides, on keys. *)
Let precedes (x y : A) : Prop := before (key x) (key y) = true.

Hypothesis before_total : forall a b, before a b = false -> before b a = true.
Hypothesis before_trans :
  forall a b c, before a b = true -> before b c = true -> before a c = true.

Lemma insert_by_perm (x : A) (l : list A) :
  Permutation (insert_by before key x l) (x :: l).
Proof.
  induction l as [|y l IH]; cbn; [done|].
  destruct (before (key x) (key y)); [done|].
  rewrite IH. apply perm_swap.
Qed.

Lemma insert_by_sorted (x : A) (l : list A) :
  StronglySorted precedes l -> StronglySorted precedes (insert_by before key x l).
Proof.
  induction 1 as [|y l Hl IH Hy]; cbn.
  - repeat constructor.
  - destruct (before (key x) (key y)) eqn:Hxy.
    + constructor; [by constructor|].
      constructor; [done|].
      eapply Forall_impl; [exact Hy|]. intros z Hz. unfold precedes in *. eauto.
    + constructor; [done|].
      rewrite insert_by_perm. constructor; [|done].
      by apply before_total.
Qed.

Lemma foldr_insert_by_perm (l : list A) :
  Permutation (foldr (insert_by before key) [] l) l.
Proof.
  induction l as [|x l IH]; cbn; [done|].
  by rewrite insert_by_perm, IH.
Qed.

Lemma foldr_insert_by_sorted (l : list A) :
  StronglySorted precedes (foldr (insert_by before key) [] l).
Proof.
  induction l as [|x l IH]; cbn; [constructor|].
  by apply insert_by_sorted.
Qed.

End StableSort.

Lemma StronglySorted_weaken {A} (R R' : A -> A -> Prop) (l : list A) :
  (forall x y, R x y -> R' x y) -> StronglySorted R l -> StronglySorted R' l.
Proof.
  intros HR. induction 1 as [|x l Hl IH Hx]; constructor; [done|].
  eapply Forall_impl; eauto.
Qed.

Lemma stable_sort_perm {A} (key : A -> Z) (reverse : bool) (l : list A) :
  Permutation (stable_sort key reverse l) l.
Proof. apply foldr_insert_by_perm. Qed.

(** Ascending keys without [reverse], descending keys with it. *)
Lemma stable_sort_sorted {A} (key : A -> Z) (reverse : bool) (l : list A) :
  StronglySorted
    (fun x y => if reverse then key y <= key x else key x <= key y)
    (stable_sort key reverse l).
Proof.
  unfold stable_sort.
  pose proof (foldr_insert_by_sorted key (if reverse then Z.geb else Z.leb)) as H.
  destruct reverse.
  - eapply StronglySorted_weaken; [|apply H].
    + intros x y Hxy. cbv beta in Hxy. lia.
    + intros a b. lia.
    + intros a b c. lia.
  - eapply StronglySorted_weaken; [|apply H].
    + intros x y Hxy. cbv beta in Hxy. lia.
    + intros a b. lia.
    + intros a b c. lia.
Qed.

Lemma StronglySorted_fmap {A B} (R : A -> A -> Prop) (R' : B -> B -> Prop)
  (P : A -> Prop) (f : A -> B) (l : list A) :
  (forall x y, P x -> P y -> R x y -> R' (f x) (f y)) ->
  Forall P l -> StronglySorted R l -> StronglySorted R' (f <$> l).
Proof.
  intros HR HP. induction 1 as [|x l Hl IH Hx]; cbn; [constructor|].
  inversion_clear HP as [|? ? Px Pl].
  constructor; [auto|].
  rewrite Forall_fmap. rewrite Forall_forall in *. intros y Hy. cbn. auto.
Qed.

Lemma comprehension_decorate {A} (key : A -> result exn Z) (l : list A) :
  forall dec,
  comprehension (fun x => k ← key x; Ok (k, x)) l = Ok dec ->
  snd <$> dec = l /\ Forall (fun p => key p.2 = Ok p.1) dec.
Proof.
  induction l as [|x l IH]; intros dec H; cbn in H.
  - by injection H as <-.
  - inv_res.
    match goal with Hc : comprehension _ l = Ok _ |- _ =>
      destruct (IH _ Hc) as [<- Hall] end.
    split; [done|]. constructor; [done|done].
Qed.

(** What [sorted] returns is a rearrangement of its argument in which the
    keys ascend, or descend with [reverse=True]. *)
Lemma sorted_spec {A} (key : A -> result exn Z) (reverse : bool) (l sd : list A) :
  sorted key reverse l = Ok sd ->
  Permutation sd l
  /\ StronglySorted
       (fun x y => exists kx ky, key x = Ok kx /\ key y = Ok ky
                                 /\ if reverse then ky <= kx else kx <= ky) sd.
Proof.
  unfold sorted. intros H. inv_bind H. injection H as <-.
  destruct (comprehension_decorate _ _ _ Ha) as [<- Hall].
  split.
  - apply fmap_Permutation, stable_sort_perm.
  - eapply StronglySorted_fmap with (P := fun p => key p.2 = Ok p.1);
      [| |apply stable_sort_sorted].
    + intros [kx x] [ky y] Hx Hy Hxy. cbn in *. exists kx, ky.
      by destruct reverse.
    + rewrite Forall_forall in *. intros p Hp. apply Hall.
      by rewrite <- (stable_sort_perm fst reverse a).
Qed.

Lemma comprehension_Ok {E A B} (f : A -> result E B) (l : list A) :
  Forall (fun x => exists y, f x = Ok y) l ->
  exists ys, comprehension f l = Ok ys.
Proof.
  induction 1 as [|x l [y Hy] _ [ys IH]]; cbn; [eauto|].
  rewrite Hy, IH. cbn. eauto.
Qed.

Lemma sorted_Ok {A} (key : A -> result exn Z) (reverse : bool) (l : list A) :
  Forall (fun x => exists k, key x = Ok k) l ->
  exists sd, sorted key reverse l = Ok sd.
Proof.
  intros Hall. unfold sorted.
  destruct (comprehension_Ok (fun x => k ← key x; Ok (k, x)) l) as [dec ->].
  - eapply Forall_impl; [exact Hall|]. intros x [k ->]. cbn. eauto.
  - cbn. eauto.
Qed.

(** ** [make_batchset] *)

Section MakeBatchset.

Import AsrUtils BatchSpec.

Variables (sorted_data : list item) (batch_size max_length_in max_length_out : Z).

(** One round of the loop. *)
Lemma batch_loop_unfold (start : nat) (minibatch : list (list item)) :
  batch_loop sorted_data batch_size max_length_in max_length_out start minibatch
  = match batch_end sorted_data batch_size max_length_in max_length_out start with
    | Raise e => Raise e
    | Ok end_ =>
        if decide (end_ = length sorted_data)
        then Ok (minibatch ++ [slice sorted_data start end_])
        else batch_loop sorted_data batch_size max_length_in max_length_out
               end_ (minibatch ++ [slice sorted_data start end_])
    end.
Proof.
  funelim (batch_loop sorted_data batch_size max_length_in max_length_out
             start minibatch).
  all: match goal with
       | Hb : batch_end _ _ _ _ _ = _ |- _ => rewrite Hb
       end.
  - reflexivity.
  - destruct (decide _); [reflexivity|contradiction].
  - destruct (decide _); [contradiction|reflexivity].
Qed.

Lemma ilen_of_nonneg (x : item) (k : Z) : ilen_of x = Ok k -> 0 <= k.
Proof. unfold ilen_of. intros H. inv_res. lia. Qed.

Lemma olen_of_nonneg (x : item) (k : Z) : olen_of x = Ok k -> 0 <= k.
Proof. unfold olen_of. intros H. inv_res. lia. Qed.

(** What a round that computes [end] has read and checked. *)
Lemma batch_end_Ok (start end_ : nat) :
  batch_end sorted_data batch_size max_length_in max_length_out start = Ok end_ ->
  exists x ilen olen qi qo q,
    sorted_data !! start = Some x
    /\ ilen_of x = Ok ilen /\ olen_of x = Ok olen
    /\ int_div ilen max_length_in = Ok qi
    /\ int_div olen max_length_out = Ok qo
    /\ int_div batch_size (1 + Z.max qi qo) = Ok q
    /\ end_ = Nat.min (length sorted_data) (start + Z.to_nat (Z.max 1 q)).
Proof.
  unfold batch_end, getitem. intros H.
  destruct (sorted_data !! start) as [x|] eqn:Hx; [|discriminate].
  cbn in H. inv_res. by repeat eexists.
Qed.

Lemma slice_drop (start end_ : nat) :
  (start <= end_)%nat ->
  slice sorted_data start end_ ++ drop end_ sorted_data = drop start sorted_data.
Proof.
  intros Hle. unfold slice.
  rewrite <- (take_drop (end_ - start) (drop start sorted_data)) at 2.
  rewrite drop_drop. do 2 f_equal. lia.
Qed.

Lemma slice_to_end (start : nat) :
  slice sorted_data start (length sorted_data) = drop start sorted_data.
Proof. unfold slice. apply take_ge. rewrite length_drop. lia. Qed.

(** The batches that the loop adds are consecutive slices that cover the
    rest of the sorted list; each one is cut by a round of the loop. *)
Lemma batch_loop_spec (n : nat) :
  forall (start : nat) (minibatch result_ : list (list item)),
  n = (length sorted_data - start)%nat ->
  batch_loop sorted_data batch_size max_length_in max_length_out start minibatch
  = Ok result_ ->
  exists new,
    result_ = minibatch ++ new
    /\ concat new = drop start sorted_data
    /\ Forall (fun b => exists s e,
                  batch_end sorted_data batch_size max_length_in
                    max_length_out s = Ok e
                  /\ b = slice sorted_data s e) new.
Proof.
  induction n as [n IH] using lt_wf_ind. intros start minibatch result_ Hn H.
  rewrite batch_loop_unfold in H.
  destruct (batch_end _ _ _ _ start) as [end_|] eqn:Hend; [|discriminate].
  destruct (batch_end_Ok _ _ Hend)
    as (x & ilen & olen & qi & qo & q & Hx & _ & _ & _ & _ & _ & He).
  apply lookup_lt_Some in Hx.
  destruct (decide (end_ = length sorted_data)) as [Heq|Hne].
  - injection H as <-. exists [slice sorted_data start end_].
    split; [done|]. split.
    + cbn. rewrite app_nil_r, Heq. apply slice_to_end.
    + repeat constructor. eauto.
  - eapply (IH (length sorted_data - end_)%nat) in H as (new & -> & Hc & Hall);
      [|lia|done].
    exists (slice sorted_data start end_ :: new). split.
    { by rewrite <- app_assoc. }
    split.
    + cbn. rewrite Hc. apply slice_drop. lia.
    + constructor; eauto.
Qed.

(** The three divisions of a round are integer quotients when the
    lengths, the maximal lengths and the batch size stay within [2^53]. *)
Lemma batch_end_exact (x : item) (ilen olen : Z) :
  0 <= batch_size < 2 ^ 53 ->
  0 < max_length_in <= 2 ^ 53 -> 0 < max_length_out <= 2 ^ 53 ->
  short x -> ilen_of x = Ok ilen -> olen_of x = Ok olen ->
  int_div ilen max_length_in = Ok (ilen `div` max_length_in)
  /\ int_div olen max_length_out = Ok (olen `div` max_length_out)
  /\ int_div batch_size
       (1 + Z.max (ilen `div` max_length_in) (olen `div` max_length_out))
     = Ok (batch_size
           `div` (1 + Z.max (ilen `div` max_length_in)
                        (olen `div` max_length_out)))
  /\ 0 <= Z.max (ilen `div` max_length_in) (olen `div` max_length_out).
Proof.
  intros Hb Hi Ho Hshort Hil Hol.
  pose proof (ilen_of_nonneg _ _ Hil) as Hil0.
  pose proof (olen_of_nonneg _ _ Hol) as Hol0.
  pose proof (Hshort ilen (or_introl Hil)) as Hil1.
  pose proof (Hshort olen (or_intror Hol)) as Hol1.
  assert (0 <= ilen `div` max_length_in <= ilen).
  { split; [apply Z.div_pos; lia|]. apply Z.div_le_upper_bound; nia. }
  assert (0 <= olen `div` max_length_out <= olen).
  { split; [apply Z.div_pos; lia|]. apply Z.div_le_upper_bound; nia. }
  repeat split; try (apply int_div_exact; lia). lia.
Qed.


Lemma batch_end_total (start : nat) :
  0 <= batch_size < 2 ^ 53 ->
  0 < max_length_in <= 2 ^ 53 -> 0 < max_length_out <= 2 ^ 53 ->
  Forall has_lengths sorted_data -> Forall short sorted_data ->
  (start < length sorted_data)%nat ->
  exists e,
    batch_end sorted_data batch_size max_length_in max_length_out start = Ok e
    /\ (start < e <= length sorted_data)%nat.
Proof.
  intros Hb Hi Ho Hall Hshort Hlt.
  destruct (lookup_lt_is_Some_2 _ _ Hlt) as [x Hx].
  rewrite Forall_forall in Hall, Hshort.
  assert (Hin : x ∈ sorted_data) by (eapply list_elem_of_lookup_2; eauto).
  destruct (Hall x Hin) as (ilen & olen & Hil & Hol).
  destruct (batch_end_exact x ilen olen) as (Hqi & Hqo & Hq & _); auto.
  unfold batch_end, getitem. rewrite Hx. cbn. rewrite Hil, Hol. cbn.
  rewrite Hqi. cbn. rewrite Hqo. cbn. rewrite Hq. cbn.
  eexists. split; [done|]. lia.
Qed.

(** On utterances with lengths, when the lengths, the maximal lengths
    and the batch size are within [2^53] and the maximal lengths are
    positive, the loop returns. *)
Lemma batch_loop_Ok (n : nat) :
  0 <= batch_size < 2 ^ 53 ->
  0 < max_length_in <= 2 ^ 53 -> 0 < max_length_out <= 2 ^ 53 ->
  Forall has_lengths sorted_data -> Forall short sorted_data ->
  forall (start : nat) (minibatch : list (list item)),
  n = (length sorted_data - start)%nat ->
  (start < length sorted_data)%nat ->
  exists result_,
    batch_loop sorted_data batch_size max_length_in max_length_out start
      minibatch = Ok result_.
Proof.
  intros Hb Hi Ho Hall Hshort.
  induction n as [n IH] using lt_wf_ind. intros start minibatch Hn Hlt.
  rewrite batch_loop_unfold.
  destruct (batch_end_total start) as (e & -> & He); auto.
  destruct (decide (e = length sorted_data)); [eauto|].
  apply (IH (length sorted_data - e)%nat); lia.
Qed.

End MakeBatchset.

Section MakeBatchsetClaims.

Import AsrUtils BatchSpec.

Lemma batch_end_nonempty (sorted_data : list item)
  (batch_size max_length_in max_length_out : Z) (s e : nat) :
  batch_end sorted_data batch_size max_length_in max_length_out s = Ok e ->
  slice sorted_data s e <> [].
Proof.
  intros Hend.
  destruct (batch_end_Ok _ _ _ _ _ _ Hend)
    as (x & ? & ? & ? & ? & ? & Hx & _ & _ & _ & _ & _ & He).
  apply lookup_lt_Some in Hx.
  intros Hnil. apply (f_equal length) in Hnil.
  unfold slice in Hnil. rewrite length_take, length_drop in Hnil. cbn in Hnil. lia.
Qed.

(** What [make_batchset] returns, in terms of the sorted list and of the
    loop. *)
Lemma make_batchset_Ok (data : list item)
  (batch_size max_length_in max_length_out num_batches : Z)
  (batches : list (list item)) :
  make_batchset data batch_size max_length_in max_length_out num_batches
  = Ok batches ->
  exists sorted_data minibatch,
    sorted ilen_of true data = Ok sorted_data
    /\ concat minibatch = sorted_data
    /\ Forall (fun b => exists s e,
                 batch_end sorted_data batch_size max_length_in
                   max_length_out s = Ok e
                 /\ b = slice sorted_data s e) minibatch
    /\ batches = if decide (0 < num_batches)
                 then take (Z.to_nat num_batches) minibatch
                 else minibatch.
Proof.
  unfold make_batchset. intros H.
  apply bind_Ok in H as (sorted_data & Hs & H).
  apply bind_Ok in H as (minibatch & Hl & H).
  eapply batch_loop_spec in Hl as (new & -> & Hc & Hall); [|reflexivity].
  exists sorted_data, new. cbn in *.
  repeat split; auto.
  destruct (decide (0 < num_batches)); by injection H as <-.
Qed.

Lemma make_batchset_total (data : list item)
  (batch_size max_length_in max_length_out num_batches : Z) :
  data <> [] -> 0 <= batch_size < 2 ^ 53 ->
  0 < max_length_in <= 2 ^ 53 -> 0 < max_length_out <= 2 ^ 53 ->
  Forall has_lengths data -> Forall short data ->
  exists batches,
    make_batchset data batch_size max_length_in max_length_out num_batches
    = Ok batches.
Proof.
  intros Hne Hb Hi Ho Hall Hshort. unfold make_batchset.
  destruct (sorted_Ok ilen_of true data) as [sd Hsd].
  { eapply Forall_impl; [exact Hall|]. intros x (i & o & -> & _). eauto. }
  rewrite Hsd. cbn.
  destruct (sorted_spec _ _ _ _ Hsd) as [Hperm _].
  destruct (batch_loop_Ok sd batch_size max_length_in max_length_out
              (length sd - 0)%nat Hb Hi Ho) with (start := 0%nat) (minibatch := @nil (list item))
    as [mb ->].
  - by rewrite Hperm.
  - by rewrite Hperm.
  - reflexivity.
  - apply Permutation_length in Hperm. destruct data; [done|].
    cbn in Hperm. lia.
  - cbn. destruct (decide (0 < num_batches)); eauto.
Qed.


(** C4: for a non-empty data mapping and [num_batches = 0], the batches
    that [make_batchset] returns, put end to end, are the items of the
    mapping as [sorted] orders them by input length: a rearrangement of
    the items, so that each utterance is in exactly one batch, with input
    lengths in descending order, and no batch is empty; and
    [make_batchset] does return batches when every utterance carries its
    two lengths, the maximal lengths are positive and the lengths, the
    maximal lengths and the batch size are within [2^53], where the
    divisions neither round nor overflow. *)
Theorem make_batchset_partition (data : list item)
  (batch_size max_length_in max_length_out : Z) :
  data <> [] ->
  (forall batches,
     make_batchset data batch_size max_length_in max_length_out 0 = Ok batches ->
     sorted ilen_of true data = Ok (concat batches)
     /\ Permutation (concat batches) data
     /\ StronglySorted ilen_ge (concat batches)
     /\ Forall (fun b => b <> []) batches)
  /\ (0 <= batch_size < 2 ^ 53 ->
      0 < max_length_in <= 2 ^ 53 -> 0 < max_length_out <= 2 ^ 53 ->
      Forall has_lengths data -> Forall short data ->
      exists batches,
        make_batchset data batch_size max_length_in max_length_out 0
        = Ok batches).
Proof.
  intros Hne. split; [|intros; by apply make_batchset_total].
  intros batches H.
  apply make_batchset_Ok in H as (sd & mb & Hsd & Hc & Hall & ->).
  destruct (decide (0 < 0)); [lia|].
  destruct (sorted_spec _ _ _ _ Hsd) as [Hperm Hsorted].
  rewrite Hc. repeat split; auto.
  eapply Forall_impl; [exact Hall|]. intros b (s & e & Hend & ->).
  by eapply batch_end_nonempty.
Qed.

Example make_batchset_data :
  make_batchset Samples.data 4 800 150 0
  = Ok [[Samples.utt3]; [Samples.utt1; Samples.utt2]].
Proof. vm_compute. reflexivity. Qed.

(** Without utterances the first round of the loop raises. *)
Example make_batchset_empty :
  make_batchset [] 4 800 150 0 = Raise IndexError.
Proof. vm_compute. reflexivity. Qed.

Lemma samples_have_lengths : Forall has_lengths Samples.data.
Proof. repeat constructor; do 2 eexists; split; vm_compute; reflexivity. Qed.

Lemma samples_short : Forall short Samples.data.
Proof.
  repeat constructor; intros k [H|H]; vm_compute in H;
    apply Ok_inj in H as <-; lia.
Qed.



(** C4 at the sample data. *)
Lemma make_batchset_partition_witness :
  let batches := [[Samples.utt3]; [Samples.utt1; Samples.utt2]] in
  (sorted ilen_of true Samples.data = Ok (concat batches)
   /\ Permutation (concat batches) Samples.data
   /\ StronglySorted ilen_ge (concat batches)
   /\ Forall (fun b => b <> []) batches)
  /\ exists batches', make_batchset Samples.data 4 800 150 0 = Ok batches'.
Proof.
  intros batches.
  destruct (make_batchset_partition Samples.data 4 800 150) as [Hpart Hret];
    [discriminate|].
  split.
  - apply Hpart. vm_compute. reflexivity.
  - apply Hret;
      [lia | lia | lia | apply samples_have_lengths | apply samples_short].
Defined.

End MakeBatchsetClaims.

(** ** [load_inputs_and_targets] *)

Lemma comprehension_Forall2 {E A B} (f : A -> result E B) (l : list A) :
  forall ys, comprehension f l = Ok ys -> Forall2 (fun x y => f x = Ok y) l ys.
Proof.
  induction l as [|x l IH]; intros ys H; cbn in H.
  - apply Ok_inj in H as <-. constructor.
  - inv_res. constructor; auto.
Qed.

Lemma filter_pure {E A} (p : A -> result E bool) (q : A -> bool) (l : list A) :
  Forall (fun x => p x = Ok (q x)) l ->
  Py.filter p l = Ok (List.filter q l).
Proof.
  induction 1 as [|x l Hx _ IH]; cbn; [done|].
  rewrite Hx, IH. cbn. by destruct (q x).
Qed.

Lemma StronglySorted_Forall2 {A B} (R : A -> A -> Prop) (R' : B -> B -> Prop)
  (Q : A -> B -> Prop) (l : list A) (k : list B) :
  (forall i j x y, R i j -> Q i x -> Q j y -> R' x y) ->
  Forall2 Q l k -> StronglySorted R l -> StronglySorted R' k.
Proof.
  intros HR HQ. induction HQ as [|i x l k Hix Hlk IH]; intros Hs; [constructor|].
  apply StronglySorted_inv in Hs as [Hs Hi].
  constructor; [auto|].
  clear IH Hs. induction Hlk as [|j y l k Hjy _ IH]; [constructor|].
  inversion_clear Hi. constructor; eauto.
Qed.

Lemma token_ids_length (tokens : list string) (ids : list Z) :
  AsrUtils.token_ids tokens = Ok ids -> length ids = length tokens.
Proof.
  intros H. apply comprehension_Forall2 in H.
  symmetry. eapply Forall2_length, H.
Qed.

Section LoadClaims.

Import AsrUtils LoadSpec.

Variables Row Vec : Type.
Variable read_mat : string -> result exn (list Row).
Variable read_vec_flt : string -> result exn Vec.

Lemma getitem_Ok {A} (l : list A) (i : nat) (x : A) :
  getitem l i = Ok x <-> l !! i = Some x.
Proof.
  unfold getitem. destruct (l !! i); split; intros H; congruence.
Qed.

Lemma getitem_lt {A} (l : list A) (i : nat) :
  (i < length l)%nat -> exists x, getitem l i = Ok x /\ l !! i = Some x.
Proof.
  intros Hlt. destruct (lookup_lt_is_Some_2 _ _ Hlt) as [x Hx].
  exists x. by rewrite getitem_Ok.
Qed.

(** The filter of [nonzero_sorted] keeps the positions with tokens. *)
Lemma nonzero_filter (xs : list (list Row)) (ys : list (list string)) :
  length ys = length xs ->
  Py.filter (fun i => y ← getitem ys i; Ok (bool_decide (0 < length y)%nat))
    (seq 0 (length xs))
  = Ok (List.filter (nonzero ys) (seq 0 (length xs))).
Proof.
  intros Hlen. apply filter_pure. rewrite Forall_forall. intros i Hi.
  apply elem_of_seq in Hi. unfold nonzero.
  destruct (getitem_lt ys i) as (y & -> & ->); [lia|done].
Qed.

Lemma nonzero_sorted_spec (xs : list (list Row)) (ys : list (list string))
  (idx : list nat) :
  length ys = length xs ->
  nonzero_sorted xs ys = Ok idx ->
  Permutation idx (List.filter (nonzero ys) (seq 0 (length xs)))
  /\ StronglySorted
       (fun i j => exists x y, xs !! i = Some x /\ xs !! j = Some y
                               /\ (length y <= length x)%nat) idx.
Proof.
  intros Hlen. unfold nonzero_sorted. rewrite nonzero_filter by done. cbn.
  intros H. apply sorted_spec in H as [Hperm Hsorted]. split; [done|].
  eapply StronglySorted_weaken; [|exact Hsorted].
  intros i j (ki & kj & Hi & Hj & Hle). inv_res.
  repeat match goal with
    | Hg : getitem _ _ = Ok _ |- _ => apply getitem_Ok in Hg
    end.
  eexists _, _. repeat split; eauto. lia.
Qed.

Lemma nonzero_sorted_total (xs : list (list Row)) (ys : list (list string)) :
  length ys = length xs ->
  exists idx, nonzero_sorted xs ys = Ok idx.
Proof.
  intros Hlen. unfold nonzero_sorted. rewrite nonzero_filter by done. cbn.
  apply sorted_Ok. rewrite Forall_forall. intros i Hi.
  apply list_elem_of_In, filter_In in Hi as [Hi _].
  apply list_elem_of_In, elem_of_seq in Hi.
  destruct (getitem_lt xs i) as (x & -> & _); [lia|]. cbn. eauto.
Qed.

(** Positions that [nonzero_sorted] returns are positions of the batch
    whose sample has tokens. *)
Lemma nonzero_sorted_elem (xs : list (list Row)) (ys : list (list string))
  (idx : list nat) (i : nat) :
  length ys = length xs ->
  nonzero_sorted xs ys = Ok idx ->
  i ∈ idx ->
  (i < length xs)%nat /\ exists y, ys !! i = Some y /\ y <> [].
Proof.
  intros Hlen H Hi.
  destruct (nonzero_sorted_spec _ _ _ Hlen H) as [Hperm _].
  rewrite Hperm in Hi.
  apply list_elem_of_In, filter_In in Hi as [Hi Hnz].
  apply list_elem_of_In, elem_of_seq in Hi. split; [lia|].
  unfold nonzero in Hnz. destruct (ys !! i) as [y|]; [|done].
  exists y. split; [done|]. apply bool_decide_eq_true in Hnz.
  intros ->. cbn in Hnz. lia.
Qed.

Lemma picked_length {A} (idx : list nat) (all_ out : list A) :
  picked idx all_ out -> length out = length idx.
Proof. intros H. symmetry. eapply Forall2_length, H. Qed.

Lemma comprehension_getitem {A} (l : list A) (idx : list nat) (out : list A) :
  comprehension (getitem l) idx = Ok out -> picked idx l out.
Proof.
  intros H. apply comprehension_Forall2 in H.
  eapply Forall2_impl; [exact H|]. intros i x. by rewrite getitem_Ok.
Qed.

Lemma comprehension_getitem_total {A} (l : list A) (idx : list nat) :
  Forall (fun i => (i < length l)%nat) idx ->
  exists out, comprehension (getitem l) idx = Ok out.
Proof.
  intros Hall. apply comprehension_Ok.
  eapply Forall_impl; [exact Hall|]. intros i Hi.
  destruct (getitem_lt l i Hi) as (x & ? & _). eauto.
Qed.

(** What [load_inputs_and_targets] returns: the samples at the positions
    with tokens, in descending order of the number of frames. *)
Lemma load_inputs_and_targets_Ok (batch : list element)
  (use_speaker_embedding : bool)
  (xs : list (list Row)) (ys : list (list Z)) (spembs : option (list Vec)) :
  load_inputs_and_targets read_mat read_vec_flt batch use_speaker_embedding
  = Ok (xs, ys, spembs) ->
  exists all_xs all_tokens idx,
    comprehension (fun b => f ← input_feat 0 b; read_mat f) batch = Ok all_xs
    /\ comprehension output_tokens batch = Ok all_tokens
    /\ nonzero_sorted all_xs all_tokens = Ok idx
    /\ picked idx all_xs xs
    /\ Forall2 (fun i y => exists tokens,
                   all_tokens !! i = Some tokens /\ token_ids tokens = Ok y)
         idx ys
    /\ if use_speaker_embedding
       then exists all_spembs sp,
           comprehension (fun b => f ← input_feat 1 b; read_vec_flt f) batch
           = Ok all_spembs
           /\ spembs = Some sp /\ picked idx all_spembs sp
       else spembs = None.
Proof.
  unfold load_inputs_and_targets. intros H.
  apply bind_Ok in H as (b0 & _ & H).
  destruct (negb (isinstance_dict b0)); [discriminate|].
  apply bind_Ok in H as (all_xs & Hxs & H).
  apply bind_Ok in H as (all_tokens & Hys & H).
  apply bind_Ok in H as (idx & Hidx & H).
  apply bind_Ok in H as (xs' & Hxs' & H).
  apply bind_Ok in H as (ys' & Hys' & H).
  exists all_xs, all_tokens, idx.
  assert (Forall2 (fun i y => exists tokens,
                     all_tokens !! i = Some tokens /\ token_ids tokens = Ok y)
            idx ys') as Hpick.
  { apply comprehension_Forall2 in Hys'.
    eapply Forall2_impl; [exact Hys'|]. intros i y Hy. cbn in Hy.
    apply bind_Ok in Hy as (tokens & Ht & Hy). apply getitem_Ok in Ht. eauto. }
  apply comprehension_getitem in Hxs'.
  destruct use_speaker_embedding.
  - apply bind_Ok in H as (all_sp & Hsp & H).
    apply bind_Ok in H as (sp & Hsp' & H).
    apply comprehension_getitem in Hsp'.
    inv_res. repeat split; eauto.
  - inv_res. repeat split; eauto.
Qed.

(** On a batch that starts with a dictionary and whose samples can be
    loaded, [load_inputs_and_targets] returns. *)
Lemma load_inputs_and_targets_total (batch : list element)
  (use_speaker_embedding : bool) (d : gmap Z utt_info) (rest : list element) :
  batch = Dict d :: rest ->
  Forall (loadable read_mat read_vec_flt use_speaker_embedding) batch ->
  exists r,
    load_inputs_and_targets read_mat read_vec_flt batch use_speaker_embedding
    = Ok r.
Proof.
  intros Hb Hall. unfold load_inputs_and_targets.
  assert (getitem batch 0 = Ok (Dict d)) as -> by (by rewrite Hb).
  cbn [mbind result_bind bind isinstance_dict negb].
  destruct (comprehension_Ok (fun b => f ← input_feat 0 b; read_mat f) batch)
    as [all_xs Hxs].
  { eapply Forall_impl; [exact Hall|].
    intros b ((f & x & -> & Hx) & _). cbn. eauto. }
  destruct (comprehension_Ok output_tokens batch) as [all_tokens Hys].
  { eapply Forall_impl; [exact Hall|]. intros b (_ & (t & ? & -> & _) & _). eauto. }
  rewrite Hxs, Hys. cbn [mbind result_bind bind].
  pose proof (comprehension_Forall2 _ _ _ Hxs) as Fxs.
  pose proof (comprehension_Forall2 _ _ _ Hys) as Fys.
  assert (Hlen : length all_tokens = length all_xs).
  { rewrite <- (Forall2_length _ _ _ Fxs), <- (Forall2_length _ _ _ Fys). done. }
  destruct (nonzero_sorted_total all_xs all_tokens Hlen) as [idx Hidx].
  rewrite Hidx. cbn [mbind result_bind bind].
  assert (Hin : Forall (fun i => (i < length batch)%nat) idx).
  { rewrite Forall_forall. intros i Hi.
    destruct (nonzero_sorted_elem _ _ _ _ Hlen Hidx Hi) as [Hlt _].
    by rewrite (Forall2_length _ _ _ Fxs). }
  destruct (comprehension_getitem_total all_xs idx) as [xs' ->].
  { by rewrite <- (Forall2_length _ _ _ Fxs). }
  cbn [mbind result_bind bind].
  destruct (comprehension_Ok (fun i => y ← getitem all_tokens i; token_ids y) idx)
    as [ys' ->].
  { pose proof (proj1 (Forall_forall _ _) Hall) as Hall'.
    pose proof (proj1 (Forall_forall _ _) Hin) as Hin'.
    rewrite Forall_forall. intros i Hi. specialize (Hin' i Hi).
    destruct (lookup_lt_is_Some_2 _ _ Hin') as [b Hbi].
    destruct (Forall2_lookup_l _ _ _ _ _ Fys Hbi) as (tokens & Ht & Hb').
    destruct (Hall' b) as (_ & (t & ids & Ht' & Hids) & _).
    { eapply list_elem_of_lookup_2; eauto. }
    apply getitem_Ok in Ht. rewrite Ht. cbn.
    assert (t = tokens) as -> by congruence. eauto. }
  cbn [mbind result_bind bind].
  destruct use_speaker_embedding; [|eauto].
  destruct (comprehension_Ok (fun b => f ← input_feat 1 b; read_vec_flt f) batch)
    as [all_sp Hsp].
  { eapply Forall_impl; [exact Hall|].
    intros b (_ & _ & Hs). destruct Hs as (f & v & -> & Hv); [done|]. cbn. eauto. }
  rewrite Hsp. cbn [mbind result_bind bind].
  pose proof (comprehension_Forall2 _ _ _ Hsp) as Fsp.
  destruct (comprehension_getitem_total all_sp idx) as [sp' ->]; [|cbn; eauto].
  by rewrite <- (Forall2_length _ _ _ Fsp).
Qed.

(** On a batch that it accepts, the feature and target lists that
    [load_inputs_and_targets] returns have the same length, every target
    sequence is non-empty and the features come in descending order of
    their number of frames; the samples kept are those, and only those,
    whose tokenid string splits into at least one token, the same
    positions being kept in the features, in the targets and, when they
    are asked for, in the speaker embeddings; and the function does return
    on a batch that starts with a dictionary and whose samples can be
    loaded. *)
Theorem load_inputs_and_targets_spec (batch : list element)
  (use_speaker_embedding : bool) :
  batch <> [] ->
  (forall xs ys spembs,
     load_inputs_and_targets read_mat read_vec_flt batch use_speaker_embedding
     = Ok (xs, ys, spembs) ->
     length xs = length ys
     /\ Forall (fun y => y <> []) ys
     /\ StronglySorted (fun a b => (length b <= length a)%nat) xs
     /\ exists all_xs all_tokens idx,
          comprehension (fun b => f ← input_feat 0 b; read_mat f) batch
          = Ok all_xs
          /\ comprehension output_tokens batch = Ok all_tokens
          /\ Permutation idx
               (List.filter (nonzero all_tokens) (seq 0 (length batch)))
          /\ picked idx all_xs xs
          /\ Forall2 (fun i y => exists tokens,
                         all_tokens !! i = Some tokens
                         /\ token_ids tokens = Ok y) idx ys
          /\ if use_speaker_embedding
             then exists all_spembs sp,
                 comprehension (fun b => f ← input_feat 1 b; read_vec_flt f)
                   batch = Ok all_spembs
                 /\ spembs = Some sp /\ picked idx all_spembs sp
             else spembs = None)
  /\ (forall d rest,
        batch = Dict d :: rest ->
        Forall (loadable read_mat read_vec_flt use_speaker_embedding) batch ->
        exists r,
          load_inputs_and_targets read_mat read_vec_flt batch
            use_speaker_embedding = Ok r).
Proof.
  intros _. split; [|intros; by eapply load_inputs_and_targets_total].
  intros xs ys spembs H.
  apply load_inputs_and_targets_Ok in H
    as (all_xs & all_tokens & idx & Hxs & Hys & Hidx & Hpx & Hpy & Hsp).
  pose proof (comprehension_Forall2 _ _ _ Hxs) as Fxs.
  pose proof (comprehension_Forall2 _ _ _ Hys) as Fys.
  assert (Hlen : length all_tokens = length all_xs).
  { rewrite <- (Forall2_length _ _ _ Fxs), <- (Forall2_length _ _ _ Fys). done. }
  destruct (nonzero_sorted_spec _ _ _ Hlen Hidx) as [Hperm Hsorted].
  split.
  { rewrite (picked_length _ _ _ Hpx). eapply Forall2_length, Hpy. }
  split.
  { rewrite Forall_forall. intros y Hy.
    apply list_elem_of_lookup in Hy as [k Hk].
    destruct (Forall2_lookup_r _ _ _ _ _ Hpy Hk) as (i & Hi & tokens & Ht & Hids).
    destruct (nonzero_sorted_elem all_xs all_tokens idx i Hlen Hidx)
      as (_ & tokens' & Ht' & Hne).
    { eapply list_elem_of_lookup_2; eauto. }
    assert (tokens' = tokens) as -> by congruence.
    apply token_ids_length in Hids. intros ->. destruct tokens; [done|discriminate]. }
  split.
  { eapply StronglySorted_Forall2; [|exact Hpx|exact Hsorted].
    intros i j x y (x' & y' & Hx' & Hy' & Hle) Hx Hy. cbv beta in Hx, Hy.
    assert (x' = x) as -> by congruence.
    assert (y' = y) as -> by congruence. done. }
  exists all_xs, all_tokens, idx.
  rewrite (Forall2_length _ _ _ Fxs). auto 10.
Qed.

(** C10 fails on the code: [load_inputs_and_targets] returns on none of
    the batches that the claim is about.  The elements of the batch are
    read as [b[1]], which an utterance dictionary of data.json does not
    have (its keys are 'input', 'output' and other strings): on a batch
    that starts with such a dictionary the function raises [KeyError].
    On a batch of (utterance id, info) pairs, where [b[1]] is the info,
    the assertion on [batch[0]] fails.  The function only returns when
    the batch starts with a dictionary that has an entry under the
    integer key 1. *)
Theorem load_inputs_and_targets_refuses (use_speaker_embedding : bool) :
  (forall d rest,
     d !! 1 = None ->
     load_inputs_and_targets read_mat read_vec_flt (Dict d :: rest)
       use_speaker_embedding = Raise KeyError)
  /\ (forall name info rest,
        load_inputs_and_targets read_mat read_vec_flt (Pair name info :: rest)
          use_speaker_embedding = Raise AssertionError)
  /\ (forall batch r,
        load_inputs_and_targets read_mat read_vec_flt batch
          use_speaker_embedding = Ok r ->
        exists d rest, batch = Dict d :: rest /\ is_Some (d !! 1)).
Proof.
  split; [|split].
  - intros d rest Hd. unfold load_inputs_and_targets.
    cbn [getitem lookup list_lookup mbind result_bind bind isinstance_dict
         negb comprehension].
    assert (input_feat 0 (Dict d) = Raise KeyError) as ->; [|reflexivity].
    unfold input_feat, second. by rewrite Hd.
  - reflexivity.
  - intros batch r H. unfold load_inputs_and_targets in H.
    destruct batch as [|b rest]; [discriminate|].
    cbn [getitem lookup list_lookup mbind result_bind bind] in H.
    destruct b as [name info|d]; [discriminate|].
    exists d, rest. split; [done|].
    cbn [isinstance_dict negb comprehension] in H.
    destruct (d !! 1) eqn:Hd; [eauto|].
    assert (input_feat 0 (Dict d) = Raise KeyError) as Hf.
    { unfold input_feat, second. by rewrite Hd. }
    rewrite Hf in H. discriminate.
Qed.

End LoadClaims.

Example load_inputs_and_targets_batch :
  AsrUtils.load_inputs_and_targets Samples.read_mat Samples.read_vec_flt
    Samples.batch false
  = Ok ([[[31]; [32]; [33]]; [[11]; [12]]], [[4]; [5; 7]], None).
Proof. vm_compute. reflexivity. Qed.

(** An empty batch has no first element. *)
Example load_inputs_and_targets_empty :
  AsrUtils.load_inputs_and_targets Samples.read_mat Samples.read_vec_flt [] false
  = Raise IndexError.
Proof. reflexivity. Qed.

(** The batches of [make_batchset] hold pairs, which the assertion on the
    first element of the batch refuses. *)
Example load_inputs_and_targets_pairs :
  AsrUtils.load_inputs_and_targets Samples.read_mat Samples.read_vec_flt
    [AsrUtils.Pair "a" (Samples.utt1).2] false
  = Raise AssertionError.
Proof. vm_compute. reflexivity. Qed.

Lemma samples_loadable :
  Forall (LoadSpec.loadable Samples.read_mat Samples.read_vec_flt false)
    Samples.batch.
Proof.
  unfold Samples.batch.
  apply List.Forall_cons;
    [|apply List.Forall_cons;
       [|apply List.Forall_cons; [|apply List.Forall_nil]]].
  all: unfold LoadSpec.loadable.
  all: split; [|split; [|discriminate]].
  - exists "feats.ark:a", [[11]; [12]]. split; vm_compute; reflexivity.
  - exists ["5"; "7"], [5; 7]. split; vm_compute; reflexivity.
  - exists "feats.ark:b", [[21]; [22]; [23]; [24]; [25]].
    split; vm_compute; reflexivity.
  - exists [], []. split; vm_compute; reflexivity.
  - exists "feats.ark:c", [[31]; [32]; [33]]. split; vm_compute; reflexivity.
  - exists ["4"], [4]. split; vm_compute; reflexivity.
Qed.

(** At the sample batch: the sample without tokens is dropped and the
    three-frame matrix comes first. *)
Lemma load_inputs_and_targets_spec_witness :
  let xs := [[[31]; [32]; [33]]; [[11]; [12]]] in
  let ys := [[4]; [5; 7]] in
  (length xs = length ys
   /\ Forall (fun y => y <> []) ys
   /\ StronglySorted (fun a b => (length b <= length a)%nat) xs)
  /\ exists r,
       AsrUtils.load_inputs_and_targets Samples.read_mat Samples.read_vec_flt
         Samples.batch false = Ok r.
Proof.
  intros xs ys.
  destruct (load_inputs_and_targets_spec _ _ Samples.read_mat
              Samples.read_vec_flt Samples.batch false) as [Hspec Hret];
    [discriminate|].
  split.
  - destruct (Hspec xs ys None) as (Hlen & Hne & Hs & _);
      [vm_compute; reflexivity|auto].
  - eapply Hret; [reflexivity | apply samples_loadable].
Defined.

(** ** [check_install.py] *)

Section CheckInstallClaims.

Import CheckInstall.

(** A library that cannot be imported and has no pinned version is
    reported at warning level and the loop goes on. *)
Lemma check_library_missing (env : environment) (st : state) (idx : nat)
  (name : string) :
  import_module env name = Raise ImportError ->
  check_library env st (idx, (name, None))
  = Ok (mark (warn st ("--> " +:+ name +:+ " is not installed.")) idx false).
Proof. intros H. cbn. unfold check_installed. by rewrite H. Qed.

(** A library whose version differs from the pinned one is reported at
    warning level and the loop goes on. *)
Lemma check_library_mismatch (env : environment) (st : state) (idx : nat)
  (name version v : string) :
  import_module env name = Ok {| version_attr := Some v |} ->
  v <> version ->
  exists st',
    check_library env st (idx, (name, Some version)) = Ok st'
    /\ last (log st')
       = Some (WARNING,
               "--> " +:+ name +:+ " version is not matched. please install "
               +:+ name +:+ "==" +:+ version +:+ ".").
Proof.
  intros H Hne. cbn. unfold check_installed, check_version. rewrite !H. cbn.
  apply String.eqb_neq in Hne. rewrite Hne.
  eexists. split; [reflexivity|]. cbn. apply last_snoc.
Qed.

(** A library that cannot be imported and has a pinned version stops the
    script: the second import of the loop body raises [ImportError]
    outside of any handler for it. *)
Lemma check_library_missing_pinned (env : environment) (st : state) (idx : nat)
  (name version : string) :
  import_module env name = Raise ImportError ->
  check_library env st (idx, (name, Some version))
  = Raise (ImportError,
           mark (warn st ("--> " +:+ name +:+ " is not installed.")) idx false).
Proof.
  intros H. cbn. unfold check_installed, check_version. by rewrite !H.
Qed.

(** C2 fails on the code: with the requirement [foo==1.0] and no module
    [foo], the script logs the warning that foo is not installed and then
    ends with an uncaught [ImportError]; the records that follow the loop
    are never logged. *)
Theorem check_install_pinned_missing :
  check_install Samples.env ["foo==1.0"]
  = Raise (ImportError,
           {| log := [(INFO, "python version = 3.7.3");
                      (INFO, "library availableness check start.");
                      (INFO, "# libraries to be checked = 4");
                      (WARNING, "--> foo is not installed.")];
              is_collect_installed_list := [Some false; None; None; None] |}).
Proof. vm_compute. reflexivity. Qed.

(** The same requirement without the pin is reported and the script runs
    to its end. *)
Example check_install_unpinned_missing :
  exists st,
    check_install Samples.env ["foo"] = Ok st
    /\ (WARNING, "--> foo is not installed.") ∈ log st
    /\ last (log st)
       = Some (INFO, "please try to setup again and then re-run this script.").
Proof.
  eexists. split; [vm_compute; reflexivity|].
  split; [|reflexivity].
  apply list_elem_of_In. cbn. tauto.
Qed.

End CheckInstallClaims.

(** ** [Frontend.forward] *)

Section FrontendClaims.

Import Frontend.

Context {ComplexTensor DNN_WPE_module DNN_MVDR_module StageError : Type}.
Variable shape : ComplexTensor -> list nat.
Variable wpe_forward :
  DNN_WPE_module -> ComplexTensor -> lengths ->
  result StageError (ComplexTensor * lengths).
Variable beamformer_forward :
  DNN_MVDR_module -> ComplexTensor -> lengths ->
  result StageError (ComplexTensor * lengths).

Local Abbreviation Frontend := (Frontend DNN_WPE_module DNN_MVDR_module).
Local Abbreviation forward := (forward shape wpe_forward beamformer_forward).
Local Abbreviation call_wpe := (call_wpe wpe_forward).
Local Abbreviation call_beamformer := (call_beamformer beamformer_forward).

(** The lengths as [forward] hands them on. *)
Local Abbreviation as_tensor ilens :=
  (if is_tensor ilens then ilens else from_numpy ilens).

(** The two checks at the head of [forward] pass on an input of 3 or 4
    dimensions whose first dimension is the number of lengths. *)
Lemma forward_checks (self : Frontend) (swapped : bool) (x : ComplexTensor)
  (ilens : lengths) :
  head (shape x) = Some (length (values ilens)) ->
  forward self swapped x ilens
  = if negb ((dim shape x =? 3)%nat || (dim shape x =? 4)%nat)
    then Raise (InputDim (dim shape x))
    else if (dim shape x =? 4)%nat
         then
           let '(use_wpe_, use_beamformer_) :=
             if training self && use_beamformer self
                && use_wpe self && use_dnn_mask_for_wpe self
             then (negb swapped, swapped)
             else (use_wpe self, use_beamformer self) in
           '(h, l) ← (if use_wpe_ : bool then call_wpe self x (as_tensor ilens)
                      else Ok (x, as_tensor ilens));
           (if use_beamformer_ : bool then call_beamformer self h l
            else Ok (h, l))
         else Ok (x, as_tensor ilens).
Proof.
  intros Hlen. unfold Frontend.forward, len.
  destruct (shape x) as [|n sh] eqn:Hs; [discriminate|].
  injection Hlen as ->. cbn [mbind result_bind bind].
  rewrite Nat.eqb_refl. cbn [negb].
  destruct (negb _); [reflexivity|].
  destruct (dim shape x =? 4)%nat; [|reflexivity].
  destruct (training self && use_beamformer self && use_wpe self
            && use_dnn_mask_for_wpe self).
  - destruct swapped; cbn.
    + by destruct (Frontend.call_beamformer _ _ _ _) as [[h l]|].
    + by destruct (Frontend.call_wpe _ _ _ _) as [[h l]|].
  - destruct (use_wpe self); cbn.
    + destruct (Frontend.call_wpe _ _ _ _) as [[h l]|]; cbn; [|done].
      destruct (use_beamformer self); [|done].
      by destruct (Frontend.call_beamformer _ _ _ _) as [[h' l']|].
    + destruct (use_beamformer self); [|done].
      by destruct (Frontend.call_beamformer _ _ _ _) as [[h' l']|].
Qed.

(** C5: on a 3-dimensional input with as many lengths as [len(x)],
    [forward] returns [x] itself as first result, whatever the stages
    enabled, the training mode and the draw; the stage modules are not
    called, whatever they compute. *)
Theorem forward_3dim (self : Frontend) (swapped : bool) (x : ComplexTensor)
  (ilens : lengths) :
  dim shape x = 3%nat ->
  head (shape x) = Some (length (values ilens)) ->
  forward self swapped x ilens = Ok (x, as_tensor ilens).
Proof.
  intros Hd Hlen. rewrite forward_checks by done. by rewrite Hd.
Qed.

(** C6: an input of fewer than 3 or more than 4 dimensions always makes
    [forward] raise; with as many lengths as [len(x)], [forward] raises
    the error on the input dimension exactly when the input has fewer than
    3 or more than 4 dimensions; and on an input of 3 or 4 dimensions it
    never raises that error. *)
Theorem forward_dim_error (self : Frontend) (swapped : bool) (x : ComplexTensor)
  (ilens : lengths) :
  ((dim shape x < 3 \/ 4 < dim shape x)%nat ->
   exists e, forward self swapped x ilens = Raise e
             /\ (e = LenOfZeroDim \/ e = InputDim (dim shape x)
                 \/ exists n m, e = LengthMismatch n m))
  /\ (head (shape x) = Some (length (values ilens)) ->
      forall d,
        forward self swapped x ilens = Raise (InputDim d)
        <-> d = dim shape x /\ (dim shape x < 3 \/ 4 < dim shape x)%nat)
  /\ (dim shape x = 3%nat \/ dim shape x = 4%nat ->
      forall d, forward self swapped x ilens <> Raise (InputDim d)).
Proof.
  assert (Hstage : forall d (h : ComplexTensor) (l : lengths),
             call_wpe self h l <> Raise (InputDim d)
             /\ call_beamformer self h l <> Raise (InputDim d)).
  { intros d h l. unfold Frontend.call_wpe, Frontend.call_beamformer. split.
    - destruct (wpe self); [|done]. by destruct (wpe_forward _ _ _).
    - destruct (beamformer self); [|done]. by destruct (beamformer_forward _ _ _). }
  assert (Hok : (dim shape x = 3 \/ dim shape x = 4)%nat ->
                forall d, forward self swapped x ilens <> Raise (InputDim d)).
  { intros Hd d. unfold Frontend.forward.
    destruct (len shape x) as [n|e] eqn:Hn; cbn [mbind result_bind bind].
    2:{ unfold len in Hn. destruct (shape x); [|done].
        injection Hn as <-. done. }
    destruct (negb (n =? _)%nat); [done|].
    replace (negb ((dim shape x =? 3)%nat || (dim shape x =? 4)%nat))
      with false by (destruct Hd as [-> | ->]; reflexivity).
    destruct (dim shape x =? 4)%nat; [|done].
    destruct (if training self && _ && _ && _ then _ else _) as [w b].
    destruct w; cbn.
    - destruct (Frontend.call_wpe _ _ _ _) as [[h l]|e] eqn:Hw; cbn.
      + destruct b; [|done].
        destruct (Frontend.call_beamformer _ _ _ _) as [[h' l']|e] eqn:Hb; [done|].
        intros [= ->]. by destruct (Hstage d h l) as [_ []].
      + intros [= ->]. by edestruct Hstage as [[] _].
    - destruct b; [|done].
      destruct (Frontend.call_beamformer _ _ _ _) as [[h' l']|e] eqn:Hb; [done|].
      intros [= ->]. by edestruct Hstage as [_ []]. }
  split; [|split; [|exact Hok]].
  - intros Hd. unfold Frontend.forward, len.
    destruct (shape x) as [|n sh] eqn:Hs; [eauto|].
    cbn [mbind result_bind bind].
    destruct (negb (n =? _)%nat); [eauto 10|].
    replace (negb ((dim shape x =? 3)%nat || (dim shape x =? 4)%nat))
      with true; [eauto|].
    symmetry. apply negb_true_iff, orb_false_iff.
    split; apply Nat.eqb_neq; lia.
  - intros Hlen d. split.
    + intros H.
      destruct (decide (dim shape x = 3 \/ dim shape x = 4)%nat) as [Hd|Hd].
      { by destruct (Hok Hd d). }
      rewrite forward_checks in H by done.
      replace (negb ((dim shape x =? 3)%nat || (dim shape x =? 4)%nat))
        with true in H.
      * injection H as <-. split; [done|lia].
      * symmetry. apply negb_true_iff, orb_false_iff.
        split; apply Nat.eqb_neq; lia.
    + intros [-> Hd]. rewrite forward_checks by done.
      replace (negb ((dim shape x =? 3)%nat || (dim shape x =? 4)%nat))
        with true; [done|].
      symmetry. apply negb_true_iff, orb_false_iff.
      split; apply Nat.eqb_neq; lia.
Qed.

(** C7: on a 4-dimensional input with as many lengths as [len(x)]: in
    training mode with [use_beamformer], [use_wpe] and
    [use_dnn_mask_for_wpe] all set, the result of [forward] is the result
    of exactly one stage module on the input, the dereverberation module
    for one outcome of the draw and the beamforming module for the other
    outcome; in every other case it is the result of each enabled stage
    module, the dereverberation module on the input first and the
    beamforming module on what it returned.  An exception of a stage
    module is the exception of [forward]. *)
Theorem forward_4dim (self : Frontend) (swapped : bool) (x : ComplexTensor)
  (ilens : lengths) :
  dim shape x = 4%nat ->
  head (shape x) = Some (length (values ilens)) ->
  (training self && use_beamformer self && use_wpe self
   && use_dnn_mask_for_wpe self = true ->
   forward self swapped x ilens
   = if swapped
     then match beamformer self with
          | None => Raise NotCallable
          | Some m =>
              match beamformer_forward m x (as_tensor ilens) with
              | Ok r => Ok r
              | Raise e => Raise (Stage e)
              end
          end
     else match wpe self with
          | None => Raise NotCallable
          | Some m =>
              match wpe_forward m x (as_tensor ilens) with
              | Ok r => Ok r
              | Raise e => Raise (Stage e)
              end
          end)
  /\ (training self && use_beamformer self && use_wpe self
      && use_dnn_mask_for_wpe self = false ->
      forward self swapped x ilens
      = match (if use_wpe self
               then match wpe self with
                    | None => Raise NotCallable
                    | Some m =>
                        match wpe_forward m x (as_tensor ilens) with
                        | Ok r => Ok r
                        | Raise e => Raise (Stage e)
                        end
                    end
               else Ok (x, as_tensor ilens)) with
        | Raise e => Raise e
        | Ok (h, l) =>
            if use_beamformer self
            then match beamformer self with
                 | None => Raise NotCallable
                 | Some m =>
                     match beamformer_forward m h l with
                     | Ok r => Ok r
                     | Raise e => Raise (Stage e)
                     end
                 end
            else Ok (h, l)
        end).
Proof.
  intros Hd Hlen. rewrite forward_checks by done. rewrite Hd. cbn [Nat.eqb negb orb].
  unfold Frontend.call_wpe, Frontend.call_beamformer.
  split; intros ->.
  - destruct swapped; cbn.
    + reflexivity.
    + destruct (wpe self) as [m|]; [|reflexivity].
      by destruct (wpe_forward m x _) as [[h l]|].
  - destruct (use_wpe self); cbn; [|reflexivity].
    destruct (wpe self) as [m|]; [|reflexivity].
    by destruct (wpe_forward m x _) as [[h l]|].
Qed.

End FrontendClaims.

Section FrontendSamples.

Import Frontend.

Local Abbreviation sample_forward :=
  (forward (fun s : list nat => s) Samples.wpe_forward Samples.beamformer_forward).
Local Abbreviation traced_forward :=
  (forward fst Samples.traced_wpe_forward Samples.traced_beamformer_forward).

(** C5 at a batch of two utterances of 100 frames and 257 bins, for the
    frontend with both stages in training mode. *)
Lemma forward_3dim_witness :
  sample_forward Samples.frontend true [2; 100; 257]%nat (PyList [100; 90])
  = Ok ([2; 100; 257]%nat, LongTensor [100; 90]).
Proof.
  apply (forward_3dim (fun s : list nat => s) Samples.wpe_forward
           Samples.beamformer_forward Samples.frontend true
           [2; 100; 257]%nat (PyList [100; 90])); reflexivity.
Defined.

(** C6 at a 2-dimensional input. *)
Lemma forward_dim_error_witness :
  sample_forward Samples.frontend true [2; 100]%nat (PyList [100; 90])
  = Raise (InputDim 2).
Proof.
  destruct (forward_dim_error (fun s : list nat => s) Samples.wpe_forward
              Samples.beamformer_forward Samples.frontend true
              [2; 100]%nat (PyList [100; 90])) as (_ & Hiff & _).
  apply (Hiff eq_refl 2%nat). split; [reflexivity|]. left. cbn. lia.
Defined.

(** C7 at a 4-channel input, on tensors that record the stages they went
    through: in training mode one stage runs, the dereverberation (which
    keeps the channels) or the beamformer (which removes them); in
    evaluation mode both run, the dereverberation first. *)
Lemma forward_4dim_witness :
  traced_forward Samples.frontend false ([2; 100; 4; 257]%nat, [])
    (PyList [100; 90])
  = Ok (([2; 100; 4; 257]%nat, ["wpe"]), LongTensor [100; 90])
  /\ traced_forward Samples.frontend true ([2; 100; 4; 257]%nat, [])
       (PyList [100; 90])
     = Ok (([2; 100; 257]%nat, ["beamformer"]), LongTensor [100; 90])
  /\ traced_forward (train Samples.frontend false) true
       ([2; 100; 4; 257]%nat, []) (PyList [100; 90])
     = Ok (([2; 100; 257]%nat, ["wpe"; "beamformer"]), LongTensor [100; 90]).
Proof.
  split; [|split].
  - destruct (forward_4dim fst Samples.traced_wpe_forward
                Samples.traced_beamformer_forward Samples.frontend false
                ([2; 100; 4; 257]%nat, []) (PyList [100; 90]) eq_refl eq_refl)
      as [H _].
    rewrite H; reflexivity.
  - destruct (forward_4dim fst Samples.traced_wpe_forward
                Samples.traced_beamformer_forward Samples.frontend true
                ([2; 100; 4; 257]%nat, []) (PyList [100; 90]) eq_refl eq_refl)
      as [H _].
    rewrite H; reflexivity.
  - destruct (forward_4dim fst Samples.traced_wpe_forward
                Samples.traced_beamformer_forward
                (train Samples.frontend false) true
                ([2; 100; 4; 257]%nat, []) (PyList [100; 90]) eq_refl eq_refl)
      as [_ H].
    rewrite H; reflexivity.
Defined.

End FrontendSamples.

(** ** [WaveNetResidualBlock.forward] *)

Section ResidualBlockClaims.

Import ResidualBlock.

Context {T S W : Type} `{Torch T S W}.

Lemma conditioning_spec (layer : option (Conv1d W)) (c : option T) (xa xb : T) :
  conditioning layer c (xa, xb)
  = match c with
    | Some c =>
        pc ← call TypeError layer c;
        '(ca, cb) ← halves pc;
        xa' ← add xa ca; xb' ← add xb cb; Ok (xa', xb')
    | None => Ok (xa, xb)
    end.
Proof.
  destruct c as [c|]; [|reflexivity]. cbn.
  destruct (call TypeError layer c) as [pc|]; [|reflexivity]. cbn.
  by destruct (halves pc) as [[ca cb]|].
Qed.

(** The code computes what the specification words, on the convolution
    input that dropout leaves. *)
Lemma forward_spec_on (self : WaveNetResidualBlock S W) (x : T) (c g : option T) :
  forward self x c g
  = residual_block_spec self
      (F_dropout x (dropout_rate self) (training self)) x c g.
Proof.
  unfold forward, residual_block_spec, gated_activation_spec.
  destruct (conv_forward (conv self) _) as [y|]; [|reflexivity].
  cbn [mbind result_bind bind].
  destruct (halves y) as [[xa xb]|]; [|reflexivity].
  cbn [mbind result_bind bind].
  rewrite conditioning_spec.
  destruct (match c with Some _ => _ | None => _ end) as [[xa1 xb1]|];
    [|reflexivity].
  cbn [mbind result_bind bind].
  rewrite conditioning_spec.
  destruct (match g with Some _ => _ | None => _ end) as [[xa2 xb2]|];
    reflexivity.
Qed.

(** C8, as the code has it: [forward] computes the dilated convolution of
    the input after dropout, split channel-wise into halves (xa, xb), adds
    the projected conditioning, when given, half to half, gates
    tanh(xa) * sigmoid(xb) and returns (conv1x1_out(gated) + x) *
    sqrt(0.5) with the skip projection of the gated value, where x is the
    input before dropout; outside training mode, and when the dropout rate
    is 0, dropout does nothing and the convolution is the one of x
    itself. *)
Theorem forward_gated_residual (self : WaveNetResidualBlock S W) (x : T)
  (c g : option T) :
  forward self x c g
  = residual_block_spec self
      (F_dropout x (dropout_rate self) (training self)) x c g
  /\ (training self = false \/ is_zero (dropout_rate self) = true ->
      forward self x c g = residual_block_spec self x x c g).
Proof.
  split; [apply forward_spec_on|].
  intros Hid. rewrite forward_spec_on. by rewrite F_dropout_id.
Qed.

End ResidualBlockClaims.

Section PointwiseFacts.

Import ResidualBlock Pointwise.

Lemma sigmoid_R_pos (t : R) : (0 < sigmoid_R t)%R.
Proof.
  unfold sigmoid_R. pose proof (exp_pos (- t)).
  apply Rdiv_lt_0_compat; lra.
Qed.

Lemma tanh_0 : Rtrigo_def.tanh 0 = 0%R.
Proof.
  unfold Rtrigo_def.tanh. rewrite sinh_0. unfold Rdiv. apply Rmult_0_l.
Qed.

Lemma tanh_1_pos : (0 < Rtrigo_def.tanh 1)%R.
Proof.
  unfold Rtrigo_def.tanh, sinh, cosh.
  pose proof (exp_pos 1). pose proof (exp_pos (Ropp 1)).
  assert (exp (Ropp 1) < exp 1)%R by (apply exp_increasing; lra).
  apply Rdiv_lt_0_compat; lra.
Qed.

Lemma sqrt_half_pos : (0 < sqrt (1 / 2))%R.
Proof. apply sqrt_lt_R0. lra. Qed.

(** Evaluation on the real-valued instance, the operations on real
    numbers left as they are. *)
Ltac eval_pointwise :=
  lazy -[Rplus Rmult Rminus Ropp Rinv Rdiv IZR sqrt exp Rtrigo_def.tanh
         sigmoid_R Rlt_dec].

(** C8 as stated fails in training mode with a positive dropout rate:
    for the block [Samples.gated_block] and the input of shape (1, 1, 1)
    holding 1, when dropout drops the element, the convolution sees 0 and
    the residual output is sqrt(0.5), whereas the formula on the
    convolution of x gives (tanh(1) * sigmoid(0) + 1) * sqrt(0.5). *)
Lemma forward_dropout_counterexample :
  exists (self : WaveNetResidualBlock R weights) out s out' s',
    Samples.gated_block = Ok self
    /\ forward self [1%R] None None = Ok (out, s)
    /\ residual_block_spec self [1%R] [1%R] None None = Ok (out', s')
    /\ out <> out'.
Proof.
  do 5 eexists. split; [eval_pointwise; reflexivity|].
  split.
  { eval_pointwise. destruct (Rlt_dec 0 (1 / 2)); [reflexivity|lra]. }
  split; [eval_pointwise; reflexivity|].
  intros Heq. injection Heq as Heq.
  replace (1 * 0 + 0 + 0)%R with 0%R in Heq by lra.
  replace (1 * 1 + 0 + 0)%R with 1%R in Heq by lra.
  rewrite tanh_0 in Heq.
  pose proof sqrt_half_pos as Hs.
  pose proof (Rmult_lt_0_compat _ _ tanh_1_pos (sigmoid_R_pos (0 * 1 + 0 + 0))) as Ht.
  apply Rmult_eq_reg_r in Heq; lra.
Qed.

(** Outside training mode the same block computes the formula on the
    convolution of x. *)
Lemma forward_gated_residual_witness :
  exists (self : WaveNetResidualBlock R weights),
    Samples.gated_block = Ok self
    /\ forward (eval self) [1%R] None None
       = residual_block_spec (eval self) [1%R] [1%R] None None.
Proof.
  eexists. split; [eval_pointwise; reflexivity|].
  refine (proj2 (forward_gated_residual _ _ _ _) _). left. reflexivity.
Defined.

End PointwiseFacts.

Section ShapeFacts.

Import ResidualBlock Shapes.

(** The default block keeps the shape of its input and returns a skip
    output of [skip_channels] channels. *)
Example forward_default_shape :
  exists self : WaveNetResidualBlock unit unit,
    Samples.default_block = Ok self
    /\ forward self [1; 64; 10]%nat (Some [1; 80; 10]%nat) None
       = Ok ([1; 64; 10]%nat, Some [1; 64; 10]%nat).
Proof. eexists. split; vm_compute; reflexivity. Qed.

(** C9 fails on the code for [use_causal_conv=True]: the convolution is
    padded on both sides by [(kernel_size - 1) * dilation] and [forward]
    never removes the additional frames, so on an input of shape (1, 64,
    10) the sum with the residual input raises, and on an input of shape
    (1, 64, 1) broadcasting gives a residual output of shape (1, 64, 3). *)
Theorem forward_causal_shape :
  exists self : WaveNetResidualBlock unit unit,
    Samples.causal_block = Ok self
    /\ use_causal_conv self = true
    /\ padding (conv self) = 2
    /\ forward self [1; 64; 10]%nat None None = Raise RuntimeError
    /\ forward self [1; 64; 1]%nat None None
       = Ok ([1; 64; 3]%nat, Some [1; 64; 3]%nat).
Proof. eexists. repeat split; vm_compute; reflexivity. Qed.

Lemma broadcast_rev_same (l : list nat) : broadcast_rev l l = Ok l.
Proof.
  induction l as [|n l IH]; [done|]. cbn. rewrite IH. cbn.
  by rewrite Nat.eqb_refl.
Qed.

Lemma broadcast_same (x : list nat) : broadcast x x = Ok x.
Proof.
  unfold broadcast. rewrite broadcast_rev_same. cbn. by rewrite rev_involutive.
Qed.

(** A tensor with a single frame is broadcast along the time axis. *)
Lemma broadcast_frame (b ch t : nat) :
  broadcast [b; ch; t] [b; ch; 1%nat] = Ok [b; ch; t].
Proof.
  unfold broadcast. cbn. rewrite !Nat.eqb_refl. cbn.
  destruct (t =? 1)%nat; reflexivity.
Qed.

(** A convolution whose padding makes up for its receptive field keeps
    the number of frames. *)
Lemma conv_shape_same_length (c : Conv1d unit) (b ch t : nat) :
  Z.of_nat ch = in_channels c -> 0 < out_channels c -> 0 < kernel_size c ->
  0 < dilation c -> 2 * padding c = dilation c * (kernel_size c - 1) ->
  (0 < t)%nat ->
  conv_shape c [b; ch; t] = Ok [b; Z.to_nat (out_channels c); t].
Proof.
  intros Hch Ho Hk Hd Hp Ht. unfold conv_shape.
  assert (0 <= padding c) by nia.
  replace (Z.of_nat t + 2 * padding c - dilation c * (kernel_size c - 1))
    with (Z.of_nat t) by lia.
  rewrite Nat2Z.id.
  replace (_ && _) with true; [done|].
  symmetry. repeat (apply andb_true_iff; split); lia.
Qed.

(** An even number of channels is split into two halves. *)
Lemma halves_shape (b t : nat) (ch : Z) :
  0 < ch -> ch `mod` 2 = 0 ->
  halves (T := list nat) [b; Z.to_nat ch; t]
  = Ok ([b; Z.to_nat (ch `div` 2); t], [b; Z.to_nat (ch `div` 2); t]).
Proof.
  intros Hpos Heven. unfold halves. cbn [size torch mbind result_bind bind].
  unfold getitem. cbn [lookup list_lookup mbind result_bind bind].
  rewrite Z2Nat.id by lia.
  cbn [tensor_split torch]. unfold split_shape.
  cbn [lookup list_lookup].
  assert (Hh : 0 < ch `div` 2).
  { apply Z.div_str_pos. pose proof (Z.div_mod ch 2). lia. }
  replace (ch `div` 2 <? 0)%Z with false by lia.
  replace (ch `div` 2 =? 0)%Z with false by lia.
  assert (Hch : Z.to_nat ch = (Z.to_nat (ch `div` 2) + Z.to_nat (ch `div` 2))%nat).
  { pose proof (Z.div_mod ch 2). lia. }
  set (h := Z.to_nat (ch `div` 2)) in *.
  assert (0 < h)%nat by (subst h; lia).
  rewrite Hch. cbn [chunk_sizes].
  replace (h + h <=? h)%nat with false by (symmetry; apply Nat.leb_gt; lia).
  destruct (h + h)%nat as [|fuel] eqn:Hf; [lia|]. cbn [chunk_sizes].
  replace (S fuel - h)%nat with h by lia.
  rewrite Nat.leb_refl. reflexivity.
Qed.

(** The part of C9 that the code meets: without [use_causal_conv], on an
    input of shape (B, residual_channels, T) with local conditioning of
    shape (B, aux_channels, T) and global conditioning of shape (B,
    global_channels, 1), when given, the residual output has the shape of
    the input, and the skip output is present exactly when [skip_channels
    > 0] and then has shape (B, skip_channels, T). *)
Theorem forward_non_causal_shape
  (kernel_size_ residual_channels gate_channels skip_channels_ aux_channels
     global_channels dilation_ : Z) (bias_ : bool) (b t : nat)
  (c g : option (list nat)) (self : WaveNetResidualBlock unit unit) :
  init kernel_size_ residual_channels gate_channels skip_channels_ aux_channels
    global_channels tt dilation_ bias_ false tt tt tt tt tt = Ok self ->
  0 < kernel_size_ -> 0 < dilation_ -> 0 < residual_channels ->
  0 < gate_channels -> gate_channels `mod` 2 = 0 -> (0 < t)%nat ->
  (c = None \/ (0 < aux_channels /\ c = Some [b; Z.to_nat aux_channels; t])) ->
  (g = None
   \/ (0 < global_channels /\ g = Some [b; Z.to_nat global_channels; 1%nat])) ->
  forward self [b; Z.to_nat residual_channels; t] c g
  = Ok ([b; Z.to_nat residual_channels; t],
        if (0 <? skip_channels_)%Z
        then Some [b; Z.to_nat skip_channels_; t]
        else None).
Proof.
  intros Hinit Hk Hd Hres Hgate Heven Ht Hc Hg.
  unfold init in Hinit.
  destruct ((kernel_size_ - 1) `mod` 2 =? 0)%Z eqn:Hodd; [|discriminate].
  apply Z.eqb_eq in Hodd. cbn in Hinit. apply Ok_inj in Hinit as <-.
  assert (Hh : 0 < gate_channels `div` 2).
  { apply Z.div_str_pos. pose proof (Z.div_mod gate_channels 2). lia. }
  assert (Hpad : 2 * ((kernel_size_ - 1) `div` 2 * dilation_)
                 = dilation_ * (kernel_size_ - 1)).
  { pose proof (Z.div_mod (kernel_size_ - 1) 2). lia. }
  unfold forward.
  cbn [F_dropout torch conv_forward dropout_rate training conv conv1x1_aux
       conv1x1_glo conv1x1_out tanh sigmoid mul add mul_scalar sqrt_half].
  rewrite conv_shape_same_length by (cbn; lia).
  cbn [mbind result_bind bind out_channels].
  rewrite halves_shape by done.
  cbn [mbind result_bind bind].
  set (half := [b; Z.to_nat (gate_channels `div` 2); t]).
  assert (Hcond1 : conditioning (T := list nat)
                     (if (0 <? aux_channels)%Z
                      then Some (Conv1d1x1 aux_channels gate_channels false tt)
                      else None) c (half, half) = Ok (half, half)).
  { destruct Hc as [-> | [Haux ->]]; [done|].
    replace (0 <? aux_channels)%Z with true by lia.
    unfold conditioning, call. cbn [conv_forward torch].
    rewrite conv_shape_same_length by (cbn; lia).
    cbn [mbind result_bind bind out_channels Conv1d1x1].
    rewrite halves_shape by done.
    cbn [mbind result_bind bind fst snd add torch].
    fold half. rewrite broadcast_same. reflexivity. }
  assert (Hcond2 : conditioning (T := list nat)
                     (if (0 <? global_channels)%Z
                      then Some (Conv1d1x1 global_channels gate_channels false tt)
                      else None) g (half, half) = Ok (half, half)).
  { destruct Hg as [-> | [Hglo ->]]; [done|].
    replace (0 <? global_channels)%Z with true by lia.
    unfold conditioning, call. cbn [conv_forward torch].
    rewrite conv_shape_same_length by (cbn; lia).
    cbn [mbind result_bind bind out_channels Conv1d1x1].
    rewrite halves_shape by done.
    cbn [mbind result_bind bind fst snd add torch].
    unfold half. rewrite broadcast_frame. reflexivity. }
  rewrite Hcond1. cbn [mbind result_bind bind].
  rewrite Hcond2. cbn [mbind result_bind bind fst snd].
  rewrite broadcast_same. cbn [mbind result_bind bind].
  unfold skip_connection. cbn [skip_channels conv1x1_skip].
  destruct (0 <? skip_channels_)%Z eqn:Hskip.
  - unfold call. cbn [conv_forward torch]. unfold half.
    rewrite !conv_shape_same_length by (cbn; lia).
    cbn [mbind result_bind bind out_channels Conv1d1x1].
    rewrite broadcast_same. reflexivity.
  - cbn [mbind result_bind bind]. unfold half.
    rewrite conv_shape_same_length by (cbn; lia).
    cbn [mbind result_bind bind out_channels Conv1d1x1].
    rewrite broadcast_same. reflexivity.
Qed.

End ShapeFacts.

(** * Further properties *)

(** ** [pad_ndarray_list] *)

Section PadNdarrayList.

Import AsrUtils.

Context {A : Type}.

Lemma foldl_max_spec (l : list nat) :
  forall n, (n <= foldl Nat.max n l)%nat
            /\ Forall (fun k => (k <= foldl Nat.max n l)%nat) l
            /\ (foldl Nat.max n l = n \/ foldl Nat.max n l ∈ l).
Proof.
  induction l as [|k l IH]; intros n; cbn.
  - split; [lia|]. split; [constructor | by left].
  - destruct (IH (n `max` k)%nat) as (Hn & Hall & Hin).
    split; [lia|]. split.
    + constructor; [lia|done].
    + destruct Hin as [Heq | Hin].
      * destruct (Nat.max_spec n k) as [[_ Hm] | [_ Hm]]; rewrite Hm in Heq |- *.
        -- right. rewrite Heq. by left.
        -- by left.
      * right. by right.
Qed.

(** [max] returns an element that no element exceeds. *)
Lemma max_of_spec (l : list nat) (m : nat) :
  max_of l = Ok m -> Forall (fun k => (k <= m)%nat) l /\ m ∈ l.
Proof.
  destruct l as [|n l]; [discriminate|]. cbn. intros H. apply Ok_inj in H as <-.
  destruct (foldl_max_spec l n) as (Hn & Hall & Hin).
  split; [by constructor|].
  destruct Hin as [-> | Hin]; [by left | by right].
Qed.

(** Row [i] after the assignments of the arrays [l] to the rows [k],
    [k + 1], ... *)
Lemma foldl_assign_row_lookup (l : list (list A)) :
  forall (k : nat) (batch_pad : list (list A)) (i : nat),
  foldl assign_row batch_pad (zip (seq k (length l)) l) !! i
  = match (if decide (k <= i)%nat then l !! (i - k)%nat else None) with
    | Some b => (fun row => b ++ drop (length b) row) <$> batch_pad !! i
    | None => batch_pad !! i
    end.
Proof.
  induction l as [|b l IH]; intros k batch_pad i; cbn [length seq zip zip_with foldl].
  - destruct (decide _); [by rewrite lookup_nil|done].
  - rewrite IH. unfold assign_row. cbn [fst snd].
    destruct (decide (S k <= i)%nat) as [Hlt|Hge].
    + destruct (decide (k <= i)%nat); [|lia].
      replace (i - k)%nat with (S (i - S k)) by lia. cbn [lookup list_lookup].
      rewrite list_lookup_alter_ne by lia. done.
    + destruct (decide (k <= i)%nat) as [Hle|Hgt].
      * assert (i = k) as -> by lia. rewrite Nat.sub_diag. cbn [lookup list_lookup].
        by rewrite list_lookup_alter_eq.
      * rewrite list_lookup_alter_ne by lia. done.
Qed.

(** The padded batch: an empty batch is refused; otherwise there is one
    row per array, every row has the length of the longest array and
    starts with the frames of its array, followed by padding, so that
    cutting a row at the length of its array gives the array back. *)
Theorem pad_ndarray_list_spec (batch : list (list A)) (pad_value : A) :
  (batch = [] -> pad_ndarray_list batch pad_value = Raise ValueError)
  /\ (batch <> [] ->
      exists out maxlen,
        pad_ndarray_list batch pad_value = Ok out
        /\ length out = length batch
        /\ Forall (fun b => (length b <= maxlen)%nat) batch
        /\ (exists b, b ∈ batch /\ length b = maxlen)
        /\ Forall (fun row => length row = maxlen) out
        /\ forall i b,
             batch !! i = Some b ->
             out !! i = Some (b ++ replicate (maxlen - length b) pad_value)
             /\ exists row, out !! i = Some row /\ take (length b) row = b).
Proof.
  split; [by intros ->|].
  intros Hne. unfold pad_ndarray_list.
  destruct (max_of (length <$> batch)) as [maxlen|e] eqn:Hmax.
  2:{ destruct batch; [done|discriminate]. }
  destruct (max_of_spec _ _ Hmax) as [Hle Hin].
  rewrite Forall_fmap in Hle.
  apply list_elem_of_fmap in Hin as (bmax & Hbmax & Hin).
  cbn [mbind result_bind bind].
  destruct batch as [|b0 batch']; [done|].
  cbn [getitem lookup list_lookup mbind result_bind bind].
  set (batch := b0 :: batch') in *.
  set (out := foldl assign_row _ _).
  assert (Hrow : forall i b, batch !! i = Some b ->
            out !! i = Some (b ++ replicate (maxlen - length b) pad_value)).
  { intros i b Hb. unfold out, enumerate.
    rewrite foldl_assign_row_lookup.
    destruct (decide (0 <= i)%nat); [|lia].
    rewrite Nat.sub_0_r, Hb.
    rewrite lookup_replicate_2 by (by eapply lookup_lt_Some). cbn.
    by rewrite drop_replicate. }
  assert (Hlen : length out = length batch).
  { unfold out. clear. generalize (replicate maxlen pad_value). intros row.
    unfold enumerate.
    assert (forall (l : list (list A)) k bp,
              length (foldl assign_row bp (zip (seq k (length l)) l)) = length bp)
      as Hl.
    { induction l as [|b l IH]; intros k bp; cbn; [done|].
      rewrite IH. unfold assign_row. by rewrite length_alter. }
    by rewrite Hl, length_replicate. }
  exists out, maxlen. split; [done|]. split; [done|]. split; [done|].
  split; [eauto|]. split.
  - rewrite Forall_forall. intros row Hr.
    apply list_elem_of_lookup in Hr as [i Hi].
    destruct (lookup_lt_is_Some_2 batch i) as [b Hb].
    { rewrite <- Hlen. by eapply lookup_lt_Some. }
    rewrite (Hrow _ _ Hb) in Hi. injection Hi as <-.
    rewrite length_app, length_replicate.
    rewrite Forall_forall in Hle.
    specialize (Hle b (list_elem_of_lookup_2 _ _ _ Hb)). cbn in Hle. lia.
  - intros i b Hb. split; [by apply Hrow|].
    eexists. split; [by apply Hrow|].
    by rewrite take_app_length.
Qed.

End PadNdarrayList.

(** The padding of an array of three frames and an array of one. *)
Lemma pad_ndarray_list_spec_witness :
  exists out maxlen,
    AsrUtils.pad_ndarray_list [[1; 2; 3]; [4]] 0 = Ok out
    /\ length out = 2%nat
    /\ Forall (fun b => (length b <= maxlen)%nat) [[1; 2; 3]; [4]]
    /\ (exists b, b ∈ [[1; 2; 3]; [4]] /\ length b = maxlen)
    /\ Forall (fun row => length row = maxlen) out
    /\ forall i b,
         [[1; 2; 3]; [4]] !! i = Some b ->
         out !! i = Some (b ++ replicate (maxlen - length b) 0)
         /\ exists row, out !! i = Some row /\ take (length b) row = b.
Proof.
  apply (proj2 (pad_ndarray_list_spec [[1; 2; 3]; [4]] 0)). discriminate.
Defined.

(** ** More on [make_batchset] *)

(** One round of the loop, for any sorted list. *)
Lemma batch_loop_round (sorted_data : list AsrUtils.item)
  (batch_size max_length_in max_length_out : Z) (start : nat)
  (minibatch : list (list AsrUtils.item)) :
  AsrUtils.batch_loop sorted_data batch_size max_length_in max_length_out
    start minibatch
  = match AsrUtils.batch_end sorted_data batch_size max_length_in
            max_length_out start with
    | Raise e => Raise e
    | Ok end_ =>
        if decide (end_ = length sorted_data)
        then Ok (minibatch ++ [slice sorted_data start end_])
        else AsrUtils.batch_loop sorted_data batch_size max_length_in
               max_length_out end_ (minibatch ++ [slice sorted_data start end_])
    end.
Proof. apply batch_loop_unfold. Qed.

Section MakeBatchsetMore.

Import AsrUtils BatchSpec.

(** Without utterances [make_batchset] raises [IndexError], whatever its
    other arguments: the first round of the loop reads [sorted_data[0]]. *)
Theorem make_batchset_no_data
  (batch_size max_length_in max_length_out num_batches : Z) :
  make_batchset [] batch_size max_length_in max_length_out num_batches
  = Raise IndexError.
Proof.
  assert (batch_loop [] batch_size max_length_in max_length_out 0 []
          = Raise IndexError) as Hloop.
  { by rewrite batch_loop_round. }
  unfold make_batchset.
  replace (sorted ilen_of true []) with (@Ok exn _ (@nil item)) by reflexivity.
  cbn [mbind result_bind bind]. rewrite Hloop. reflexivity.
Qed.

(** A maximal length of 0 makes [make_batchset] raise
    [ZeroDivisionError] on utterances that carry their lengths:
    [max_length_in] in every case, since its division comes first, and
    [max_length_out] when that first division returns, as it does for
    lengths below [2^53] and a positive [max_length_in] up to [2^53]. *)
Theorem make_batchset_zero_length (data : list item)
  (batch_size max_length_in max_length_out num_batches : Z) :
  data <> [] -> Forall has_lengths data ->
  max_length_in = 0
  \/ (max_length_out = 0 /\ 0 < max_length_in <= 2 ^ 53 /\ Forall short data) ->
  make_batchset data batch_size max_length_in max_length_out num_batches
  = Raise ZeroDivisionError.
Proof.
  intros Hne Hall Hzero. unfold make_batchset.
  destruct (sorted_Ok ilen_of true data) as [sd Hsd].
  { eapply Forall_impl; [exact Hall|]. intros x (i & o & -> & _). eauto. }
  rewrite Hsd. cbn [mbind result_bind bind].
  destruct (sorted_spec _ _ _ _ Hsd) as [Hperm _].
  rewrite batch_loop_round.
  destruct sd as [|x sd'].
  { apply Permutation_nil_l in Hperm. by subst. }
  assert (has_lengths x) as (i & o & Hi & Ho).
  { rewrite <- Hperm in Hall. by inversion Hall. }
  assert (batch_end (x :: sd') batch_size max_length_in max_length_out 0
          = Raise ZeroDivisionError) as ->; [|reflexivity].
  unfold batch_end, getitem. cbn [lookup list_lookup mbind result_bind bind].
  rewrite Hi, Ho. cbn [mbind result_bind bind].
  destruct Hzero as [-> | (-> & Hin & Hshort)].
  - unfold int_div, truediv. by destruct (decide (0 = 0)).
  - assert (short x) as Hx.
    { rewrite <- Hperm in Hshort. by inversion Hshort. }
    pose proof (ilen_of_nonneg _ _ Hi). pose proof (Hx i (or_introl Hi)).
    rewrite (int_div_exact i max_length_in) by lia.
    cbn [mbind result_bind bind].
    unfold int_div, truediv. by destruct (decide (0 = 0)).
Qed.

(** With [num_batches > 0] at most [num_batches] batches are returned,
    and they are the first batches: put end to end they are a prefix of
    the sorted utterances, those of the other batches being left out. *)
Theorem make_batchset_num_batches (data : list item)
  (batch_size max_length_in max_length_out num_batches : Z)
  (batches : list (list item)) :
  0 < num_batches ->
  make_batchset data batch_size max_length_in max_length_out num_batches
  = Ok batches ->
  (length batches <= Z.to_nat num_batches)%nat
  /\ exists sorted_data all_batches,
       sorted ilen_of true data = Ok sorted_data
       /\ make_batchset data batch_size max_length_in max_length_out 0
          = Ok all_batches
       /\ batches = take (Z.to_nat num_batches) all_batches
       /\ concat batches `prefix_of` sorted_data.
Proof.
  intros Hn H. unfold make_batchset in *.
  apply bind_Ok in H as (sd & Hsd & H).
  apply bind_Ok in H as (mb & Hmb & H).
  destruct (decide (0 < num_batches)); [|lia]. apply Ok_inj in H as <-.
  split; [rewrite length_take; lia|].
  exists sd, mb. rewrite Hsd. cbn [mbind result_bind bind]. rewrite Hmb.
  cbn [mbind result_bind bind]. destruct (decide (0 < 0)); [lia|].
  repeat split; auto.
  eapply batch_loop_spec in Hmb as (new & -> & Hc & _); [|reflexivity].
  rewrite drop_0 in Hc. rewrite app_nil_l, <- Hc.
  exists (concat (drop (Z.to_nat num_batches) new)).
  by rewrite <- concat_app, take_drop.
Qed.

(** The batches that the loop adds: all but the last one are cut before
    the end of the sorted list, the last one reaches it. *)
Lemma batch_loop_last (sorted_data : list item)
  (batch_size max_length_in max_length_out : Z) (n : nat) :
  forall (start : nat) (minibatch result_ : list (list item)),
  n = (length sorted_data - start)%nat ->
  batch_loop sorted_data batch_size max_length_in max_length_out start minibatch
  = Ok result_ ->
  exists full last,
    result_ = minibatch ++ full ++ [last]
    /\ Forall (fun b => exists s e,
                  batch_end sorted_data batch_size max_length_in
                    max_length_out s = Ok e
                  /\ e <> length sorted_data
                  /\ b = slice sorted_data s e) full
    /\ exists s,
         batch_end sorted_data batch_size max_length_in max_length_out s
         = Ok (length sorted_data)
         /\ last = slice sorted_data s (length sorted_data).
Proof.
  induction n as [n IH] using lt_wf_ind. intros start minibatch result_ Hn H.
  rewrite batch_loop_round in H.
  destruct (batch_end _ _ _ _ start) as [end_|] eqn:Hend; [|discriminate].
  destruct (batch_end_Ok _ _ _ _ _ _ Hend)
    as (x & ilen & olen & qi & qo & q & Hx & _ & _ & _ & _ & _ & He).
  apply lookup_lt_Some in Hx.
  destruct (decide (end_ = length sorted_data)) as [Heq|Hne].
  - apply Ok_inj in H as <-. exists [], (slice sorted_data start end_).
    split; [done|]. split; [constructor|].
    exists start. by rewrite <- Heq.
  - eapply (IH (length sorted_data - end_)%nat) in H
      as (full & last & -> & Hfull & Hlast); [|lia|done].
    exists (slice sorted_data start end_ :: full), last.
    split; [by rewrite <- app_assoc|].
    split; [|done]. constructor; eauto.
Qed.

(** When every utterance is shorter than the maximal lengths, which are
    at most [2^53], and the batch size is below [2^53], the batch size is
    not reduced: every batch but the last holds exactly [batch_size]
    utterances, and the last one holds the rest, at least one and at most
    [batch_size]. *)
Theorem make_batchset_full_batches (data : list item)
  (batch_size max_length_in max_length_out : Z) (batches : list (list item)) :
  0 < batch_size < 2 ^ 53 ->
  max_length_in <= 2 ^ 53 -> max_length_out <= 2 ^ 53 ->
  Forall (fun x => exists ilen olen,
            ilen_of x = Ok ilen /\ olen_of x = Ok olen
            /\ ilen < max_length_in /\ olen < max_length_out) data ->
  make_batchset data batch_size max_length_in max_length_out 0 = Ok batches ->
  exists full last,
    batches = full ++ [last]
    /\ Forall (fun b => length b = Z.to_nat batch_size) full
    /\ (1 <= length last <= Z.to_nat batch_size)%nat.
Proof.
  intros Hb Hmi Hmo Hshort H. unfold make_batchset in H.
  apply bind_Ok in H as (sd & Hsd & H).
  apply bind_Ok in H as (mb & Hmb & H).
  destruct (decide (0 < 0)); [lia|]. apply Ok_inj in H as <-.
  destruct (sorted_spec _ _ _ _ Hsd) as [Hperm _].
  rewrite <- Hperm in Hshort.
  eapply batch_loop_last in Hmb as (full & last & -> & Hfull & s & Hs & ->);
    [|reflexivity].
  assert (Hend : forall s e,
            batch_end sd batch_size max_length_in max_length_out s = Ok e ->
            (s < length sd)%nat
            /\ e = Nat.min (length sd) (s + Z.to_nat batch_size)).
  { intros s' e He.
    destruct (batch_end_Ok _ _ _ _ _ _ He)
      as (x & ilen & olen & qi & qo & q & Hx & Hil & Hol & Hqi & Hqo & Hq & ->).
    split; [by eapply lookup_lt_Some|].
    rewrite Forall_forall in Hshort.
    destruct (Hshort x (list_elem_of_lookup_2 _ _ _ Hx))
      as (i & o & Hi & Ho & Hlti & Hlto).
    assert (i = ilen) as -> by congruence.
    assert (o = olen) as -> by congruence.
    pose proof (ilen_of_nonneg _ _ Hil). pose proof (olen_of_nonneg _ _ Hol).
    rewrite int_div_exact, Z.div_small in Hqi by lia.
    rewrite int_div_exact, Z.div_small in Hqo by lia.
    apply Ok_inj in Hqi as <-. apply Ok_inj in Hqo as <-.
    replace (1 + 0 `max` 0) with 1 in Hq by lia.
    rewrite int_div_exact, Z.div_1_r in Hq by lia.
    apply Ok_inj in Hq as <-.
    do 3 f_equal. lia. }
  exists full, (slice sd s (length sd)). split; [done|]. split.
  - eapply Forall_impl; [exact Hfull|]. intros b (s' & e & He & Hne & ->).
    destruct (Hend _ _ He) as [Hlt ->].
    unfold slice. rewrite length_take, length_drop. lia.
  - destruct (Hend _ _ Hs) as [Hlt Hlen].
    unfold slice. rewrite length_take, length_drop. lia.
Qed.

(** The batches of [make_batchset] hold pairs (utterance id, value), and
    [load_inputs_and_targets] asserts that the first element of its batch
    is a dictionary: every batch that [make_batchset] returns makes
    [load_inputs_and_targets] raise [AssertionError], whatever can be
    read. *)
Theorem make_batchset_batches_refused {Row Vec : Type}
  (read_mat : string -> result exn (list Row))
  (read_vec_flt : string -> result exn Vec)
  (data : list item)
  (batch_size max_length_in max_length_out num_batches : Z)
  (batches : list (list item)) (batch : list item)
  (use_speaker_embedding : bool) :
  make_batchset data batch_size max_length_in max_length_out num_batches
  = Ok batches ->
  batch ∈ batches ->
  load_inputs_and_targets read_mat read_vec_flt
    ((fun x => Pair x.1 x.2) <$> batch) use_speaker_embedding
  = Raise AssertionError.
Proof.
  intros H Hin.
  apply make_batchset_Ok in H as (sd & mb & _ & _ & Hall & ->).
  assert (batch ∈ mb) as Hmb.
  { destruct (decide (0 < num_batches)); [|done].
    by eapply subseteq_take. }
  rewrite Forall_forall in Hall.
  destruct (Hall _ Hmb) as (s & e & Hend & ->).
  pose proof (batch_end_nonempty _ _ _ _ _ _ Hend) as Hne.
  destruct (slice sd s e) as [|x rest]; [done|]. reflexivity.
Qed.

End MakeBatchsetMore.

Section MakeBatchsetMoreWitnesses.

Import AsrUtils.

Lemma make_batchset_zero_length_witness :
  make_batchset Samples.data 4 0 150 0 = Raise ZeroDivisionError.
Proof.
  apply make_batchset_zero_length;
    [discriminate | apply samples_have_lengths | by left].
Defined.

Lemma make_batchset_num_batches_witness :
  (length [[Samples.utt3]] <= Z.to_nat 1)%nat
  /\ exists sorted_data all_batches,
       sorted ilen_of true Samples.data = Ok sorted_data
       /\ make_batchset Samples.data 4 800 150 0 = Ok all_batches
       /\ [[Samples.utt3]] = take (Z.to_nat 1) all_batches
       /\ concat [[Samples.utt3]] `prefix_of` sorted_data.
Proof.
  apply (make_batchset_num_batches Samples.data 4 800 150 1); [lia|].
  vm_compute. reflexivity.
Defined.

Lemma make_batchset_full_batches_witness :
  exists full last,
    [[Samples.utt3; Samples.utt1]; [Samples.utt2]] = full ++ [last]
    /\ Forall (fun b => length b = Z.to_nat 2) full
    /\ (1 <= length last <= Z.to_nat 2)%nat.
Proof.
  apply (make_batchset_full_batches Samples.data 2 2000 150);
    [lia | lia | lia | |].
  - unfold Samples.data.
    apply List.Forall_cons;
      [|apply List.Forall_cons;
         [|apply List.Forall_cons; [|apply List.Forall_nil]]].
    + exists 1000, 3. repeat split; try lia; vm_compute; reflexivity.
    + exists 300, 2. repeat split; try lia; vm_compute; reflexivity.
    + exists 1700, 4. repeat split; try lia; vm_compute; reflexivity.
  - vm_compute. reflexivity.
Defined.

Lemma make_batchset_batches_refused_witness :
  load_inputs_and_targets Samples.read_mat Samples.read_vec_flt
    ((fun x => Pair x.1 x.2) <$> [Samples.utt1; Samples.utt2]) false
  = Raise AssertionError.
Proof.
  apply (make_batchset_batches_refused Samples.read_mat Samples.read_vec_flt
           Samples.data 4 800 150 0
           [[Samples.utt3]; [Samples.utt1; Samples.utt2]]).
  - vm_compute. reflexivity.
  - apply list_elem_of_In. right. left. reflexivity.
Defined.

End MakeBatchsetMoreWitnesses.

(** ** More on [load_labeldict] *)

Section LabelDictMore.

Import AsrUtils.

Lemma labeldict_line_Ok (d d' : gmap string Z) (ln : string) :
  labeldict_line d ln = Ok d' ->
  exists s i n, split ln = [s; i] /\ int i = Ok n /\ d' = <[s := n]> d.
Proof.
  unfold labeldict_line.
  destruct (split ln) as [|s [|i [|? ?]]]; try discriminate.
  intros H. inv_res. eauto 10.
Qed.

Lemma int_Raise (s : string) (e : exn) : int s = Raise e -> e = ValueError.
Proof.
  unfold int. destruct (match s with EmptyString => _ | String _ _ => _ end);
    [discriminate|]. by intros [= <-].
Qed.

Lemma labeldict_line_Raise (d : gmap string Z) (ln : string) (e : exn) :
  labeldict_line d ln = Raise e -> e = ValueError.
Proof.
  unfold labeldict_line.
  destruct (split ln) as [|s [|i [|? ?]]]; try (by intros [= <-]).
  destruct (int i) eqn:Hi; cbn; [discriminate|].
  intros [= <-]. by eapply int_Raise.
Qed.

(** A line is well formed when it splits into a symbol and an integer. *)
Lemma read_labeldict_accepts (lines : list string) :
  forall d0 : gmap string Z,
  (exists d, for_each labeldict_line d0 lines = Ok d)
  <-> Forall (fun ln => exists s i n, split ln = [s; i] /\ int i = Ok n) lines.
Proof.
  induction lines as [|ln lines IH]; intros d0; cbn [for_each].
  - split; [constructor|eauto].
  - split.
    + intros [d H]. apply bind_Ok in H as (d1 & H1 & H).
      constructor; [|apply (IH d1); eauto].
      apply labeldict_line_Ok in H1 as (s & i & n & ? & ? & _). eauto.
    + intros Hall. inversion_clear Hall as [|? ? (s & i & n & Hs & Hi) Hrest].
      assert (labeldict_line d0 ln = Ok (<[s := n]> d0)) as ->.
      { unfold labeldict_line. by rewrite Hs, Hi. }
      cbn [mbind result_bind bind]. by apply IH.
Qed.

Lemma read_labeldict_Raise (lines : list string) :
  forall (d0 : gmap string Z) (e : exn),
  for_each labeldict_line d0 lines = Raise e -> e = ValueError.
Proof.
  induction lines as [|ln lines IH]; intros d0 e; cbn [for_each];
    [discriminate|].
  destruct (labeldict_line d0 ln) as [d1|e1] eqn:H1;
    cbn [mbind result_bind bind].
  - apply IH.
  - intros [= <-]. by eapply labeldict_line_Raise.
Qed.

(** [load_labeldict] accepts exactly the files whose lines all split into
    a symbol and an integer; on any other file (a blank line, a line of
    one or three tokens, an id that is not an integer) it raises
    [ValueError]. *)
Theorem load_labeldict_accepts (lines : list string) :
  ((exists d, load_labeldict lines = Ok d)
   <-> Forall (fun ln => exists s i n, split ln = [s; i] /\ int i = Ok n) lines)
  /\ (forall e, load_labeldict lines = Raise e -> e = ValueError).
Proof.
  unfold load_labeldict, read_labeldict. split.
  - rewrite <- (read_labeldict_accepts lines {["<blank>" := 0]}). split.
    + intros [d H]. apply bind_Ok in H as (d0 & H0 & _). eauto.
    + intros [d0 ->]. cbn. destruct (decide _); eauto.
  - intros e.
    destruct (for_each labeldict_line _ lines) as [d0|e0] eqn:H0; cbn.
    + by destruct (decide _).
    + intros [= <-]. by eapply read_labeldict_Raise.
Qed.

Lemma read_labeldict_keeps (lines : list string) :
  forall (d0 d : gmap string Z) (s : string),
  for_each labeldict_line d0 lines = Ok d ->
  is_Some (d0 !! s) -> is_Some (d !! s).
Proof.
  induction lines as [|ln lines IH]; intros d0 d s H Hs; cbn in H.
  - by apply Ok_inj in H as <-.
  - apply bind_Ok in H as (d1 & H1 & H).
    eapply IH; [exact H|].
    apply labeldict_line_Ok in H1 as (t & i & n & _ & _ & ->).
    rewrite lookup_insert_is_Some. destruct (decide (t = s)); auto.
Qed.

(** The id of a symbol is the one of the last line that defines it. *)
Lemma read_labeldict_last (pre post : list string) (ln s i : string) (n : Z) :
  forall d0 d : gmap string Z,
  for_each labeldict_line d0 (pre ++ ln :: post) = Ok d ->
  split ln = [s; i] -> int i = Ok n ->
  Forall (fun ln' => head (split ln') <> Some s) post ->
  d !! s = Some n.
Proof.
  induction pre as [|ln0 pre IH]; intros d0 d H Hs Hi Hpost; cbn in H.
  - apply bind_Ok in H as (d1 & H1 & H).
    rewrite (read_labeldict_other s post d1 d H Hpost).
    unfold labeldict_line in H1. rewrite Hs, Hi in H1. cbn in H1.
    apply Ok_inj in H1 as <-. apply lookup_insert_eq.
  - apply bind_Ok in H as (d1 & H1 & H). by eapply IH.
Qed.

(** The dictionary that [load_labeldict] returns always has '<blank>' and
    '<eos>', and it has every symbol that a line of the file defines, with
    the id given by the last line that defines the symbol. *)
Theorem load_labeldict_symbols (lines : list string) (d : gmap string Z) :
  load_labeldict lines = Ok d ->
  is_Some (d !! "<blank>")
  /\ is_Some (d !! "<eos>")
  /\ forall pre post ln s i n,
       lines = pre ++ ln :: post ->
       split ln = [s; i] -> int i = Ok n ->
       Forall (fun ln' => head (split ln') <> Some s) post ->
       d !! s = Some n.
Proof.
  unfold load_labeldict, read_labeldict. intros H.
  apply bind_Ok in H as (d0 & H0 & H).
  assert (Hsub : forall s, is_Some (d0 !! s) -> is_Some (d !! s)).
  { intros s Hs. destruct (decide (is_Some (d0 !! "<eos>")));
      apply Ok_inj in H as <-; [done|].
    rewrite lookup_insert_is_Some. destruct (decide ("<eos>" = s)); auto. }
  split.
  { apply Hsub. eapply read_labeldict_keeps; [exact H0|].
    by rewrite lookup_singleton_eq. }
  split.
  { destruct (decide (is_Some (d0 !! "<eos>"))); apply Ok_inj in H as <-; [done|].
    by rewrite lookup_insert_eq. }
  intros pre post ln s i n -> Hs Hi Hpost.
  pose proof (read_labeldict_last _ _ _ _ _ _ _ _ H0 Hs Hi Hpost) as Hd0.
  destruct (decide (is_Some (d0 !! "<eos>"))) as [He|He];
    apply Ok_inj in H as <-; [done|].
  rewrite lookup_insert_ne; [done|]. intros <-. apply He. by rewrite Hd0.
Qed.

Lemma load_labeldict_symbols_witness :
  let d : gmap string Z :=
    <["<eos>" := 3]> (<["b" := 2]> (<["a" := 1]> {["<blank>" := 0]})) in
  is_Some (d !! "<blank>")
  /\ is_Some (d !! "<eos>")
  /\ forall pre post ln s i n,
       ["a 7"; "b 2"; "a 1"] = pre ++ ln :: post ->
       split ln = [s; i] -> int i = Ok n ->
       Forall (fun ln' => head (split ln') <> Some s) post ->
       d !! s = Some n.
Proof.
  intros d. apply (load_labeldict_symbols ["a 7"; "b 2"; "a 1"] d).
  vm_compute. reflexivity.
Defined.

End LabelDictMore.

(** ** [CompareValueTrigger] *)

Section CompareValueTriggerFacts.

Import AsrUtils.

Context {V : Type} (mean : list V -> V) (compare_fn : V -> V -> bool).

Local Abbreviation trigger_call := (trigger_call mean compare_fn).
Local Abbreviation trigger_run := (trigger_run mean compare_fn).

(** The values that the call compares: those of the summary and the one
    observed at this call. *)
Local Abbreviation recorded self observation :=
  (summary self ++ match observation with Some v => [v] | None => [] end).

(** One call of the trigger.  It raises, with [KeyError], exactly when
    the interval trigger fires and no value was recorded since the summary
    was initialised.  It returns [True] only when the interval trigger
    fires, a best value exists and [compare_fn] holds between the best
    value and the mean of the recorded values, and then the best value is
    kept; when the interval trigger fires and [False] is returned the mean
    becomes the best value; the summary is emptied whenever the interval
    trigger fires, and nothing but the summary changes when it does not. *)
Theorem trigger_call_spec (self : CompareValueTrigger V) (observation : option V)
  (interval : bool) :
  (trigger_call self observation interval = Raise KeyError
   <-> interval = true /\ recorded self observation = [])
  /\ forall self' fired,
       trigger_call self observation interval = Ok (self', fired) ->
       (fired = true <->
        interval = true
        /\ exists best, best_value self = Some best
                        /\ compare_fn best (mean (recorded self observation))
                           = true)
       /\ (fired = true -> best_value self' = best_value self)
       /\ (interval = true -> fired = false ->
           best_value self' = Some (mean (recorded self observation)))
       /\ (interval = true -> summary self' = [])
       /\ (interval = false ->
           best_value self' = best_value self
           /\ summary self' = recorded self observation).
Proof.
  unfold AsrUtils.trigger_call.
  assert (Hrec : match observation with
                 | Some v => summary self ++ [v]
                 | None => summary self
                 end = recorded self observation).
  { destruct observation; [done|by rewrite app_nil_r]. }
  rewrite Hrec. clear Hrec.
  destruct interval; cbn [negb].
  - destruct (recorded self observation) as [|v l] eqn:Hr.
    { split; [by split|]. intros ? ? [=]. }
    split; [split; [|by intros [_ [=]]]|].
    { destruct (best_value self) as [best|]; [|discriminate].
      by destruct (compare_fn best _). }
    intros self' fired H.
    destruct (best_value self) as [best|] eqn:Hbest.
    + destruct (compare_fn best (mean (v :: l))) eqn:Hc;
        apply Ok_inj in H; injection H as <- <-; cbn.
      * repeat split; eauto; done.
      * repeat split; try done.
        intros [_ (best' & [= <-] & Hc')]. congruence.
    + apply Ok_inj in H. injection H as <- <-. cbn.
      repeat split; try done. by intros [_ (best' & [=] & _)].
  - split; [split; [discriminate|by intros [[=] _]]|].
    intros self' fired H. apply Ok_inj in H. injection H as <- <-. cbn.
    repeat split; try done. by intros [[=] _].
Qed.

Lemma trigger_call_fired (self self' : CompareValueTrigger V)
  (observation : option V) (interval fired : bool) :
  trigger_call self observation interval = Ok (self', fired) ->
  (fired = true -> interval = true /\ is_Some (best_value self))
  /\ (interval = false -> best_value self' = best_value self).
Proof.
  unfold AsrUtils.trigger_call. destruct interval; cbn [negb].
  - destruct (match observation with
              | Some v => summary self ++ [v]
              | None => summary self
              end) as [|v l]; [discriminate|].
    destruct (best_value self) as [best|].
    + destruct (compare_fn best _); intros H; apply Ok_inj in H;
        injection H as <- <-; split; eauto; done.
    + intros H. apply Ok_inj in H. injection H as <- <-. by split.
  - intros H. apply Ok_inj in H. injection H as <- <-. by split.
Qed.

Lemma trigger_run_fired (events : list (option V * bool)) :
  forall (self self' : CompareValueTrigger V) (fired0 fired : list bool),
  trigger_run self events fired0 = Ok (self', fired) ->
  exists new,
    fired = new ++ fired0
    /\ length new = length events
    /\ forall k,
         rev new !! k = Some true ->
         (exists observation, events !! k = Some (observation, true))
         /\ (best_value self = None ->
             exists j observation,
               (j < k)%nat /\ events !! j = Some (observation, true)).
Proof.
  induction events as [|[observation interval] events IH];
    intros self self' fired0 fired H; cbn [AsrUtils.trigger_run] in H.
  - apply Ok_inj in H. injection H as <- <-. exists []. split; [done|].
    split; [done|]. intros k Hk. destruct k; discriminate.
  - apply bind_Ok in H as ([self1 f1] & Hcall & H). cbn [fst snd] in H.
    apply IH in H as (new & -> & Hlen & Hnew).
    destruct (trigger_call_fired _ _ _ _ _ Hcall) as [Hfired Hkeep].
    exists (new ++ [f1]). split; [by rewrite <- app_assoc|].
    split; [rewrite length_app; cbn; lia|].
    intros k Hk. rewrite rev_app_distr in Hk. cbn [rev app] in Hk.
    destruct k as [|k]; cbn in Hk.
    + injection Hk as ->. destruct (Hfired eq_refl) as [-> [best Hbest]].
      split; [cbn; eauto|]. intros Hnone. congruence.
    + destruct (Hnew k Hk) as [Hev Hearlier]. split; [done|].
      intros Hnone. destruct interval.
      * exists 0%nat, observation. split; [lia|done].
      * pose proof (Hkeep eq_refl) as Hb.
        destruct Hearlier as (j & o & Hj & Hev'); [congruence|].
        exists (S j), o. split; [lia|done].
Qed.

(** A trigger called over a series of iterations since its creation
    returns [True] only at iterations where the interval trigger fires,
    and never at the first of them: the first mean only becomes the best
    value. *)
Theorem trigger_run_spec (events : list (option V * bool))
  (self' : CompareValueTrigger V) (fired : list bool) :
  trigger_run trigger_init events [] = Ok (self', fired) ->
  length fired = length events
  /\ forall k,
       rev fired !! k = Some true ->
       (exists observation, events !! k = Some (observation, true))
       /\ exists j observation,
            (j < k)%nat /\ events !! j = Some (observation, true).
Proof.
  intros H. apply trigger_run_fired in H as (new & -> & Hlen & Hnew).
  rewrite app_nil_r. split; [done|].
  intros k Hk. destruct (Hnew k Hk) as [Hev Hearlier]. split; [done|].
  by apply Hearlier.
Qed.

End CompareValueTriggerFacts.

Lemma trigger_run_spec_witness :
  let events := [(Some 5, false); (Some 7, true); (Some 3, true)] in
  let fired := [true; false; false] in
  length fired = length events
  /\ forall k,
       rev fired !! k = Some true ->
       (exists observation, events !! k = Some (observation, true))
       /\ exists j observation,
            (j < k)%nat /\ events !! j = Some (observation, true).
Proof.
  intros events fired.
  apply (trigger_run_spec Samples.mean Samples.dropped events
           {| AsrUtils.best_value := Some 6; AsrUtils.summary := [] |} fired).
  vm_compute. reflexivity.
Defined.

(** ** [_adadelta_eps_decay] *)

Section AdadeltaEpsDecayFacts.

Import AsrUtils.

Context {float : Type} (fmul : float -> float -> float).

(** A group after the decay: [eps] is multiplied, the other entries are
    the same. *)
Local Abbreviation decayed eps_decay :=
  (alter (fun e => fmul e eps_decay) "eps").

Lemma insert_eps (p : gmap string float) (e eps_decay : float) :
  p !! "eps" = Some e ->
  <["eps" := fmul e eps_decay]> p = decayed eps_decay p.
Proof.
  intros He. apply map_eq. intros k.
  destruct (decide ("eps" = k)) as [<- | Hne].
  - by rewrite lookup_insert_eq, lookup_alter_eq, He.
  - by rewrite lookup_insert_ne, lookup_alter_ne.
Qed.

Lemma decay_groups_Ok (eps_decay : float) (todo : list (gmap string float)) :
  forall visited,
  Forall (fun p => is_Some (p !! "eps")) todo ->
  decay_groups fmul eps_decay visited todo
  = Ok (TorchOptimizer (visited ++ (decayed eps_decay <$> todo))).
Proof.
  induction todo as [|p todo IH]; intros visited Hall; cbn.
  - by rewrite app_nil_r.
  - inversion_clear Hall as [|? ? [e He] Hrest]. rewrite He.
    rewrite IH by done. rewrite <- app_assoc. cbn.
    by rewrite (insert_eps _ _ _ He).
Qed.

(** The decay of a chainer optimizer multiplies its [eps]; the decay of a
    pytorch optimizer whose groups all have [eps] multiplies the [eps] of
    every group and leaves the other entries and the number of groups as
    they are. *)
Theorem adadelta_eps_decay_spec (eps_decay : float) :
  (forall eps,
     _adadelta_eps_decay fmul (ChainerOptimizer eps) eps_decay
     = Ok (ChainerOptimizer (fmul eps eps_decay)))
  /\ (forall param_groups,
        Forall (fun p => is_Some (p !! "eps")) param_groups ->
        _adadelta_eps_decay fmul (TorchOptimizer param_groups) eps_decay
        = Ok (TorchOptimizer (decayed eps_decay <$> param_groups))).
Proof.
  split; [done|]. intros param_groups Hall. cbn.
  by rewrite decay_groups_Ok.
Qed.

(** A group without [eps] makes the decay raise [KeyError], after the
    groups that precede it were updated: these keep their new [eps], the
    group and those that follow are as before. *)
Theorem adadelta_eps_decay_partial (eps_decay : float)
  (pre post : list (gmap string float)) (p : gmap string float) :
  Forall (fun q => is_Some (q !! "eps")) pre ->
  p !! "eps" = None ->
  _adadelta_eps_decay fmul (TorchOptimizer (pre ++ p :: post)) eps_decay
  = Raise (KeyError,
           TorchOptimizer ((decayed eps_decay <$> pre) ++ p :: post)).
Proof.
  intros Hpre Hp. cbn.
  assert (forall visited,
            decay_groups fmul eps_decay visited (pre ++ p :: post)
            = Raise (KeyError,
                     TorchOptimizer
                       (visited ++ (decayed eps_decay <$> pre) ++ p :: post)))
    as Hgen; [|apply (Hgen [])].
  induction Hpre as [|q pre [e He] _ IH]; intros visited; cbn.
  - by rewrite Hp.
  - rewrite He, IH, <- app_assoc. cbn. by rewrite (insert_eps _ _ _ He).
Qed.

End AdadeltaEpsDecayFacts.

Lemma adadelta_eps_decay_spec_witness :
  AsrUtils._adadelta_eps_decay Z.mul
    (AsrUtils.TorchOptimizer [Samples.group1; Samples.group2]) 2
  = Ok (AsrUtils.TorchOptimizer
          (alter (fun e => e * 2) "eps" <$> [Samples.group1; Samples.group2])).
Proof.
  apply (proj2 (adadelta_eps_decay_spec Z.mul 2)).
  repeat constructor; eexists; vm_compute; reflexivity.
Defined.

Lemma adadelta_eps_decay_partial_witness :
  AsrUtils._adadelta_eps_decay Z.mul
    (AsrUtils.TorchOptimizer
       ([Samples.group1] ++ Samples.group3 :: [Samples.group2])) 2
  = Raise (KeyError,
           AsrUtils.TorchOptimizer
             ((alter (fun e => e * 2) "eps" <$> [Samples.group1])
              ++ Samples.group3 :: [Samples.group2])).
Proof.
  apply (adadelta_eps_decay_partial Z.mul 2 [Samples.group1] [Samples.group2]
           Samples.group3).
  - repeat constructor. eexists. vm_compute. reflexivity.
  - vm_compute. reflexivity.
Defined.

(** ** More on [check_install.py] *)

Section ParseLine.

Import CheckInstall.

Lemma append_cons (c : ascii) (s t : string) :
  String c s +:+ t = String c (s +:+ t).
Proof. reflexivity. Qed.

Lemma append_nil_l (s : string) : "" +:+ s = s.
Proof. reflexivity. Qed.

Lemma append_nil_r (s : string) : s +:+ "" = s.
Proof.
  induction s as [|c s IH]; [done|]. rewrite append_cons. by f_equal.
Qed.

Lemma append_assoc (s t u : string) : (s +:+ t) +:+ u = s +:+ t +:+ u.
Proof.
  induction s as [|c s IH]; [done|]. rewrite !append_cons. by f_equal.
Qed.

(** No character of [s] is [c]. *)
Local Abbreviation without c s := (remove_char c s%string = s%string).

Lemma without_cons (c d : ascii) (s : string) :
  without c (String d s) -> c <> d /\ without c s.
Proof.
  cbn. destruct (Ascii.eqb c d) eqn:Hcd.
  - intros Heq. exfalso.
    assert (forall t, String.length (remove_char c t) <= String.length t)%nat as Hlen.
    { induction t as [|a t IH]; cbn; [lia|]. destruct (Ascii.eqb c a); cbn; lia. }
    specialize (Hlen s). rewrite Heq in Hlen. cbn in Hlen. lia.
  - intros [= Heq]. split; [|done]. by apply Ascii.eqb_neq.
Qed.

Section Separator.

(** The two separators of the script are a character [a] followed by
    [=]. *)
Variable a : ascii.

Local Abbreviation sep := (String a (String "=" EmptyString)).

Lemma prefix_cons (c d : ascii) (s t : string) :
  String.prefix (String c s) (String d t)
  = if ascii_dec c d then String.prefix s t else false.
Proof. reflexivity. Qed.

Lemma prefix_nil_l (s : string) : String.prefix "" s = true.
Proof. by destruct s. Qed.

Lemma prefix_sep (s : string) :
  String.prefix sep s = true <-> exists r, s = sep +:+ r.
Proof.
  split.
  - destruct s as [|c [|d r]]; [discriminate| |].
    + rewrite prefix_cons. by destruct (ascii_dec a c).
    + rewrite !prefix_cons.
      destruct (ascii_dec a c) as [<-|]; [|discriminate].
      destruct (ascii_dec "=" d) as [<-|]; [|discriminate]. eauto.
  - intros [r ->]. rewrite !append_cons, append_nil_l, !prefix_cons.
    destruct (ascii_dec a a); [|done].
    destruct (ascii_dec "=" "="); [|done]. apply prefix_nil_l.
Qed.

Lemma contains_sep_app (name rest : string) :
  contains sep (name +:+ sep +:+ rest) = true.
Proof.
  induction name as [|c name IH].
  - rewrite append_nil_l, !append_cons, append_nil_l.
    unfold contains; fold contains.
    replace (String.prefix sep (String a (String "=" rest))) with true; [done|].
    symmetry. apply prefix_sep. by exists rest.
  - rewrite append_cons. unfold contains; fold contains.
    rewrite IH. apply orb_true_r.
Qed.

(** Splitting at the first separator, which comes after a [name] without
    the character [a]. *)
Lemma split_sep_first (name rest : string) :
  without a name ->
  forall tok,
  split_sep sep 0 tok (name +:+ sep +:+ rest)
  = (tok +:+ name) :: split_sep sep 0 "" rest.
Proof.
  induction name as [|c name IH]; intros Hname tok.
  - rewrite append_nil_l, !append_cons, append_nil_l.
    unfold split_sep; fold split_sep.
    replace (String.prefix sep (String a (String "=" rest))) with true.
    2:{ symmetry. apply prefix_sep. by exists rest. }
    by rewrite append_nil_r.
  - apply without_cons in Hname as [Hc Hname].
    rewrite append_cons. unfold split_sep; fold split_sep.
    replace (String.prefix sep (String c (name +:+ sep +:+ rest))) with false.
    2:{ symmetry. rewrite prefix_cons. by destruct (ascii_dec a c). }
    rewrite IH by done. by rewrite append_assoc.
Qed.

(** Without separator there is one piece. *)
Lemma split_sep_none (rest : string) :
  contains sep rest = false ->
  forall tok, split_sep sep 0 tok rest = [tok +:+ rest].
Proof.
  induction rest as [|c rest IH]; intros Hrest tok.
  - cbn. by rewrite append_nil_r.
  - unfold contains in Hrest; fold contains in Hrest.
    apply orb_false_iff in Hrest as [Hp Hrest].
    unfold split_sep; fold split_sep. rewrite Hp.
    rewrite IH by done. by rewrite append_assoc.
Qed.

Lemma split_on_two (name rest : string) :
  without a name -> contains sep rest = false ->
  split_on sep (name +:+ sep +:+ rest) = [name; rest].
Proof.
  intros Hname Hrest. unfold split_on.
  rewrite split_sep_first by done. by rewrite split_sep_none.
Qed.

Lemma split_on_three (name middle rest : string) :
  without a name -> without a middle ->
  exists pieces,
    split_on sep (name +:+ sep +:+ middle +:+ sep +:+ rest)
    = name :: middle :: pieces
    /\ pieces <> [].
Proof.
  intros Hname Hmiddle. unfold split_on.
  rewrite !split_sep_first by done. eexists. split; [reflexivity|].
  destruct rest as [|c rest]; [done|]. unfold split_sep; fold split_sep.
  destruct (String.prefix _ _); [done|].
  clear. generalize ("" +:+ String c ""). induction rest as [|d rest IH]; intros tok.
  - done.
  - unfold split_sep; fold split_sep. destruct (String.prefix _ _); [done|].
    apply IH.
Qed.

End Separator.

(** What the parser makes of a line, once its newlines are removed.
    [name==version], where [name] has no [=] and [version] no [==], is the
    library [name] pinned to [version]; [name>=version], without [==],
    where [name] has no [>] and [version] no [>=], is the library [name]
    without pin; a line without [==] and [>=] is a library name as it
    stands. *)
Theorem parse_line_spec (line name version : string) :
  (remove_char newline line = name +:+ "==" +:+ version ->
   remove_char "=" name = name -> contains "==" version = false ->
   parse_line line = Ok (name, Some version))
  /\ (remove_char newline line = name +:+ ">=" +:+ version ->
      contains "==" (name +:+ ">=" +:+ version) = false ->
      remove_char ">" name = name -> contains ">=" version = false ->
      parse_line line = Ok (name, None))
  /\ (contains "==" (remove_char newline line) = false ->
      contains ">=" (remove_char newline line) = false ->
      parse_line line = Ok (remove_char newline line, None)).
Proof.
  unfold parse_line. split; [|split].
  - intros -> Hname Hversion.
    rewrite (contains_sep_app "=" name version).
    by rewrite (split_on_two "=" name version).
  - intros -> Hnopin Hname Hversion. rewrite Hnopin.
    rewrite (contains_sep_app ">" name version).
    by rewrite (split_on_two ">" name version).
  - by intros -> ->.
Qed.

(** A line with a second [==] cannot be unpacked into a name and a
    version: the parser raises [ValueError]. *)
Theorem parse_line_two_pins (line name version rest : string) :
  remove_char newline line = name +:+ "==" +:+ version +:+ "==" +:+ rest ->
  remove_char "=" name = name -> remove_char "=" version = version ->
  parse_line line = Raise ValueError.
Proof.
  intros Hline Hname Hversion. unfold parse_line. rewrite Hline.
  rewrite (contains_sep_app "=" name).
  destruct (split_on_three "=" name version rest Hname Hversion)
    as (pieces & -> & Hne).
  by destruct pieces.
Qed.

End ParseLine.

Lemma parse_line_spec_witness :
  CheckInstall.parse_line ("chainer==6.0.0" +:+ String CheckInstall.newline "")
  = Ok ("chainer", Some "6.0.0")
  /\ CheckInstall.parse_line "scipy>=1.2" = Ok ("scipy", None)
  /\ CheckInstall.parse_line "numpy" = Ok ("numpy", None).
Proof.
  split; [|split].
  - apply (proj1 (parse_line_spec _ "chainer" "6.0.0")); reflexivity.
  - apply (proj1 (proj2 (parse_line_spec _ "scipy" "1.2"))); reflexivity.
  - apply (proj2 (proj2 (parse_line_spec "numpy" "" ""))); reflexivity.
Defined.

Lemma parse_line_two_pins_witness :
  CheckInstall.parse_line "torch==1.0==cu90" = Raise ValueError.
Proof.
  apply (parse_line_two_pins _ "torch" "1.0" "cu90"); reflexivity.
Defined.

Section CheckLoop.

Import CheckInstall.

Variable env : environment.

(** A round of the availability loop goes on exactly when the library can
    be imported (and has a [__version__] if its version is pinned), or
    cannot be found and has no pinned version; in every other case the
    round ends the script with an exception: a library that is pinned
    and cannot be found, an import that raises anything but [ImportError],
    a pinned library without [__version__]. *)
Theorem check_library_goes_on (st : state) (idx : nat) (name : string)
  (version : option string) :
  (exists st', check_library env st (idx, (name, version)) = Ok st')
  <-> (exists lib, import_module env name = Ok lib
                   /\ (version = None \/ is_Some (version_attr lib)))
      \/ (import_module env name = Raise ImportError /\ version = None).
Proof.
  cbn [check_library]. unfold check_installed, check_version.
  destruct (import_module env name) as [lib|e] eqn:Himp.
  - cbn [mbind result_bind bind]. destruct version as [v|].
    + destruct (version_attr lib) as [v'|] eqn:Hv.
      * split; [intros _; left; eauto|]. intros _.
        destruct (String.eqb v' v); eauto.
      * split; [by intros [? [=]]|].
        intros [(lib' & [= <-] & [[=] | Hs]) | [[=] _]].
        rewrite Hv in Hs. by destruct Hs.
    + split; [intros _; left; eauto|eauto].
  - destruct version as [v|].
    + split.
      * destruct e; cbn [mbind result_bind bind]; by intros [? [=]].
      * by intros [(lib' & [=] & _) | [_ [=]]].
    + split.
      * destruct e; cbn [mbind result_bind bind]; try (by intros [? [=]]).
        intros _. by right.
      * intros [(lib' & [=] & _) | [[= ->] _]]. cbn. eauto.
Qed.

(** A round that goes on has logged something and has set the entry of its
    library, and no other, in [is_collect_installed_list]. *)
Lemma check_library_Ok (st st' : state) (idx : nat)
  (lib : string * option string) :
  check_library env st (idx, lib) = Ok st' ->
  (exists b, is_collect_installed_list st'
             = <[idx := Some b]> (is_collect_installed_list st))
  /\ log st `prefix_of` log st'.
Proof.
  destruct lib as [name version]. cbn [check_library].
  unfold check_installed, check_version, version_not_matched.
  intros H.
  destruct (import_module env name) as [m|e] eqn:Himp.
  - cbn [mbind result_bind bind] in H. destruct version as [v|].
    + destruct (version_attr m) as [v'|]; [|discriminate].
      destruct (String.eqb v' v); apply Ok_inj in H as <-; cbn;
        rewrite list_insert_insert_eq;
        (split; [eauto|]); eexists; by rewrite <- app_assoc.
    + apply Ok_inj in H as <-. cbn. split; [eauto|]. by eexists.
  - destruct e; try discriminate. cbn [mbind result_bind bind] in H.
    destruct version as [v|].
    + discriminate.
    + apply Ok_inj in H as <-. cbn. split; [eauto|]. by eexists.
Qed.

Lemma check_loop_entries (libs : list (string * option string)) :
  forall (k : nat) (st st' : state),
  for_each (check_library env) st (zip (seq k (length libs)) libs) = Ok st' ->
  length (is_collect_installed_list st') = length (is_collect_installed_list st)
  /\ log st `prefix_of` log st'
  /\ (forall i, (i < k)%nat ->
        is_collect_installed_list st' !! i = is_collect_installed_list st !! i)
  /\ (forall i, (k <= i < k + length libs)%nat ->
        (i < length (is_collect_installed_list st))%nat ->
        exists b, is_collect_installed_list st' !! i = Some (Some b)).
Proof.
  induction libs as [|lib libs IH]; intros k st st' H;
    cbn [length seq zip zip_with for_each] in H.
  - apply Ok_inj in H as <-. split; [done|]. split; [done|]. split; [done|].
    intros i Hi. cbn [length] in Hi. lia.
  - apply bind_Ok in H as (st1 & H1 & H).
    apply check_library_Ok in H1 as [[b Hb] Hlog].
    apply IH in H as (Hlen & Hlog' & Hbefore & Hin).
    rewrite Hb, length_insert in Hlen. split; [done|].
    split; [by etransitivity|]. split.
    + intros i Hi. rewrite Hbefore by lia. rewrite Hb.
      apply list_lookup_insert_ne. lia.
    + intros i Hi Hlt. cbn [length] in Hi.
      destruct (decide (i = k)) as [->|Hne].
      * exists b. rewrite Hbefore by lia. rewrite Hb.
        by apply list_lookup_insert_eq.
      * apply Hin; [lia|]. by rewrite Hb, length_insert.
Qed.

Lemma sum_verdicts (l : list (option bool)) :
  Forall is_Some l -> exists n, sum l = Ok n /\ (n <= length l)%nat.
Proof.
  induction 1 as [|o l [b ->] _ (n & Hn & Hle)]; cbn [sum].
  - exists 0%nat. split; [done|]. cbn. lia.
  - rewrite Hn. cbn [mbind result_bind bind]. eexists. split; [done|].
    cbn [length]. destruct b; lia.
Qed.

(** When the availability loop of the script ends, every library has a
    verdict: no entry of [is_collect_installed_list] is left at [None], so
    that the number of installed libraries can be counted, and it is at
    most the number of libraries. *)
Lemma check_loop_verdicts (libs : list (string * option string))
  (records : list log_record) (st' : state) :
  for_each (check_library env)
    {| log := records;
       is_collect_installed_list := replicate (length libs) None |}
    (enumerate libs) = Ok st' ->
  length (is_collect_installed_list st') = length libs
  /\ Forall is_Some (is_collect_installed_list st')
  /\ records `prefix_of` log st'
  /\ exists n, sum (is_collect_installed_list st') = Ok n
               /\ (n <= length libs)%nat.
Proof.
  intros H. unfold enumerate in H.
  apply check_loop_entries in H as (Hlen & Hlog & _ & Hin).
  cbn [is_collect_installed_list log] in *. rewrite length_replicate in *.
  assert (Forall is_Some (is_collect_installed_list st')) as Hall.
  { rewrite Forall_forall. intros o Ho.
    apply list_elem_of_lookup in Ho as [i Hi].
    pose proof (lookup_lt_Some _ _ _ Hi) as Hlt. rewrite Hlen in Hlt.
    destruct (Hin i) as [b Hb]; [lia|lia|]. rewrite Hb in Hi.
    injection Hi as <-. eauto. }
  repeat split; auto.
  destruct (sum_verdicts _ Hall) as (n & Hn & Hle). exists n. by rewrite <- Hlen.
Qed.

End CheckLoop.

Section CheckInstallEnd.

Import CheckInstall.

Variable env : environment.

Lemma lift_Ok {A} (st : state) (m : result exn A) (a : A) :
  lift st m = Ok a -> m = Ok a.
Proof. destruct m; [by intros [= ->]|discriminate]. Qed.

Lemma check_assert_list (st : state) (cond : bool) (yes : string)
  (no : list string) :
  is_collect_installed_list (check_assert st cond yes no)
  = is_collect_installed_list st.
Proof.
  unfold check_assert. destruct cond; [done|].
  revert st. induction no as [|m no IH]; intros st; cbn; [done|].
  by rewrite IH.
Qed.

Lemma check_cuda_Ok (st st' : state) :
  check_cuda env st = Ok st' ->
  is_collect_installed_list st' = is_collect_installed_list st
  /\ last (log st') = Some (INFO, "cuda availableness check done.").
Proof.
  unfold check_cuda. intros H.
  apply bind_Ok in H as (? & _ & H).
  apply bind_Ok in H as (? & _ & H).
  apply bind_Ok in H as (st1 & H1 & H).
  apply Ok_inj in H as <-. cbn [info log is_collect_installed_list].
  split; [|apply last_snoc].
  rewrite check_assert_list.
  assert (is_collect_installed_list st1 = is_collect_installed_list st) as ->;
    [|done].
  destruct (import_module env "cupy.cuda.nccl") as [m|e].
  - apply Ok_inj in H1 as <-. cbn [info is_collect_installed_list].
    by rewrite !check_assert_list.
  - destruct e; try discriminate. apply Ok_inj in H1 as <-.
    cbn [foldl warn is_collect_installed_list].
    by rewrite !check_assert_list.
Qed.

(** A run of the script that ends without exception has given a verdict
    on every line of the requirements and on the three libraries that the
    script adds, and it ends in one of two ways: when some library is not
    correctly installed, with the advice to set up again, the cuda check
    being skipped; when all are, with the end of the cuda check. *)
Theorem check_install_end (lines : list string) (st : state) :
  check_install env lines = Ok st ->
  length (is_collect_installed_list st) = (length lines + 3)%nat
  /\ exists n,
       sum (is_collect_installed_list st) = Ok n
       /\ (n <= length lines + 3)%nat
       /\ last (log st)
          = Some (INFO,
                  if decide (n = length lines + 3)%nat
                  then "cuda availableness check done."
                  else "please try to setup again and then re-run this script.").
Proof.
  unfold check_install. intros H.
  apply bind_Ok in H as (parsed & Hparsed & H).
  apply lift_Ok, comprehension_Forall2, Forall2_length in Hparsed.
  apply bind_Ok in H as (st1 & Hloop & H).
  apply check_loop_verdicts in Hloop as (Hlen & _ & _ & n & Hn & Hle).
  rewrite length_app in Hlen, Hle. cbn [MANUALLY_INSTALLED_LIBRARIES length] in Hlen, Hle.
  rewrite <- Hparsed in Hlen, Hle.
  apply bind_Ok in H as (n1 & Hn1 & H). apply lift_Ok in Hn1.
  apply bind_Ok in H as (n2 & Hn2 & H). apply lift_Ok in Hn2.
  cbn [info is_collect_installed_list] in Hn1, Hn2.
  assert (n1 = n) as -> by congruence.
  assert (n2 = n) as -> by congruence.
  rewrite length_app in H. cbn [MANUALLY_INSTALLED_LIBRARIES length] in H.
  rewrite <- Hparsed in H.
  destruct (decide (length lines + 3 <> n)%nat) as [Hne|Heq].
  - apply Ok_inj in H as <-. cbn [info is_collect_installed_list log].
    split; [done|]. exists n. split; [done|]. split; [done|].
    rewrite last_snoc. destruct (decide (n = length lines + 3)%nat); [lia|done].
  - apply check_cuda_Ok in H as [Hlist Hlast].
    cbn [info is_collect_installed_list] in Hlist. rewrite Hlist.
    split; [done|]. exists n. split; [done|]. split; [done|].
    rewrite Hlast. destruct (decide (n = length lines + 3)%nat); [done|lia].
Qed.

End CheckInstallEnd.

Lemma check_install_end_witness :
  exists st : CheckInstall.state,
    length (CheckInstall.is_collect_installed_list st) = (length ["foo"] + 3)%nat
    /\ exists n,
         CheckInstall.sum (CheckInstall.is_collect_installed_list st) = Ok n
         /\ (n <= length ["foo"] + 3)%nat
         /\ last (CheckInstall.log st)
            = Some (CheckInstall.INFO,
                    if decide (n = length ["foo"] + 3)%nat
                    then "cuda availableness check done."
                    else "please try to setup again and then re-run this script.").
Proof.
  eexists. apply (check_install_end Samples.env ["foo"]).
  vm_compute. reflexivity.
Defined.

(** ** [Frontend]: construction and evaluation mode *)

Section FrontendMore.

Import Frontend.

Context {ComplexTensor float DNN_WPE_module DNN_MVDR_module StageError : Type}.
Variable shape : ComplexTensor -> list nat.
Variable DNN_WPE : wpe_options float -> DNN_WPE_module.
Variable DNN_MVDR : beamformer_options float -> DNN_MVDR_module.
Variable wpe_forward :
  DNN_WPE_module -> ComplexTensor -> lengths ->
  result StageError (ComplexTensor * lengths).
Variable beamformer_forward :
  DNN_MVDR_module -> ComplexTensor -> lengths ->
  result StageError (ComplexTensor * lengths).

Local Abbreviation forward := (forward shape wpe_forward beamformer_forward).
Local Abbreviation init := (init float DNN_WPE_module DNN_MVDR_module DNN_WPE DNN_MVDR).

(** A frontend as [__init__] builds it, in training or in evaluation
    mode, never calls a stage that it has not built: [forward] does not
    fail on a stage that is [None], whatever the input and the draw.  The
    stage that the draw selects in training mode is one that exists, since
    the draw only takes place when both stages are enabled. *)
Theorem forward_init_callable (idim : Z)
  (use_wpe_ : bool) (wtype_ : string) (wlayers_ wunits_ wprojs_ : Z)
  (wdropout_rate : float) (taps_ delay_ : Z) (use_dnn_mask_for_wpe_ : bool)
  (use_beamformer_ : bool) (btype_ : string) (blayers_ bunits_ bprojs_ badim_ : Z)
  (ref_channel_ : option Z) (bdropout_rate : float)
  (mode swapped : bool) (x : ComplexTensor) (ilens : lengths) :
  forward
    (train (init idim use_wpe_ wtype_ wlayers_ wunits_ wprojs_ wdropout_rate
              taps_ delay_ use_dnn_mask_for_wpe_ use_beamformer_ btype_
              blayers_ bunits_ bprojs_ badim_ ref_channel_ bdropout_rate) mode)
    swapped x ilens
  <> Raise NotCallable.
Proof.
  unfold Frontend.forward, len.
  destruct (shape x) as [|n sh]; [done|]. cbn [mbind result_bind bind].
  destruct (negb (n =? _)%nat); [done|].
  destruct (negb _); [done|].
  destruct (dim shape x =? 4)%nat; [|done].
  unfold Frontend.call_wpe, Frontend.call_beamformer. cbn.
  destruct mode, use_beamformer_, use_wpe_, use_dnn_mask_for_wpe_, swapped; cbn;
    repeat match goal with
           | |- context [wpe_forward ?m ?h ?l] =>
               destruct (wpe_forward m h l) as [[? ?]|?]; cbn
           | |- context [beamformer_forward ?m ?h ?l] =>
               destruct (beamformer_forward m h l) as [[? ?]|?]; cbn
           end; done.
Qed.

End FrontendMore.

(** ** The residual blocks: conditioning, causal convolution, HiFiGAN *)

Section ConditioningMore.

Import ResidualBlock.

Context {T S W : Type} `{Torch T S W}.

(** A block built without local (or global) conditioning layer cannot be
    given the conditioning: once the dilated convolution and its split
    have succeeded, [forward] calls the layer that [__init__] has left at
    [None], which raises [TypeError]. *)
Theorem forward_conditioning_unset
  (kernel_size_ residual_channels gate_channels skip_channels_ aux_channels
     global_channels : Z) (dropout_rate_ : S) (dilation_ : Z)
  (bias_ use_causal_conv_ : bool) (w_conv w_aux w_glo w_out w_skip : W)
  (self : WaveNetResidualBlock S W) (x y c g : T) (xab : T * T) :
  init kernel_size_ residual_channels gate_channels skip_channels_ aux_channels
    global_channels dropout_rate_ dilation_ bias_ use_causal_conv_
    w_conv w_aux w_glo w_out w_skip = Ok self ->
  conv_forward (conv self) (F_dropout x (dropout_rate self) (training self))
  = Ok y ->
  halves y = Ok xab ->
  (aux_channels <= 0 -> forall g', forward self x (Some c) g' = Raise TypeError)
  /\ (global_channels <= 0 -> forward self x None (Some g) = Raise TypeError).
Proof.
  intros Hinit Hconv Hhalves. unfold init in Hinit.
  apply bind_Ok in Hinit as (padding_ & _ & Hinit). cbv zeta in Hinit.
  apply Ok_inj in Hinit. split.
  - intros Haux g'. unfold forward. rewrite Hconv. cbn [mbind result_bind bind].
    rewrite Hhalves. cbn [mbind result_bind bind].
    subst self. cbn [conv1x1_aux].
    replace (0 <? aux_channels)%Z with false by lia. reflexivity.
  - intros Hglo. unfold forward. rewrite Hconv. cbn [mbind result_bind bind].
    rewrite Hhalves. cbn [mbind result_bind bind conditioning].
    subst self. cbn [conv1x1_glo].
    replace (0 <? global_channels)%Z with false by lia. reflexivity.
Qed.

End ConditioningMore.

Section ConditioningWitness.

Import Shapes.

Lemma forward_conditioning_unset_witness :
  exists self : ResidualBlock.WaveNetResidualBlock unit unit,
    ResidualBlock.init 3 64 128 64 (-1) (-1) tt 1 true false tt tt tt tt tt
    = Ok self
    /\ (forall g', ResidualBlock.forward self [1; 64; 10]%nat
                     (Some [1; 80; 10]%nat) g' = Raise TypeError)
    /\ ResidualBlock.forward self [1; 64; 10]%nat None (Some [1; 16; 1]%nat)
       = Raise TypeError.
Proof.
  eexists. split; [reflexivity|].
  pose proof (fun self => forward_conditioning_unset 3 64 128 64 (-1) (-1) tt 1
                true false tt tt tt tt tt self [1; 64; 10]%nat [1; 128; 10]%nat
                [1; 80; 10]%nat [1; 16; 1]%nat
                ([1; 64; 10]%nat, [1; 64; 10]%nat)) as Hunset.
  edestruct Hunset as [Hc Hg];
    [reflexivity | vm_compute; reflexivity | vm_compute; reflexivity |].
  split; [apply Hc; lia | apply Hg; lia].
Defined.

End ConditioningWitness.

Section ShapesMore.

Import ResidualBlock Shapes.

Lemma conv_shape_length (c : Conv1d unit) (b ch t : nat) :
  Z.of_nat ch = in_channels c -> 0 < out_channels c -> 0 < kernel_size c ->
  0 < dilation c -> 0 <= padding c ->
  0 < Z.of_nat t + 2 * padding c - dilation c * (kernel_size c - 1) ->
  conv_shape c [b; ch; t]
  = Ok [b; Z.to_nat (out_channels c);
        Z.to_nat (Z.of_nat t + 2 * padding c - dilation c * (kernel_size c - 1))].
Proof.
  intros Hch Ho Hk Hd Hp Ht. unfold conv_shape.
  replace (_ && _) with true; [done|].
  symmetry. repeat (apply andb_true_iff; split); lia.
Qed.

(** Two shapes that differ in their number of frames, none of them a
    single frame, cannot be added. *)
Lemma broadcast_mismatch (b ch t t' : nat) :
  t' <> t -> t <> 1%nat -> t' <> 1%nat ->
  broadcast [b; ch; t'] [b; ch; t] = Raise RuntimeError.
Proof.
  intros Hne Ht Ht'. unfold broadcast. cbn. rewrite !Nat.eqb_refl. cbn.
  apply Nat.eqb_neq in Hne, Ht, Ht'. by rewrite Hne, Ht, Ht'.
Qed.

(** With [use_causal_conv=True] and a kernel of more than one tap,
    [forward] raises on every input of more than one frame, with or
    without conditioning: the convolution, padded on both sides, returns
    [(kernel_size - 1) * dilation] frames more than it was given, nothing
    removes them, and the first sum with a tensor of the original length
    (the local conditioning, or else the residual input) fails. *)
Theorem forward_causal_raises
  (kernel_size_ residual_channels gate_channels skip_channels_ aux_channels
     global_channels dilation_ : Z) (bias_ : bool) (b t : nat)
  (c g : option (list nat)) (self : WaveNetResidualBlock unit unit) :
  init kernel_size_ residual_channels gate_channels skip_channels_ aux_channels
    global_channels tt dilation_ bias_ true tt tt tt tt tt = Ok self ->
  1 < kernel_size_ -> 0 < dilation_ -> 0 < residual_channels ->
  0 < gate_channels -> gate_channels `mod` 2 = 0 -> (1 < t)%nat ->
  (c = None \/ (0 < aux_channels /\ c = Some [b; Z.to_nat aux_channels; t])) ->
  (g = None
   \/ (0 < global_channels /\ g = Some [b; Z.to_nat global_channels; 1%nat])) ->
  forward self [b; Z.to_nat residual_channels; t] c g = Raise RuntimeError.
Proof.
  intros Hinit Hk Hd Hres Hgate Heven Ht Hc Hg.
  unfold init in Hinit. cbn in Hinit. apply Ok_inj in Hinit as <-.
  assert (Hh : 0 < gate_channels `div` 2).
  { apply Z.div_str_pos. pose proof (Z.div_mod gate_channels 2). lia. }
  assert (Hextra : 0 < (kernel_size_ - 1) * dilation_) by nia.
  unfold forward.
  cbn [F_dropout torch conv_forward dropout_rate training conv conv1x1_aux
       conv1x1_glo conv1x1_out tanh sigmoid mul add mul_scalar sqrt_half].
  rewrite conv_shape_length by (cbn; nia).
  cbn [mbind result_bind bind out_channels kernel_size padding dilation].
  set (t' := Z.to_nat (Z.of_nat t + 2 * ((kernel_size_ - 1) * dilation_)
                       - dilation_ * (kernel_size_ - 1))).
  assert (Ht' : (t < t')%nat) by (subst t'; nia).
  rewrite halves_shape by done.
  cbn [mbind result_bind bind].
  set (half := [b; Z.to_nat (gate_channels `div` 2); t']).
  destruct Hc as [-> | [Haux ->]].
  2:{ assert (Hcond1 : conditioning (T := list nat)
                         (Some (Conv1d1x1 aux_channels gate_channels false tt))
                         (Some [b; Z.to_nat aux_channels; t]) (half, half)
                       = Raise RuntimeError).
      { unfold conditioning, call. cbn [conv_forward torch].
        rewrite conv_shape_same_length by (cbn; lia).
        cbn [mbind result_bind bind out_channels Conv1d1x1].
        rewrite halves_shape by done.
        cbn [mbind result_bind bind fst snd add torch]. unfold half.
        rewrite broadcast_mismatch by lia. reflexivity. }
      replace (0 <? aux_channels)%Z with true by lia.
      rewrite Hcond1. reflexivity. }
  cbn [conditioning mbind result_bind bind].
  assert (Hcond2 : conditioning (T := list nat)
                     (if (0 <? global_channels)%Z
                      then Some (Conv1d1x1 global_channels gate_channels false tt)
                      else None) g (half, half) = Ok (half, half)).
  { destruct Hg as [-> | [Hglo ->]]; [done|].
    replace (0 <? global_channels)%Z with true by lia.
    unfold conditioning, call. cbn [conv_forward torch].
    rewrite conv_shape_same_length by (cbn; lia).
    cbn [mbind result_bind bind out_channels Conv1d1x1].
    rewrite halves_shape by done.
    cbn [mbind result_bind bind fst snd add torch].
    unfold half. rewrite broadcast_frame. reflexivity. }
  rewrite Hcond2. cbn [mbind result_bind bind fst snd].
  rewrite broadcast_same. cbn [mbind result_bind bind].
  unfold skip_connection. cbn [skip_channels conv1x1_skip].
  destruct (0 <? skip_channels_)%Z eqn:Hskip.
  - unfold call. cbn [conv_forward torch]. unfold half.
    rewrite !conv_shape_same_length by (cbn; lia).
    cbn [mbind result_bind bind out_channels Conv1d1x1].
    rewrite broadcast_mismatch by lia. reflexivity.
  - cbn [mbind result_bind bind]. unfold half.
    rewrite conv_shape_same_length by (cbn; lia).
    cbn [mbind result_bind bind out_channels Conv1d1x1].
    rewrite broadcast_mismatch by lia. reflexivity.
Qed.

Lemma for_each_fixed {E A St} (body : St -> A -> result E St) (x : St)
  (l : list A) :
  Forall (fun a => body x a = Ok x) l -> for_each body x l = Ok x.
Proof.
  induction 1 as [|a l Ha _ IH]; [done|]. cbn [for_each].
  by rewrite Ha.
Qed.

(** A HiFiGAN block keeps the shape (B, channels, T) of its input, for
    every odd kernel size (the only ones that [__init__] accepts), every
    list of positive dilations (none included) and with or without the
    additional convolutions, when the activation keeps the shape as the
    activations of [torch.nn] do. *)
Theorem hifigan_forward_shape (kernel_size_ channels : Z) (dilations : list Z)
  (bias_ use_additional_convs_ : bool)
  (nonlinear_activation : list nat -> list nat) (w1 w2 : nat -> unit)
  (self : HiFiGANResidualBlock (list nat) unit) (b t : nat) :
  hifigan_init kernel_size_ channels dilations bias_ use_additional_convs_
    nonlinear_activation w1 w2 = Ok self ->
  0 < kernel_size_ -> 0 < channels -> Forall (fun d => 0 < d) dilations ->
  (forall x, nonlinear_activation x = x) -> (0 < t)%nat ->
  length (convs1 self) = length dilations
  /\ hifigan_forward self [b; Z.to_nat channels; t]
     = Ok [b; Z.to_nat channels; t].
Proof.
  intros Hinit Hk Hch Hdil Hact Ht. unfold hifigan_init in Hinit.
  destruct (kernel_size_ `mod` 2 =? 1)%Z eqn:Hodd; [|discriminate].
  apply Z.eqb_eq in Hodd. cbn [negb] in Hinit. apply Ok_inj in Hinit as <-.
  cbn [convs1]. rewrite length_imap. split; [done|].
  assert (Hpad : 2 * ((kernel_size_ - 1) `div` 2) = kernel_size_ - 1).
  { pose proof (Z.div_mod (kernel_size_ - 1) 2).
    assert ((kernel_size_ - 1) `mod` 2 = 0); [|lia].
    rewrite Zminus_mod, Hodd. reflexivity. }
  unfold hifigan_forward. cbn [convs1]. rewrite length_imap.
  apply for_each_fixed, Forall_forall. intros idx Hidx.
  apply elem_of_seq in Hidx as [_ Hidx]. cbn in Hidx.
  destruct (lookup_lt_is_Some_2 dilations idx Hidx) as [d Hd].
  pose proof (Forall_lookup_1 _ _ _ _ Hdil Hd) as Hpos. cbn beta in Hpos.
  unfold hifigan_layer, getitem. cbn [convs1 convs2 use_additional_convs].
  rewrite list_lookup_imap, Hd. cbn [fmap option_fmap option_map mbind result_bind bind].
  unfold activated_forward. cbn [activation layer conv_forward torch].
  rewrite Hact, conv_shape_same_length by (cbn; nia).
  cbn [mbind result_bind bind out_channels].
  destruct use_additional_convs_; cbn [mbind result_bind bind].
  - rewrite list_lookup_imap, Hd.
    cbn [fmap option_fmap option_map mbind result_bind bind activation layer].
    rewrite Hact, conv_shape_same_length by (cbn; nia).
    cbn [mbind result_bind bind out_channels add torch].
    apply broadcast_same.
  - cbn [add torch]. apply broadcast_same.
Qed.

End ShapesMore.

Section ShapesMoreWitnesses.

Import Shapes.

Lemma forward_non_causal_shape_witness :
  exists self : ResidualBlock.WaveNetResidualBlock unit unit,
    Samples.default_block = Ok self
    /\ ResidualBlock.forward self [4; 64; 100]%nat (Some [4; 80; 100]%nat) None
       = Ok ([4; 64; 100]%nat, Some [4; 64; 100]%nat).
Proof.
  eexists. split; [reflexivity|].
  apply (forward_non_causal_shape 3 64 128 64 80 (-1) 1 true 4 100
           (Some [4; 80; 100]%nat) None);
    [reflexivity|lia|lia|lia|lia|reflexivity|lia| |by left].
  right. split; [lia|reflexivity].
Defined.

Lemma forward_causal_raises_witness :
  exists self : ResidualBlock.WaveNetResidualBlock unit unit,
    Samples.causal_block = Ok self
    /\ ResidualBlock.forward self [4; 64; 100]%nat (Some [4; 80; 100]%nat) None
       = Raise RuntimeError.
Proof.
  eexists. split; [reflexivity|].
  apply (forward_causal_raises 3 64 128 64 80 (-1) 1 true 4 100
           (Some [4; 80; 100]%nat) None);
    [reflexivity|lia|lia|lia|lia|reflexivity|lia| |by left].
  right. split; [lia|reflexivity].
Defined.

Lemma hifigan_forward_shape_witness :
  exists self : ResidualBlock.HiFiGANResidualBlock (list nat) unit,
    Samples.hifigan_block = Ok self
    /\ length (ResidualBlock.convs1 self) = 3%nat
    /\ ResidualBlock.hifigan_forward self [4; 512; 100]%nat
       = Ok [4; 512; 100]%nat.
Proof.
  eexists. split; [reflexivity|].
  apply (hifigan_forward_shape 3 512 [1; 3; 5] true true (fun x => x)
           (fun _ => tt) (fun _ => tt) _ 4 100);
    [reflexivity|lia|lia| |done|lia].
  repeat constructor.
Defined.

End ShapesMoreWitnesses.
